(** * Ambient-sound mixer: the synthesis core of [script.js]

    A shallow embedding of the signal generators, the [SoundNode]
    lifecycle and the card click handler of [script.js], over a small
    model of the Web Audio engine the script drives.

    Conventions.
    - JavaScript numbers are idealised as exact rationals ([Q]); sample
      buffers ([Float32Array]) are [list Q] written by index.  A store
      into the white-noise and the impulse buffer rounds to the nearest
      binary32 number ([fround]); the pink-noise filter is evaluated in
      exact arithmetic, its stores included.
    - [Math.random] is an oracle: the [k]-th call returns [rnd k].
    - Statements that compare samples use [==] (equality of rationals).
    - The engine is the part of the Web Audio interface the script calls:
      nodes are allocated in a list and named by their index, connections
      are pairs, [start] and [stop] throw as the interface says, and an
      attribute write stores the value.  [audioCtx.sampleRate] is a
      natural number and [audioCtx.resume()] takes effect at once.
    - One clock, in milliseconds, drives [setTimeout] and
      [audioCtx.currentTime]; a handler that throws leaves the state it
      reached. *)

From Stdlib Require Import QArith Qround Qabs Lqa ZArith Lia.
From stdpp Require Import gmap strings list.

Local Open Scope Q_scope.

(** ** Signal generators *)

Module Generators.

(** [data[idx] = v] on a typed array: a write outside the array is dropped. *)
Definition write (idx : Z) (v : Q) (data : list Q) : list Q :=
  if (idx <? 0)%Z then data else <[Z.to_nat idx := v]> data.

(** [audioCtx.createBuffer(1, n, sampleRate).getChannelData(0)]: silence. *)
Definition createBuffer (n : nat) : list Q := replicate n 0.

(** *** [Float32Array] stores *)

(** Rounding to the nearest integer, ties to the even one. *)
Definition rne (q : Q) : Z :=
  let f := Qfloor q in
  match Qcompare (q - inject_Z f) (1 # 2) with
  | Lt => f
  | Eq => if Z.even f then f else (f + 1)%Z
  | Gt => (f + 1)%Z
  end.

(** [t], a number of units of [2 ^ -149], rounded to 24 significant bits:
    [shift t] is the number of bits that are dropped. *)
Definition shift (t : Q) : Z := Z.max 0 (Z.log2 (Qfloor t) - 23).

Definition round24 (t : Q) : Z :=
  (rne (t / inject_Z (2 ^ shift t)) * 2 ^ shift t)%Z.

(** [Math.fround]: the number a [Float32Array] holds after a store, the
    nearest binary32 value (24 significant bits, no bit below [2 ^ -149]),
    ties to even.  A magnitude of [2 ^ 128] or more, which the array would
    hold as an infinity, is not told apart: the two generators that round
    store numbers of magnitude at most 1. *)
Definition fround (q : Q) : Q :=
  let a := inject_Z (round24 (Qabs q * inject_Z (2 ^ 149)))
           / inject_Z (2 ^ 149) in
  if Qle_bool 0 q then a else - a.

#[global] Arguments fround : simpl never.

(** *** White noise, [createNoiseBuffer] *)

(** The [for] loop: [k] iterations remain, [i] is the loop index and [p]
    the number of [Math.random] calls made so far. *)
Fixpoint noise_loop (rnd : nat -> Q) (k i p : nat) (data : list Q)
  : list Q * nat :=
  match k with
  | O => (data, p)
  | S k' =>
      noise_loop rnd k' (S i) (S p) (<[i := fround (rnd p * 2 - 1)]> data)
  end.

Definition createNoiseBuffer (sampleRate : nat) (rnd : nat -> Q) (p : nat)
  : list Q * nat :=
  let bufferSize := (sampleRate * 2)%nat in
  noise_loop rnd bufferSize 0 p (createBuffer bufferSize).

(** *** Pink noise, [createPinkNoiseBuffer] *)

Record PinkState := mkPink
  { b0 : Q; b1 : Q; b2 : Q; b3 : Q; b4 : Q; b5 : Q; b6 : Q }.

Definition pink_zero : PinkState := mkPink 0 0 0 0 0 0 0.

(** One pass through the loop body: the new filter state and the sample
    stored in [data[i]]. *)
Definition pink_body (white : Q) (st : PinkState) : PinkState * Q :=
  let n0 := 0.99886 * b0 st + white * 0.0555179 in
  let n1 := 0.99332 * b1 st + white * 0.0750759 in
  let n2 := 0.96900 * b2 st + white * 0.1538520 in
  let n3 := 0.86650 * b3 st + white * 0.3104856 in
  let n4 := 0.55000 * b4 st + white * 0.5329522 in
  let n5 := -0.7616 * b5 st - white * 0.0168981 in
  let d := n0 + n1 + n2 + n3 + n4 + n5 + b6 st + white * 0.5362 in
  let d := d * 0.11 in
  (mkPink n0 n1 n2 n3 n4 n5 (white * 0.115926), d).

Fixpoint pink_loop (rnd : nat -> Q) (k i p : nat) (st : PinkState)
    (data : list Q) : list Q * nat :=
  match k with
  | O => (data, p)
  | S k' =>
      let white := rnd p * 2 - 1 in
      let '(st', d) := pink_body white st in
      pink_loop rnd k' (S i) (S p) st' (<[i := d]> data)
  end.

Definition createPinkNoiseBuffer (sampleRate : nat) (rnd : nat -> Q) (p : nat)
  : list Q * nat :=
  let bufferSize := (sampleRate * 2)%nat in
  pink_loop rnd bufferSize 0 p pink_zero (createBuffer bufferSize).

(** The white-noise input of sample [i] of a buffer whose generation
    starts at call [p] of [Math.random]. *)
Definition white (rnd : nat -> Q) (p i : nat) : Q := rnd (p + i)%nat * 2 - 1.

(** The filter state after [n] passes of the loop, and the sample that
    pass [j] stores in [data[j]]. *)
Fixpoint pink_states (rnd : nat -> Q) (p n : nat) : PinkState :=
  match n with
  | O => pink_zero
  | S m => (pink_body (white rnd p m) (pink_states rnd p m)).1
  end.

Definition pink_out (rnd : nat -> Q) (p j : nat) : Q :=
  (pink_body (white rnd p j) (pink_states rnd p j)).2.

(** *** Impulse train, [createImpulseBuffer] *)

(** Number of passes of [for (let i = 0; i < totalPops; i++)]: the least
    natural number that is not below [totalPops]. *)
Definition trips (totalPops : Q) : nat := Z.to_nat (Qceiling totalPops).

(** Position of the pop drawn with calls [p] and [p+1], and its
    amplitude as the buffer holds it. *)
Definition pop_index (rnd : nat -> Q) (bufferSize p : nat) : Z :=
  Qfloor (rnd p * inject_Z (Z.of_nat bufferSize)).

Definition pop_amp (rnd : nat -> Q) (p : nat) : Q :=
  fround ((rnd (S p) * 2 - 1) * 0.8).

(** The largest magnitude of a pop: 0.8 as a binary32 number,
    0.800000011920929. *)
Definition pop_peak : Q := 13421773 # 16777216.

Fixpoint impulse_loop (rnd : nat -> Q) (bufferSize k p : nat)
    (data : list Q) : list Q * nat :=
  match k with
  | O => (data, p)
  | S k' =>
      let idx := pop_index rnd bufferSize p in
      impulse_loop rnd bufferSize k' (S (S p))
        (write idx (pop_amp rnd p) data)
  end.

Definition createImpulseBuffer (sampleRate : nat) (rnd : nat -> Q) (p : nat)
    (rate : Q) : list Q * nat :=
  let bufferSize := (sampleRate * 4)%nat in
  let totalPops := rate * 4 in
  impulse_loop rnd bufferSize (trips totalPops) p (createBuffer bufferSize).

(** Positions written by [k] passes of the loop that start at call [q]. *)
Fixpoint positions (rnd : nat -> Q) (bufferSize k q : nat) : list Z :=
  match k with
  | O => []
  | S k' => pop_index rnd bufferSize q :: positions rnd bufferSize k' (S (S q))
  end.

(** The positions written by a call, in the order of the writes. *)
Definition pop_positions (sampleRate : nat) (rnd : nat -> Q) (p : nat)
    (rate : Q) : list Z :=
  map (fun j => pop_index rnd (sampleRate * 4) (p + 2 * j))
      (seq 0 (trips (rate * 4))).

(** The amplitudes stored by a call, in the order of the writes. *)
Definition pop_amps (rnd : nat -> Q) (p : nat) (rate : Q) : list Q :=
  map (fun j => pop_amp rnd (p + 2 * j)) (seq 0 (trips (rate * 4))).

(** Samples of a buffer that are not zero. *)
Definition nonzero (x : Q) : bool := negb (Qeq_bool x 0).

Definition count_nonzero (data : list Q) : nat :=
  length (filter (fun x => nonzero x = true) data).

Definition bit (b : bool) : nat := if b then 1%nat else 0%nat.

End Generators.

(** ** Sound profiles: the [sounds] table *)

Module Profile.

(** One entry of [sounds]; an absent property is [None]. *)
Record Config := mkConfig
  { id : string;
    name : string;
    icon : string;
    type : string;
    filter : option string;
    modulation : option string;
    freq : option Q;
    wave : option string;
    rate : option Q;
    baseFreq : option Q }.

Definition entry (i n ic t : string) : Config :=
  mkConfig i n ic t None None None None None None.

Definition with_filter (f : string) (c : Config) : Config :=
  mkConfig (id c) (name c) (icon c) (type c) (Some f) (modulation c)
           (freq c) (wave c) (rate c) (baseFreq c).
Definition with_modulation (m : string) (c : Config) : Config :=
  mkConfig (id c) (name c) (icon c) (type c) (filter c) (Some m)
           (freq c) (wave c) (rate c) (baseFreq c).
Definition with_freq (f : Q) (c : Config) : Config :=
  mkConfig (id c) (name c) (icon c) (type c) (filter c) (modulation c)
           (Some f) (wave c) (rate c) (baseFreq c).
Definition with_wave (v : string) (c : Config) : Config :=
  mkConfig (id c) (name c) (icon c) (type c) (filter c) (modulation c)
           (freq c) (Some v) (rate c) (baseFreq c).
Definition with_rate (r : Q) (c : Config) : Config :=
  mkConfig (id c) (name c) (icon c) (type c) (filter c) (modulation c)
           (freq c) (wave c) (Some r) (baseFreq c).
Definition with_baseFreq (f : Q) (c : Config) : Config :=
  mkConfig (id c) (name c) (icon c) (type c) (filter c) (modulation c)
           (freq c) (wave c) (rate c) (Some f).

Definition rain : Config :=
  with_filter "lowpass" (entry "rain" "Cyber Rain" "🌧️" "noise").
Definition ocean : Config :=
  with_modulation "ocean"
    (with_filter "lowpass" (entry "ocean" "Neon Waves" "🌊" "pink-noise")).
Definition wind : Config :=
  with_filter "bandpass" (entry "wind" "City Wind" "💨" "pink-noise").
Definition crickets : Config :=
  with_modulation "pulse"
    (with_freq 4000 (entry "crickets" "Night Bugs" "🦗" "oscillator")).
Definition drone : Config :=
  with_wave "sawtooth"
    (with_freq 50 (entry "drone" "Deep Space" "🚀" "oscillator")).
Definition coffee : Config :=
  with_filter "highpass" (entry "coffee" "Café Hum" "☕" "noise").
Definition vinyl : Config :=
  with_rate 15 (entry "vinyl" "Vinyl Dust" "💿" "impulse").
Definition fire : Config :=
  with_modulation "flicker"
    (with_filter "lowpass" (entry "fire" "Digital Fire" "🔥" "noise")).
Definition chime : Config :=
  with_baseFreq 440 (entry "chime" "Glass Chimes" "🎐" "periodic").
Definition train : Config :=
  with_modulation "rhythm"
    (with_filter "lowpass" (entry "train" "Ghost Train" "🚋" "pink-noise")).

Definition sounds : list Config :=
  [rain; ocean; wind; crickets; drone; coffee; vinyl; fire; chime; train].

(** JavaScript truthiness and [||] on optional properties. *)
Definition truthy (o : option string) : bool :=
  match o with Some s => negb (s =? EmptyString)%string | None => false end.

Definition or_str (o : option string) (d : string) : string :=
  if truthy o then default d o else d.

Definition or_num (o : option Q) (d : Q) : Q :=
  match o with
  | Some q => if Qeq_bool q 0 then d else q
  | None => d
  end.

(** [o === s] for an optional string property. *)
Definition prop_is (o : option string) (s : string) : bool :=
  match o with Some x => (x =? s)%string | None => false end.

End Profile.

(** ** The audio engine: nodes, connections, exceptions *)

Module Audio.

Inductive Exn := TypeError | InvalidStateError.

#[global] Instance Exn_eq_dec : EqDecision Exn.
Proof. solve_decision. Defined.

Inductive NodeKind :=
  Destination | Analyser | BufferSource | Oscillator | Gain | BiquadFilter.

#[global] Instance NodeKind_eq_dec : EqDecision NodeKind.
Proof. solve_decision. Defined.

(** Where an output is connected: the input of a node, or one of its
    parameters ([frequency], [gain]). *)
Inductive Dest := ToNode (n : nat) | ToParam (n : nat) (param : string).

#[global] Instance Dest_eq_dec : EqDecision Dest.
Proof. solve_decision. Defined.

Inductive CtxState := Suspended | Running.

(** The attributes of an audio node that the script reads or writes.
    [gainEvents] records the [gain.setTargetAtTime(target, startTime,
    timeConstant)] calls made on the node, newest first. *)
Record AudioNode := mkNode
  { kind : NodeKind;
    ntype : string;
    frequency : Q;
    gain : Q;
    Qvalue : Q;
    fftSize : nat;
    buffer : option (list Q);
    loop : bool;
    started : bool;
    stopped : bool;
    gainEvents : list (Q * Q * Q) }.

Definition fresh (k : NodeKind) (t : string) (f g : Q) (fft : nat)
  : AudioNode :=
  mkNode k t f g 1 fft None false false false [].

(** Defaults of the engine's factory methods. *)
Definition newDestination := fresh Destination EmptyString 0 0 0.
Definition newAnalyser := fresh Analyser EmptyString 0 0 2048.
Definition newBufferSource := fresh BufferSource EmptyString 0 0 0.
Definition newOscillator := fresh Oscillator "sine" 440 0 0.
Definition newGain := fresh Gain EmptyString 0 1 0.
Definition newBiquadFilter := fresh BiquadFilter "lowpass" 350 0 0.

Definition with_type (t : string) (n : AudioNode) : AudioNode :=
  mkNode (kind n) t (frequency n) (gain n) (Qvalue n) (fftSize n)
         (buffer n) (loop n) (started n) (stopped n) (gainEvents n).
Definition with_frequency (f : Q) (n : AudioNode) : AudioNode :=
  mkNode (kind n) (ntype n) f (gain n) (Qvalue n) (fftSize n)
         (buffer n) (loop n) (started n) (stopped n) (gainEvents n).
Definition with_gain (g : Q) (n : AudioNode) : AudioNode :=
  mkNode (kind n) (ntype n) (frequency n) g (Qvalue n) (fftSize n)
         (buffer n) (loop n) (started n) (stopped n) (gainEvents n).
Definition with_Q (q : Q) (n : AudioNode) : AudioNode :=
  mkNode (kind n) (ntype n) (frequency n) (gain n) q (fftSize n)
         (buffer n) (loop n) (started n) (stopped n) (gainEvents n).
Definition with_fftSize (s : nat) (n : AudioNode) : AudioNode :=
  mkNode (kind n) (ntype n) (frequency n) (gain n) (Qvalue n) s
         (buffer n) (loop n) (started n) (stopped n) (gainEvents n).
Definition with_buffer (b : list Q) (n : AudioNode) : AudioNode :=
  mkNode (kind n) (ntype n) (frequency n) (gain n) (Qvalue n) (fftSize n)
         (Some b) (loop n) (started n) (stopped n) (gainEvents n).
Definition with_loop (l : bool) (n : AudioNode) : AudioNode :=
  mkNode (kind n) (ntype n) (frequency n) (gain n) (Qvalue n) (fftSize n)
         (buffer n) l (started n) (stopped n) (gainEvents n).
Definition mark_started (n : AudioNode) : AudioNode :=
  mkNode (kind n) (ntype n) (frequency n) (gain n) (Qvalue n) (fftSize n)
         (buffer n) (loop n) true (stopped n) (gainEvents n).
Definition mark_stopped (n : AudioNode) : AudioNode :=
  mkNode (kind n) (ntype n) (frequency n) (gain n) (Qvalue n) (fftSize n)
         (buffer n) (loop n) (started n) true (gainEvents n).
Definition push_event (e : Q * Q * Q) (n : AudioNode) : AudioNode :=
  mkNode (kind n) (ntype n) (frequency n) (gain n) (Qvalue n) (fftSize n)
         (buffer n) (loop n) (started n) (stopped n) (e :: gainEvents n).

(** Nodes that have [start()] and [stop()]. *)
Definition schedulable (n : AudioNode) : bool :=
  match kind n with BufferSource | Oscillator => true | _ => false end.

End Audio.

(** ** The object a [SoundNode] instance holds *)

Module Obj.

Record SoundNode := mkSoundNode
  { config : Profile.Config;
    gainNode : nat;
    source : option nat;
    filter : option nat;
    lfo : option nat;
    lfoGain : option nat;
    isPlaying : bool }.

Definition with_source (s : option nat) (o : SoundNode) : SoundNode :=
  mkSoundNode (config o) (gainNode o) s (filter o) (lfo o) (lfoGain o)
              (isPlaying o).
Definition with_filter (f : option nat) (o : SoundNode) : SoundNode :=
  mkSoundNode (config o) (gainNode o) (source o) f (lfo o) (lfoGain o)
              (isPlaying o).
Definition with_lfo (l : option nat) (o : SoundNode) : SoundNode :=
  mkSoundNode (config o) (gainNode o) (source o) (filter o) l (lfoGain o)
              (isPlaying o).
Definition with_lfoGain (g : option nat) (o : SoundNode) : SoundNode :=
  mkSoundNode (config o) (gainNode o) (source o) (filter o) (lfo o) g
              (isPlaying o).
Definition with_isPlaying (b : bool) (o : SoundNode) : SoundNode :=
  mkSoundNode (config o) (gainNode o) (source o) (filter o) (lfo o)
              (lfoGain o) b.

End Obj.

(** ** The state of the page and of the engine *)

Module Engine.
Import Audio.

(** Deferred callbacks: the teardown closure of [SoundNode.stop] (it
    captures [this]) and the clean-up closure of the click handler (it
    captures the card and [sound.id]). *)
Inductive Callback := Teardown (this : nat) | Cleanup (id : string).

#[global] Instance Callback_eq_dec : EqDecision Callback.
Proof. solve_decision. Defined.

(** [audioCtx]: its state and the index of its destination node. *)
Record Context := mkContext { state : CtxState; destination : nat }.

Record World := mkWorld
  { sampleRate : nat;            (* audioCtx.sampleRate *)
    initialState : CtxState;     (* state a new AudioContext starts in *)
    rnd : nat -> Q;              (* Math.random oracle *)
    rpos : nat;                  (* calls of Math.random made so far *)
    now : nat;                   (* clock, in milliseconds *)
    audioCtx : option Context;
    analyser : option nat;
    nodes : list AudioNode;      (* audio nodes, by index *)
    edges : list (nat * Dest);   (* connections *)
    objs : list Obj.SoundNode;   (* SoundNode instances, by reference *)
    activeSounds : gmap string (option nat);
    activeCards : gset string;   (* cards carrying the class active *)
    sliders : gmap string Q;     (* slider values that were moved *)
    timers : list (nat * Callback) }.

Definition set_rpos (p : nat) (w : World) : World :=
  mkWorld (sampleRate w) (initialState w) (rnd w) p (now w) (audioCtx w)
    (analyser w) (nodes w) (edges w) (objs w) (activeSounds w)
    (activeCards w) (sliders w) (timers w).
Definition set_now (t : nat) (w : World) : World :=
  mkWorld (sampleRate w) (initialState w) (rnd w) (rpos w) t (audioCtx w)
    (analyser w) (nodes w) (edges w) (objs w) (activeSounds w)
    (activeCards w) (sliders w) (timers w).
Definition set_audioCtx (c : option Context) (w : World) : World :=
  mkWorld (sampleRate w) (initialState w) (rnd w) (rpos w) (now w) c
    (analyser w) (nodes w) (edges w) (objs w) (activeSounds w)
    (activeCards w) (sliders w) (timers w).
Definition set_analyser (a : option nat) (w : World) : World :=
  mkWorld (sampleRate w) (initialState w) (rnd w) (rpos w) (now w)
    (audioCtx w) a (nodes w) (edges w) (objs w) (activeSounds w)
    (activeCards w) (sliders w) (timers w).
Definition set_nodes (l : list AudioNode) (w : World) : World :=
  mkWorld (sampleRate w) (initialState w) (rnd w) (rpos w) (now w)
    (audioCtx w) (analyser w) l (edges w) (objs w) (activeSounds w)
    (activeCards w) (sliders w) (timers w).
Definition set_edges (l : list (nat * Dest)) (w : World) : World :=
  mkWorld (sampleRate w) (initialState w) (rnd w) (rpos w) (now w)
    (audioCtx w) (analyser w) (nodes w) l (objs w) (activeSounds w)
    (activeCards w) (sliders w) (timers w).
Definition set_objs (l : list Obj.SoundNode) (w : World) : World :=
  mkWorld (sampleRate w) (initialState w) (rnd w) (rpos w) (now w)
    (audioCtx w) (analyser w) (nodes w) (edges w) l (activeSounds w)
    (activeCards w) (sliders w) (timers w).
Definition set_activeSounds (m : gmap string (option nat)) (w : World)
  : World :=
  mkWorld (sampleRate w) (initialState w) (rnd w) (rpos w) (now w)
    (audioCtx w) (analyser w) (nodes w) (edges w) (objs w) m
    (activeCards w) (sliders w) (timers w).
Definition set_activeCards (s : gset string) (w : World) : World :=
  mkWorld (sampleRate w) (initialState w) (rnd w) (rpos w) (now w)
    (audioCtx w) (analyser w) (nodes w) (edges w) (objs w) (activeSounds w)
    s (sliders w) (timers w).
Definition set_sliders (m : gmap string Q) (w : World) : World :=
  mkWorld (sampleRate w) (initialState w) (rnd w) (rpos w) (now w)
    (audioCtx w) (analyser w) (nodes w) (edges w) (objs w) (activeSounds w)
    (activeCards w) m (timers w).
Definition set_timers (l : list (nat * Callback)) (w : World) : World :=
  mkWorld (sampleRate w) (initialState w) (rnd w) (rpos w) (now w)
    (audioCtx w) (analyser w) (nodes w) (edges w) (objs w) (activeSounds w)
    (activeCards w) (sliders w) l.

(** *** Computations that read and write the world and may throw *)

Definition M (A : Type) : Type := World -> (Exn + A) * World.

Definition ret {A} (a : A) : M A := fun w => (inr a, w).
Definition throw {A} (e : Exn) : M A := fun w => (inl e, w).
Definition bind {A B} (m : M A) (k : A -> M B) : M B :=
  fun w => match m w with
           | (inl e, w') => (inl e, w')
           | (inr a, w') => k a w'
           end.
Definition gets {A} (f : World -> A) : M A := fun w => (inr (f w), w).
Definition modify (f : World -> World) : M unit := fun w => (inr tt, f w).

(** [try { m } catch (e) {}] *)
Definition try_ (m : M unit) : M unit :=
  fun w => match m w with
           | (inl _, w') => (inr tt, w')
           | r => r
           end.

Declare Scope js_scope.
Delimit Scope js_scope with js.
Notation "x <- m ;; k" := (bind m (fun x => k))
  (at level 100, m at next level, right associativity) : js_scope.
Notation "m ;;; k" := (bind m (fun _ => k))
  (at level 100, right associativity) : js_scope.
Local Open Scope js_scope.

(** A property access on [null] or [undefined] throws a [TypeError]. *)
Definition deref {A} (o : option A) : M A :=
  match o with Some a => ret a | None => throw TypeError end.

(** *** The engine's methods *)

Definition getCtx : M Context := c <- gets audioCtx ;; deref c.

Definition alloc (n : AudioNode) : M nat :=
  getCtx ;;;
  i <- gets (fun w => length (nodes w)) ;;
  modify (fun w => set_nodes (nodes w ++ [n]) w) ;;;
  ret i.

Definition createBufferSource : M nat := alloc newBufferSource.
Definition createOscillator : M nat := alloc newOscillator.
Definition createGain : M nat := alloc newGain.
Definition createBiquadFilter : M nat := alloc newBiquadFilter.
Definition createAnalyser : M nat := alloc newAnalyser.

(** An attribute write on node [i]. *)
Definition updNode (i : nat) (f : AudioNode -> AudioNode) : M unit :=
  modify (fun w => set_nodes (alter f i (nodes w)) w).

Definition getNode (i : nat) : M AudioNode :=
  n <- gets (fun w => nodes w !! i) ;; deref n.

(** [a.connect(d)]: connecting twice is the same as connecting once. *)
Definition add_edge (e : nat * Dest) (es : list (nat * Dest))
  : list (nat * Dest) :=
  if bool_decide (e ∈ es) then es else es ++ [e].

Definition connect (a : nat) (d : Dest) : M unit :=
  modify (fun w => set_edges (add_edge (a, d) (edges w)) w).

(** [a.disconnect()]: every outgoing connection of [a] is removed. *)
Definition disconnect (a : nat) : M unit :=
  modify (fun w =>
    set_edges (filter (fun e => e.1 ≠ a) (edges w)) w).

(** [a.start()]: only sources have it, and only once. *)
Definition startNode (a : nat) : M unit :=
  n <- getNode a ;;
  if negb (schedulable n) then throw TypeError
  else if started n then throw InvalidStateError
  else updNode a mark_started.

(** [a.stop()]: an error before [start()]. *)
Definition stopNode (a : nat) : M unit :=
  n <- getNode a ;;
  if negb (schedulable n) then throw TypeError
  else if negb (started n) then throw InvalidStateError
  else updNode a mark_stopped.

(** [audioCtx.currentTime], in seconds. *)
Definition currentTime : M Q :=
  getCtx ;;;
  t <- gets now ;;
  ret (inject_Z (Z.of_nat t) / 1000).

(** [g.gain.setTargetAtTime(target, startTime, timeConstant)] *)
Definition setTargetAtTime (g : nat) (target startTime timeConstant : Q)
  : M unit :=
  updNode g (push_event (target, startTime, timeConstant)).

(** [setTimeout(cb, delay)] *)
Definition setTimeout (cb : Callback) (delay : nat) : M unit :=
  modify (fun w => set_timers (timers w ++ [((now w + delay)%nat, cb)]) w).

(** The generators of the script, reading [audioCtx.sampleRate] and
    drawing from [Math.random]. *)
Definition createNoiseBuffer : M (list Q) :=
  getCtx ;;;
  r <- gets (fun w =>
         Generators.createNoiseBuffer (sampleRate w) (rnd w) (rpos w)) ;;
  modify (set_rpos r.2) ;;;
  ret r.1.

Definition createPinkNoiseBuffer : M (list Q) :=
  getCtx ;;;
  r <- gets (fun w =>
         Generators.createPinkNoiseBuffer (sampleRate w) (rnd w) (rpos w)) ;;
  modify (set_rpos r.2) ;;;
  ret r.1.

Definition createImpulseBuffer (rate : Q) : M (list Q) :=
  getCtx ;;;
  r <- gets (fun w =>
         Generators.createImpulseBuffer (sampleRate w) (rnd w) (rpos w)
                                        rate) ;;
  modify (set_rpos r.2) ;;;
  ret r.1.

(** [initAudio]: the context and the analyser are created once; the
    context's destination is node [d]. *)
Definition initAudio : M unit :=
  c <- gets audioCtx ;;
  match c with
  | None =>
      d <- gets (fun w => length (nodes w)) ;;
      modify (fun w => set_nodes (nodes w ++ [newDestination]) w) ;;;
      s <- gets initialState ;;
      modify (set_audioCtx (Some (mkContext s d))) ;;;
      a <- createAnalyser ;;
      modify (set_analyser (Some a)) ;;;
      a <- (x <- gets analyser ;; deref x) ;;
      updNode a (with_fftSize 256) ;;;
      a <- (x <- gets analyser ;; deref x) ;;
      c <- getCtx ;;
      connect a (ToNode (destination c))
  | Some _ => ret tt
  end ;;;
  c <- getCtx ;;
  match state c with
  | Suspended => modify (set_audioCtx (Some (mkContext Running (destination c))))
  | Running => ret tt
  end.

End Engine.

(** ** [class SoundNode] *)

Module SoundNode.
Import Audio Engine.
Local Open Scope js_scope.

Definition getObj (this : nat) : M Obj.SoundNode :=
  o <- gets (fun w => objs w !! this) ;; deref o.

Definition setObj (this : nat) (f : Obj.SoundNode -> Obj.SoundNode)
  : M unit :=
  modify (fun w => set_objs (alter f this (objs w)) w).

(** Reads of [this.gainNode], [this.source], [this.filter], [this.lfo] and
    [this.lfoGain] that are followed by a property access. *)
Definition this_gainNode (this : nat) : M nat :=
  o <- getObj this ;; ret (Obj.gainNode o).
Definition this_source (this : nat) : M nat :=
  o <- getObj this ;; deref (Obj.source o).
Definition this_filter (this : nat) : M nat :=
  o <- getObj this ;; deref (Obj.filter o).
Definition this_lfo (this : nat) : M nat :=
  o <- getObj this ;; deref (Obj.lfo o).
Definition this_lfoGain (this : nat) : M nat :=
  o <- getObj this ;; deref (Obj.lfoGain o).

(** [new SoundNode(config)] *)
Definition new (config : Profile.Config) : M nat :=
  g <- createGain ;;
  updNode g (with_gain 0.5) ;;;
  this <- gets (fun w => length (objs w)) ;;
  modify (fun w =>
    set_objs (objs w ++ [Obj.mkSoundNode config g None None None None false])
             w) ;;;
  ret this.

(** Lines 94-132 of [start]: source creation. *)
Definition start_source (this : nat) (cfg : Profile.Config) : M unit :=
  if (Profile.type cfg =? "noise")%string then
    s <- createBufferSource ;;
    setObj this (Obj.with_source (Some s)) ;;;
    s <- this_source this ;;
    b <- createNoiseBuffer ;;
    updNode s (with_buffer b) ;;;
    s <- this_source this ;;
    updNode s (with_loop true)
  else if (Profile.type cfg =? "pink-noise")%string then
    s <- createBufferSource ;;
    setObj this (Obj.with_source (Some s)) ;;;
    s <- this_source this ;;
    b <- createPinkNoiseBuffer ;;
    updNode s (with_buffer b) ;;;
    s <- this_source this ;;
    updNode s (with_loop true)
  else if (Profile.type cfg =? "impulse")%string then
    s <- createBufferSource ;;
    setObj this (Obj.with_source (Some s)) ;;;
    s <- this_source this ;;
    b <- createImpulseBuffer (Profile.or_num (Profile.rate cfg) 5) ;;
    updNode s (with_buffer b) ;;;
    s <- this_source this ;;
    updNode s (with_loop true)
  else if (Profile.type cfg =? "oscillator")%string then
    s <- createOscillator ;;
    setObj this (Obj.with_source (Some s)) ;;;
    s <- this_source this ;;
    updNode s (with_type (Profile.or_str (Profile.wave cfg) "sine")) ;;;
    s <- this_source this ;;
    updNode s (with_frequency (Profile.or_num (Profile.freq cfg) 440)) ;;;
    if Profile.prop_is (Profile.modulation cfg) "pulse" then
      l <- createOscillator ;;
      setObj this (Obj.with_lfo (Some l)) ;;;
      l <- this_lfo this ;;
      updNode l (with_type "square") ;;;
      l <- this_lfo this ;;
      updNode l (with_frequency 4) ;;;
      g <- createGain ;;
      setObj this (Obj.with_lfoGain (Some g)) ;;;
      g <- this_lfoGain this ;;
      updNode g (with_gain 1) ;;;
      amGain <- createGain ;;
      updNode amGain (with_gain 0) ;;;
      s <- this_source this ;;
      connect s (ToNode amGain) ;;;
      l <- this_lfo this ;;
      connect l (ToParam amGain "gain") ;;;
      l <- this_lfo this ;;
      startNode l ;;;
      s <- this_source this ;;
      disconnect s
    else ret tt
  else ret tt.

(** Lines 139-149: the filter's design defaults. *)
Definition start_filter_kind (this : nat) (cfg : Profile.Config) : M unit :=
  if Profile.prop_is (Profile.filter cfg) "lowpass" then
    f <- this_filter this ;;
    updNode f (with_type "lowpass") ;;;
    f <- this_filter this ;;
    updNode f (with_frequency 400)
  else if Profile.prop_is (Profile.filter cfg) "bandpass" then
    f <- this_filter this ;;
    updNode f (with_type "bandpass") ;;;
    f <- this_filter this ;;
    updNode f (with_frequency 500) ;;;
    f <- this_filter this ;;
    updNode f (with_Q 1)
  else if Profile.prop_is (Profile.filter cfg) "highpass" then
    f <- this_filter this ;;
    updNode f (with_type "highpass") ;;;
    f <- this_filter this ;;
    updNode f (with_frequency 800)
  else ret tt.

(** Lines 152-183: modulation of the filter's cutoff. *)
Definition start_cutoff_lfo (this : nat) (cfg : Profile.Config) : M unit :=
  if Profile.prop_is (Profile.modulation cfg) "ocean" then
    f <- this_filter this ;;
    updNode f (with_frequency 300) ;;;
    l <- createOscillator ;;
    setObj this (Obj.with_lfo (Some l)) ;;;
    l <- this_lfo this ;;
    updNode l (with_frequency 0.1) ;;;
    g <- createGain ;;
    setObj this (Obj.with_lfoGain (Some g)) ;;;
    g <- this_lfoGain this ;;
    updNode g (with_gain 300) ;;;
    l <- this_lfo this ;;
    g <- this_lfoGain this ;;
    connect l (ToNode g) ;;;
    g <- this_lfoGain this ;;
    f <- this_filter this ;;
    connect g (ToParam f "frequency") ;;;
    l <- this_lfo this ;;
    startNode l
  else if Profile.prop_is (Profile.modulation cfg) "flicker" then
    l <- createOscillator ;;
    setObj this (Obj.with_lfo (Some l)) ;;;
    l <- this_lfo this ;;
    updNode l (with_frequency 15) ;;;
    g <- createGain ;;
    setObj this (Obj.with_lfoGain (Some g)) ;;;
    g <- this_lfoGain this ;;
    updNode g (with_gain 100) ;;;
    l <- this_lfo this ;;
    g <- this_lfoGain this ;;
    connect l (ToNode g) ;;;
    g <- this_lfoGain this ;;
    f <- this_filter this ;;
    connect g (ToParam f "frequency") ;;;
    l <- this_lfo this ;;
    startNode l
  else if Profile.prop_is (Profile.modulation cfg) "rhythm" then
    l <- createOscillator ;;
    setObj this (Obj.with_lfo (Some l)) ;;;
    l <- this_lfo this ;;
    updNode l (with_type "sawtooth") ;;;
    l <- this_lfo this ;;
    updNode l (with_frequency 4) ;;;
    g <- createGain ;;
    setObj this (Obj.with_lfoGain (Some g)) ;;;
    g <- this_lfoGain this ;;
    updNode g (with_gain 200) ;;;
    l <- this_lfo this ;;
    g <- this_lfoGain this ;;
    connect l (ToNode g) ;;;
    g <- this_lfoGain this ;;
    f <- this_filter this ;;
    connect g (ToParam f "frequency") ;;;
    l <- this_lfo this ;;
    startNode l
  else ret tt.

(** [config.modulation === 'pulse' && config.type === 'oscillator'] *)
Definition is_pulse (cfg : Profile.Config) : bool :=
  Profile.prop_is (Profile.modulation cfg) "pulse"
  && (Profile.type cfg =? "oscillator")%string.

(** Lines 135-213: the filter chain; the result is [outputNode]. *)
Definition start_chain (this : nat) (cfg : Profile.Config)
  : M (option nat) :=
  if Profile.truthy (Profile.filter cfg) then
    f <- createBiquadFilter ;;
    setObj this (Obj.with_filter (Some f)) ;;;
    start_filter_kind this cfg ;;;
    start_cutoff_lfo this cfg ;;;
    (if is_pulse cfg then
       amGain <- createGain ;;
       s <- this_source this ;;
       connect s (ToNode amGain) ;;;
       l <- createOscillator ;;
       setObj this (Obj.with_lfo (Some l)) ;;;
       l <- this_lfo this ;;
       updNode l (with_type "square") ;;;
       l <- this_lfo this ;;
       updNode l (with_frequency 4) ;;;
       l <- this_lfo this ;;
       connect l (ToParam amGain "gain") ;;;
       l <- this_lfo this ;;
       startNode l ;;;
       f <- this_filter this ;;
       connect amGain (ToNode f)
     else
       s <- this_source this ;;
       f <- this_filter this ;;
       connect s (ToNode f)) ;;;
    o <- getObj this ;;
    ret (Obj.filter o)
  else
    if is_pulse cfg then
      amGain <- createGain ;;
      s <- this_source this ;;
      connect s (ToNode amGain) ;;;
      l <- createOscillator ;;
      setObj this (Obj.with_lfo (Some l)) ;;;
      l <- this_lfo this ;;
      updNode l (with_type "square") ;;;
      l <- this_lfo this ;;
      updNode l (with_frequency 4) ;;;
      l <- this_lfo this ;;
      connect l (ToParam amGain "gain") ;;;
      l <- this_lfo this ;;
      startNode l ;;;
      ret (Some amGain)
    else
      o <- getObj this ;;
      ret (Obj.source o).

(** Lines 215-218: into the node's gain, into the mix bus, and go. *)
Definition start_finish (this : nat) (outputNode : option nat) : M unit :=
  out <- deref outputNode ;;
  g <- this_gainNode this ;;
  connect out (ToNode g) ;;;
  g <- this_gainNode this ;;
  a <- (x <- gets analyser ;; deref x) ;;
  connect g (ToNode a) ;;;
  s <- this_source this ;;
  startNode s ;;;
  setObj this (Obj.with_isPlaying true).

Definition start (this : nat) : M unit :=
  o <- getObj this ;;
  if Obj.isPlaying o then ret tt
  else
    start_source this (Obj.config o) ;;;
    outputNode <- start_chain this (Obj.config o) ;;
    start_finish this outputNode.

(** The closure that [stop] hands to [setTimeout]. *)
Definition teardown (this : nat) : M unit :=
  o <- getObj this ;;
  (if bool_decide (is_Some (Obj.source o)) then
     try_ (s <- this_source this ;; stopNode s) ;;;
     s <- this_source this ;;
     disconnect s
   else ret tt) ;;;
  o <- getObj this ;;
  (if bool_decide (is_Some (Obj.lfo o)) then
     try_ (l <- this_lfo this ;; stopNode l) ;;;
     l <- this_lfo this ;;
     disconnect l
   else ret tt) ;;;
  setObj this (Obj.with_isPlaying false).

Definition stop (this : nat) : M unit :=
  o <- getObj this ;;
  if negb (Obj.isPlaying o) then ret tt
  else
    t <- currentTime ;;
    let stopTime := t + 0.1 in
    g <- this_gainNode this ;;
    t <- currentTime ;;
    setTargetAtTime g 0 t 0.05 ;;;
    setTimeout (Teardown this) 150.

Definition setVolume (this : nat) (val : Q) : M unit :=
  g <- this_gainNode this ;;
  t <- currentTime ;;
  setTargetAtTime g val t 0.1.

End SoundNode.

(** ** The page: cards, sliders, timers *)

Module UI.
Import Audio Engine.
Local Open Scope js_scope.

(** [activeSounds[id]] when it is truthy. *)
Definition activeSound (id : string) (w : World) : option nat :=
  match activeSounds w !! id with
  | Some (Some this) => Some this
  | _ => None
  end.

(** [activeSounds[sound.id].m(...)]: the receiver of a method call. *)
Definition receiver (id : string) : M nat :=
  r <- gets (activeSound id) ;; deref r.

(** [slider.value]: the markup's [value="0.5"] until the slider is moved. *)
Definition sliderValue (id : string) (w : World) : Q :=
  default 0.5 (sliders w !! id).

(** [card.classList.toggle('active')] *)
Definition toggleActive (id : string) : M unit :=
  modify (fun w =>
    if bool_decide (id ∈ activeCards w)
    then set_activeCards (activeCards w ∖ {[id]}) w
    else set_activeCards (activeCards w ∪ {[id]}) w).

(** The [click] listener of the card of [sound]. *)
Definition click (sound : Profile.Config) : M unit :=
  let id := Profile.id sound in
  initAudio ;;;
  toggleActive id ;;;
  r <- gets (activeSound id) ;;
  (if bool_decide (r = None) then
     this <- SoundNode.new sound ;;
     modify (fun w => set_activeSounds (<[id := Some this]> (activeSounds w)) w)
   else ret tt) ;;;
  active <- gets (fun w => bool_decide (id ∈ activeCards w)) ;;
  if active then
    this <- receiver id ;;
    SoundNode.start this ;;;
    this <- receiver id ;;
    v <- gets (sliderValue id) ;;
    SoundNode.setVolume this v
  else
    this <- receiver id ;;
    SoundNode.stop this ;;;
    setTimeout (Cleanup id) 200.

(** The [input] listener of the slider of [sound], after the browser has
    stored the new value [v] in [slider.value]. *)
Definition input (sound : Profile.Config) (v : Q) : M unit :=
  let id := Profile.id sound in
  modify (fun w => set_sliders (<[id := v]> (sliders w)) w) ;;;
  r <- gets (activeSound id) ;;
  match r with
  | Some this => v <- gets (sliderValue id) ;; SoundNode.setVolume this v
  | None => ret tt
  end.

(** The clean-up closure of the click handler. *)
Definition cleanup (id : string) : M unit :=
  modify (fun w =>
    if bool_decide (id ∈ activeCards w) then w
    else set_activeSounds (<[id := None]> (activeSounds w)) w).

Definition callback (cb : Callback) : M unit :=
  match cb with
  | Teardown this => SoundNode.teardown this
  | Cleanup id => cleanup id
  end.

(** An event handler runs to its end or to an uncaught exception; either
    way the page goes on with the state it left. *)
Definition run {A} (m : M A) (w : World) : World := (m w).2.

(** One millisecond passes: the callbacks that are due run in the order
    in which they were registered. *)
Definition tick (w : World) : World :=
  let t := S (now w) in
  let due := filter (fun e => e.1 ≤ t) (timers w) in
  let rest := filter (fun e => ¬ e.1 ≤ t) (timers w) in
  foldl (fun w e => run (callback e.2) w) (set_timers rest (set_now t w)) due.

Fixpoint advance (ms : nat) (w : World) : World :=
  match ms with
  | O => w
  | S k => advance k (tick w)
  end.

(** The page after [DOMContentLoaded]: cards drawn, no audio yet. *)
Definition boot (sampleRate : nat) (initial : CtxState) (rnd : nat -> Q)
  : World :=
  mkWorld sampleRate initial rnd 0 0 None None [] [] [] ∅ ∅ ∅ [].

(** *** Observations *)

(** [reach es k a b]: [b] can be reached from [a] along at most [k]
    node-to-node connections of [es]. *)
Fixpoint reach (es : list (nat * Dest)) (k : nat) (a b : nat) : bool :=
  if (a =? b)%nat then true
  else
    match k with
    | O => false
    | S k' =>
        existsb (fun e =>
                   if (e.1 =? a)%nat then
                     match e.2 with
                     | ToNode c => reach es k' c b
                     | ToParam _ _ => false
                     end
                   else false) es
    end.

(** Node [a] feeds the mix bus. *)
Definition attached (w : World) (a : nat) : bool :=
  match analyser w with
  | Some bus => reach (edges w) (length (nodes w)) a bus
  | None => false
  end.

(** Node [a] is a source that runs: started and not stopped. *)
Definition running (w : World) (a : nat) : bool :=
  match nodes w !! a with
  | Some n => schedulable n && started n && negb (stopped n)
  | None => false
  end.

(** Source [a] runs and feeds the mix bus through gain stage [g]. *)
Definition feeds (w : World) (a g : nat) : bool :=
  if running w a then
    if reach (edges w) (length (nodes w)) a g then attached w g else false
  else false.

(** The running sources that feed the mix bus through gain stage [g]. *)
Definition live_sources (w : World) (g : nat) : list nat :=
  filter (fun a => feeds w a g = true) (seq 0 (length (nodes w))).

(** The running oscillators that drive a parameter of some node, directly
    or through a coupling gain. *)
Definition drives_param (w : World) (a : nat) : bool :=
  existsb (fun e =>
             match e.2 with
             | ToParam _ _ => reach (edges w) (length (nodes w)) a e.1
             | ToNode _ => false
             end) (edges w).

Definition live_modulators (w : World) : list nat :=
  filter (fun a => (if running w a then drives_param w a else false) = true)
         (seq 0 (length (nodes w))).

(** The stages of the graph with a connection into the mix bus. *)
Definition bus_inputs (w : World) : list nat :=
  match analyser w with
  | Some bus => (filter (fun e => e.2 = ToNode bus) (edges w)).*1
  | None => []
  end.

(** The lifecycle of a [SoundNode] as the script encodes it: the flag
    [isPlaying] and a pending teardown. *)
Inductive Lifecycle := Idle | Starting | Playing | Stopping.

#[global] Instance Lifecycle_eq_dec : EqDecision Lifecycle.
Proof. solve_decision. Defined.

Definition lifecycle (w : World) (this : nat) : option Lifecycle :=
  match objs w !! this with
  | Some o =>
      if Obj.isPlaying o then
        if bool_decide (Exists (fun e => e.2 = Teardown this) (timers w))
        then Some Stopping else Some Playing
      else Some Idle
  | None => None
  end.

(** The running sources that feed the mix bus for profile [id], when a
    node exists for it. *)
Definition live_graphs (w : World) (id : string) : option (list nat) :=
  match activeSound id w with
  | Some this =>
      match objs w !! this with
      | Some o => Some (live_sources w (Obj.gainNode o))
      | None => None
      end
  | None => None
  end.

End UI.

(** ** Runs of the page *)

Module Scenario.
Import Audio Engine.

(** A click on the card of [cfg], a second click 10 ms later, a third
    click 10 ms after that, then 150 ms: the teardown of the second click
    has run. *)
Definition restart (cfg : Profile.Config) (w : World) : World :=
  UI.advance 150
    (UI.run (UI.click cfg)
       (UI.advance 10
          (UI.run (UI.click cfg)
             (UI.advance 10 (UI.run (UI.click cfg) w))))).

(** What is observed of [restart] on a freshly loaded page: one graph
    after the first click (but for the periodic profile), and at the end
    an active card and no running source attached to the mix bus. *)
Definition restart_lost (sr : nat) (st : CtxState) (rnd : nat -> Q)
    (cfg : Profile.Config) : bool :=
  let w1 := UI.run (UI.click cfg) (UI.boot sr st rnd) in
  let w := restart cfg (UI.boot sr st rnd) in
  bool_decide (Profile.type cfg <> "periodic" ->
               length <$> UI.live_graphs w1 (Profile.id cfg) = Some 1%nat)
  && bool_decide (Profile.id cfg ∈ activeCards w)
  && bool_decide (UI.live_graphs w (Profile.id cfg) = Some []).

(** A click on the card of [cfg], one second of sound, a second click,
    then 150 ms. *)
Definition play_then_stop (cfg : Profile.Config) (w : World) : World :=
  UI.advance 150
    (UI.run (UI.click cfg) (UI.advance 1000 (UI.run (UI.click cfg) w))).

(** What is observed of a first click on a freshly loaded page: the
    handler returns and the node plays, but for the periodic profile. *)
Definition first_click_plays (sr : nat) (st : CtxState) (rnd : nat -> Q)
    (cfg : Profile.Config) : bool :=
  let r := UI.click cfg (UI.boot sr st rnd) in
  bool_decide (Profile.type cfg <> "periodic" ->
               r.1 = inr tt /\ UI.lifecycle r.2 0 = Some UI.Playing).

(** The engine initialised and a node constructed for [cfg], not yet
    started. *)
Definition fresh (cfg : Profile.Config) (w : World) : World :=
  UI.run (SoundNode.new cfg) (UI.run initAudio w).

(** [start()], [stop()] and the 150 ms of the teardown, on node [this]. *)
Definition start_stop (this : nat) (w : World) : World :=
  UI.advance 150
    (UI.run (SoundNode.stop this) (UI.run (SoundNode.start this) w)).

(** A page at 44.1 kHz whose context starts suspended, with an oracle
    that cycles through sixteen values. *)
Definition rnd0 (k : nat) : Q := Z.of_nat (k mod 16) # 16.

Definition page : World :=
  UI.boot (441 * 100) Suspended rnd0.

(** An oracle for [createImpulseBuffer]: the draws for the position walk
    through sixty distinct values, every draw for the amplitude is 0.5. *)
Definition count_rnd (k : nat) : Q :=
  if Nat.even k then Z.of_nat (Nat.div2 k mod 60) # 60 else 1 # 2.

(** An impulse profile that leaves [rate] out. *)
Definition pops : Profile.Config :=
  Profile.entry "pops" "Pops" "*" "impulse".

End Scenario.

(** ** The pink-noise recurrence, written by index *)

Module Kellet.

Definition coefficients : list Q :=
  [0.99886; 0.99332; 0.96900; 0.86650; 0.55000; -0.7616].

Definition weights : list Q :=
  [0.0555179; 0.0750759; 0.1538520; 0.3104856; 0.5329522; -0.0168981].

(** One recursive filter with coefficient [c] and input weight [k],
    started from zero: its state after sample [i]. *)
Fixpoint filter_state (c k : Q) (w : nat -> Q) (i : nat) : Q :=
  match i with
  | O => c * 0 + k * w O
  | S j => c * filter_state c k w j + k * w (S j)
  end.

Definition six_states (w : nat -> Q) (i : nat) : list Q :=
  zip_with (fun c k => filter_state c k w i) coefficients weights.

Definition sum (l : list Q) : Q := foldr Qplus 0 l.

(** The sample the specification describes: six states and the direct
    term. *)
Definition spec_sample (w : nat -> Q) (i : nat) : Q :=
  (sum (six_states w i) + 0.5362 * w i) * 0.11.

(** The seventh, non-recursive term of the loop: the previous input. *)
Definition delayed_tap (w : nat -> Q) (i : nat) : Q :=
  match i with
  | O => 0
  | S j => 0.115926 * w j
  end.

Definition sample (w : nat -> Q) (i : nat) : Q :=
  (sum (six_states w i) + delayed_tap w i + 0.5362 * w i) * 0.11.

End Kellet.

(** ** Closed forms and invariants used by the proofs *)

Module Effects.
Import Audio Engine.

(** [preserves I m]: the computation [m] keeps [I], whether it returns or
    throws. *)
Definition preserves {A} (I : World -> Prop) (m : M A) : Prop :=
  forall w, I w -> I (m w).2.

(** The parts of the world that only [initAudio], [stop] and the page
    write. *)
Record same_page (w w' : World) : Prop := mkSamePage
  { sp_sampleRate : sampleRate w' = sampleRate w;
    sp_rnd : rnd w' = rnd w;
    sp_now : now w' = now w;
    sp_audioCtx : audioCtx w' = audioCtx w;
    sp_analyser : analyser w' = analyser w;
    sp_activeSounds : activeSounds w' = activeSounds w;
    sp_activeCards : activeCards w' = activeCards w;
    sp_sliders : sliders w' = sliders w;
    sp_timers : timers w' = timers w }.

(** [try { x.stop(); } catch (e) {}] on the node list: the node is marked
    stopped when it is a source that was started. *)
Definition stop_if_started (s : nat) (ns : list AudioNode)
  : list AudioNode :=
  match ns !! s with
  | Some n =>
      if schedulable n && started n then alter mark_stopped s ns else ns
  | None => ns
  end.

(** [if (x) { try { x.stop(); } catch (e) {} x.disconnect(); }] *)
Definition silence (x : option nat) (w : World) : World :=
  match x with
  | Some s =>
      set_edges (filter (fun e => e.1 ≠ s) (edges w))
                (set_nodes (stop_if_started s (nodes w)) w)
  | None => w
  end.

(** The world after the teardown closure of the node [o] at [this]. *)
Definition torn_down (this : nat) (o : Obj.SoundNode) (w : World) : World :=
  let w1 := silence (Obj.source o) w in
  let w2 := silence (Obj.lfo o) w1 in
  set_objs (alter (Obj.with_isPlaying false) this (objs w2)) w2.

(** The world after a [stop] that found the node playing. *)
Definition stopping (this : nat) (o : Obj.SoundNode) (w : World) : World :=
  set_timers (timers w ++ [((now w + 150)%nat, Teardown this)])
    (set_nodes
       (alter (push_event (0, inject_Z (Z.of_nat (now w)) / 1000, 0.05))
              (Obj.gainNode o) (nodes w)) w).

(** The node at [this] has gain stage [g], and neither its source nor its
    modulator is that gain stage; [n0] bounds the indices of the audio
    nodes that existed when the observation started. *)
Definition apart (this g n0 : nat) (w : World) : Prop :=
  (n0 <= length (nodes w))%nat /\
  exists o, objs w !! this = Some o /\ Obj.gainNode o = g /\
            Obj.source o <> Some g /\ Obj.lfo o <> Some g.

(** The source of the node at [this] carries buffer [b] and loops. *)
Definition source_buffer (this : nat) (b : list Q) (w : World) : Prop :=
  exists o s n, objs w !! this = Some o /\ Obj.source o = Some s /\
                nodes w !! s = Some n /\ kind n = BufferSource /\
                buffer n = Some b /\ loop n = true.

(** The node at [this] has a filter whose cutoff is driven by a started
    oscillator of waveform [wave] and frequency [rate] through a gain of
    [depth]; [base], when given, is the value of the cutoff itself. *)
Definition cutoff_wired (this : nat) (wave : string) (rate depth : Q)
    (base : option Q) (w : World) : Prop :=
  exists o f l g nf nl ng,
    objs w !! this = Some o
    /\ Obj.filter o = Some f /\ Obj.lfo o = Some l /\ Obj.lfoGain o = Some g
    /\ nodes w !! f = Some nf /\ kind nf = BiquadFilter
    /\ (forall b, base = Some b -> frequency nf == b)
    /\ nodes w !! l = Some nl /\ kind nl = Oscillator
    /\ ntype nl = wave /\ frequency nl == rate /\ started nl = true
    /\ nodes w !! g = Some ng /\ kind ng = Gain /\ gain ng == depth
    /\ (l, ToNode g) ∈ edges w
    /\ (g, ToParam f "frequency") ∈ edges w.

(** The engine's globals: their values are [c] and [a]. *)
Definition engine_is (c : option Context) (a : option nat) (w : World)
  : Prop :=
  audioCtx w = c /\ analyser w = a.

(** The context is [c] and the object at [this] exists. *)
Definition alive (this : nat) (c : Context) (w : World) : Prop :=
  audioCtx w = Some c /\ is_Some (objs w !! this).

(** An attribute write that a wired modulator survives. *)
Definition benign (fn : AudioNode -> AudioNode) : Prop :=
  forall n, kind (fn n) = kind n /\ ntype (fn n) = ntype n /\
            frequency (fn n) = frequency n /\ gain (fn n) = gain n /\
            (started n = true -> started (fn n) = true).

(** Node [a] has no outgoing connection. *)
Definition disconnected (w : World) (a : nat) : Prop :=
  forall d, (a, d) ∉ edges w.

End Effects.

(** ** Ranges of the generated samples *)

Module Range.
Import Generators.

(** Bounds that the seven terms of the pink-noise filter keep when the
    white input stays within [-1, 1]. *)
Definition pink_bounded (st : PinkState) : Prop :=
  Qabs (b0 st) <= 48.71 /\ Qabs (b1 st) <= 11.24 /\ Qabs (b2 st) <= 4.97 /\
  Qabs (b3 st) <= 2.33 /\ Qabs (b4 st) <= 1.19 /\ Qabs (b5 st) <= 0.071 /\
  Qabs (b6 st) <= 0.115926.

(** An oracle that always draws 15/16. *)
Definition loud (k : nat) : Q := 15 # 16.

End Range.

(** ** What [start] needs and what it leaves *)

Module Ready.
Import Audio Engine.

(** The synthesis types that [start] knows. *)
Definition known_types : list string :=
  ["noise"; "pink-noise"; "impulse"; "oscillator"].

(** The context is [c], the analyser [an]; the node at [this] is not
    playing and has gain stage [g], source [src] and filter [flt]. *)
Definition held (this : nat) (c : Context) (an : option nat) (g : nat)
    (src flt : option nat) (w : World) : Prop :=
  audioCtx w = Some c /\ analyser w = an
  /\ exists o, objs w !! this = Some o /\ Obj.gainNode o = g
               /\ Obj.source o = src /\ Obj.filter o = flt
               /\ Obj.isPlaying o = false.

(** Moreover the source, when there is one, is a source node that was
    never started nor stopped. *)
Definition poised (this : nat) (c : Context) (an : option nat) (g : nat)
    (src flt : option nat) (w : World) : Prop :=
  held this c an g src flt w
  /\ (forall s, src = Some s ->
        exists n, nodes w !! s = Some n /\ schedulable n = true
                  /\ started n = false /\ stopped n = false).

(** Node [b] is reached from node [a] along fewer connections than there
    are nodes. *)
Definition linked (w : World) (a b : nat) : Prop :=
  exists k, (k < length (nodes w))%nat /\ UI.reach (edges w) k a b = true.

End Ready.

(** ** Sessions: what the user does to the page *)

Module Session.
Import Audio Engine.

(** A click on a card, a move of a slider, or time that passes. *)
Inductive Event :=
  | Click (sound : Profile.Config)
  | Input (sound : Profile.Config) (v : Q)
  | Wait (ms : nat).

Definition handle (e : Event) (w : World) : World :=
  match e with
  | Click sound => UI.run (UI.click sound) w
  | Input sound v => UI.run (UI.input sound v) w
  | Wait ms => UI.advance ms w
  end.

Definition play (es : list Event) (w : World) : World :=
  foldl (fun w e => handle e w) w es.

(** The context is [c] and runs, the analyser is [an], and the connection
    [e] leaves an existing node that no [SoundNode] holds as its source
    or as its modulator. *)
Definition permanent (c : Context) (an : option nat) (e : nat * Dest)
    (w : World) : Prop :=
  audioCtx w = Some c /\ state c = Running /\ analyser w = an
  /\ (e.1 < length (nodes w))%nat
  /\ e ∈ edges w
  /\ forall this o, objs w !! this = Some o ->
       Obj.source o <> Some e.1 /\ Obj.lfo o <> Some e.1.

#[global] Instance CtxState_eq_dec : EqDecision CtxState.
Proof. solve_decision. Defined.

#[global] Instance Context_eq_dec : EqDecision Context.
Proof. solve_decision. Defined.

(** [permanent], as a test. *)
Definition permanentb (c : Context) (an : option nat) (e : nat * Dest)
    (w : World) : bool :=
  bool_decide (audioCtx w = Some c)
  && bool_decide (state c = Running)
  && bool_decide (analyser w = an)
  && (e.1 <? length (nodes w))%nat
  && bool_decide (e ∈ edges w)
  && forallb (fun o => negb (bool_decide (Obj.source o = Some e.1))
                       && negb (bool_decide (Obj.lfo o = Some e.1)))
             (objs w).

(** After a first click on the card of [cfg], the connection of the new
    node's gain stage (node 2) into the analyser (node 1) is permanent,
    but for the periodic profile. *)
Definition first_gain_permanent (sr : nat) (st : CtxState) (rnd : nat -> Q)
    (cfg : Profile.Config) : bool :=
  implb (negb (Profile.type cfg =? "periodic")%string)
        (permanentb (mkContext Running 0) (Some 1%nat) (2%nat, ToNode 1)
           (UI.run (UI.click cfg) (UI.boot sr st rnd))).

(** There are at least [n0] audio nodes and [m0] objects, and the object
    at [this] has profile [cfg] and gain stage [g]. *)
Definition grown (n0 m0 this : nat) (cfg : Profile.Config) (g : nat)
    (w : World) : Prop :=
  (n0 <= length (nodes w))%nat /\ (m0 <= length (objs w))%nat
  /\ exists o, objs w !! this = Some o /\ Obj.config o = cfg
               /\ Obj.gainNode o = g.

(** The events of [evs] concern cards of the table. *)
Definition on_table (evs : list Event) : Prop :=
  Forall (fun ev => match ev with
                    | Click sound | Input sound _ => sound ∈ Profile.sounds
                    | Wait _ => True
                    end) evs.

(** Every entry of [activeSounds] refers to a [SoundNode] that was built
    for the table's profile of that id. *)
Definition registered (w : World) : Prop :=
  forall id this, UI.activeSound id w = Some this ->
    exists o, objs w !! this = Some o
              /\ Obj.config o ∈ Profile.sounds
              /\ Profile.id (Obj.config o) = id.

(** The page before the first click: no engine, no node, nothing
    scheduled. *)
Definition dormant (w : World) : Prop :=
  audioCtx w = None /\ analyser w = None /\ nodes w = [] /\ edges w = []
  /\ objs w = [] /\ activeSounds w = ∅ /\ timers w = []
  /\ activeCards w = ∅.

(** The page after the first click. *)
Definition sane (w : World) : Prop :=
  audioCtx w = Some (mkContext Running 0) /\ analyser w = Some 1%nat
  /\ registered w.

End Session.

(** ** More runs of the page *)

Module Runs.
Import Audio Engine.

(** The profiles of the table that [start] can play. *)
Definition playable : list Profile.Config :=
  filter (fun cfg => Profile.type cfg <> "periodic") Profile.sounds.

(** A click on the card of [a], a click on the card of [b], a second
    click on the card of [a], then 150 ms. *)
Definition duo (a b : Profile.Config) (w : World) : World :=
  UI.run (UI.click b) (UI.run (UI.click a) w).

Definition duo_then_off (a b : Profile.Config) (w : World) : World :=
  UI.advance 150 (UI.run (UI.click a) (duo a b w)).

(** What is observed of the two runs when [a] and [b] differ: both play
    side by side, and switching [a] off leaves [b] playing. *)
Definition side_by_side (sr : nat) (st : CtxState) (rnd : nat -> Q)
    (ab : Profile.Config * Profile.Config) : bool :=
  let a := ab.1 in
  let b := ab.2 in
  if bool_decide (Profile.id a = Profile.id b) then true
  else
    let w2 := duo a b (UI.boot sr st rnd) in
    let w3 := duo_then_off a b (UI.boot sr st rnd) in
    bool_decide ((length <$> UI.live_graphs w2 (Profile.id a)) = Some 1%nat)
    && bool_decide ((length <$> UI.live_graphs w2 (Profile.id b)) = Some 1%nat)
    && bool_decide (UI.live_graphs w3 (Profile.id a) = Some [])
    && bool_decide (UI.live_graphs w3 (Profile.id b)
                    = UI.live_graphs w2 (Profile.id b))
    && bool_decide (UI.lifecycle w3 0 = Some UI.Idle)
    && bool_decide (UI.lifecycle w3 1 = Some UI.Playing).

(** A click on the card of [cfg], a second click at once, then 200 ms:
    the teardown and the clean-up have run. *)
Definition cycle (cfg : Profile.Config) (w : World) : World :=
  UI.advance 200 (UI.run (UI.click cfg) (UI.run (UI.click cfg) w)).

(** What is observed after a cycle on a freshly loaded page, and after
    one more click [k] ms later. *)
Definition forgotten (sr : nat) (st : CtxState) (rnd : nat -> Q) (k : nat)
    (cfg : Profile.Config) : bool :=
  let w := cycle cfg (UI.boot sr st rnd) in
  let w' := UI.run (UI.click cfg) (set_now (now w + k) w) in
  bool_decide (UI.activeSound (Profile.id cfg) w = None)
  && bool_decide (Profile.id cfg ∉ activeCards w)
  && bool_decide (UI.lifecycle w 0 = Some UI.Idle)
  && bool_decide (UI.live_sources w 2 = [])
  && bool_decide (timers w = [])
  && bool_decide (Profile.type cfg <> "periodic" -> UI.bus_inputs w = [2%nat])
  && bool_decide (UI.activeSound (Profile.id cfg) w' = Some 1%nat)
  && bool_decide (Profile.type cfg <> "periodic" ->
                  (length <$> UI.live_graphs w' (Profile.id cfg)) = Some 1%nat)
  && bool_decide (Profile.type cfg <> "periodic" ->
                  length (UI.bus_inputs w') = 2%nat).

End Runs.

(** ** [setupVisualizer]: the canvas behind the cards *)

Module Visualizer.
Import Audio Engine.

(** [Math.cos], [Math.sin] and [Math.PI] are parameters of the model, as
    [Math.random] is. *)
Record Trig := mkTrig { cos : Q -> Q; sin : Q -> Q; PI : Q }.

(** What the script does to the 2d context: the methods it calls and the
    attributes it writes. *)
Inductive Call :=
  | ClearRect (x y w h : Q)
  | BeginPath
  | MoveTo (x y : Q)
  | LineTo (x y : Q)
  | ClosePath
  | Stroke
  | SetStrokeStyle (v : string)
  | SetLineWidth (v : Q)
  | SetShadowBlur (v : Q)
  | SetShadowColor (v : string).

(** The canvas: its size, the calls made on its context (oldest first)
    and the number of pending [requestAnimationFrame(draw)] requests. *)
Record Canvas := mkCanvas
  { width : nat;
    height : nat;
    calls : list Call;
    requests : nat }.

(** The canvas element as the document has it. *)
Definition blank : Canvas := mkCanvas 300 150 [] 0.

Definition call (x : Call) (c : Canvas) : Canvas :=
  mkCanvas (width c) (height c) (calls c ++ [x]) (requests c).

Definition requestAnimationFrame (c : Canvas) : Canvas :=
  mkCanvas (width c) (height c) (calls c) (S (requests c)).

(** [resize]: the canvas takes the size of the window. *)
Definition resize (innerWidth innerHeight : nat) (c : Canvas) : Canvas :=
  mkCanvas innerWidth innerHeight (calls c) (requests c).

Definition num (n : nat) : Q := inject_Z (Z.of_nat n).

(** [Math.min] on two numbers. *)
Definition min (a b : Q) : Q := if Qle_bool a b then a else b.

(** [analyser.frequencyBinCount]: half the FFT size. *)
Definition frequencyBinCount (w : World) (a : nat) : nat :=
  match nodes w !! a with
  | Some n => (fftSize n / 2)%nat
  | None => 0%nat
  end.

(** [new Uint8Array(n)] after [getByteFrequencyData]: the engine's
    [spectrum] copied into [n] bytes that start as zero. *)
Definition byteFrequencyData (spectrum : list Byte.byte) (n : nat)
  : list Z :=
  map (fun b => Z.of_N (Byte.to_N b))
      (take n (spectrum ++ replicate n Byte.x00)).

(** The first [for] loop of [draw], from index [i], [k] rounds to go. *)
Fixpoint outer_loop (t : Trig) (centerX centerY baseRadius : Q)
    (dataArray : list Z) (bufferLength k i : nat) (c : Canvas) : Canvas :=
  match k with
  | O => c
  | S k' =>
      let value := default 0%Z (dataArray !! i) in
      let barHeight := (inject_Z value / 255) ^ 2 * 150 in
      let rad := (num i / num bufferLength) * 2 * PI t in
      let x := centerX + cos t rad * (baseRadius + barHeight) in
      let y := centerY + sin t rad * (baseRadius + barHeight) in
      outer_loop t centerX centerY baseRadius dataArray bufferLength k'
        (S i)
        (if (i =? 0)%nat then call (MoveTo x y) c else call (LineTo x y) c)
  end.

(** The second [for] loop of [draw]. *)
Fixpoint inner_loop (t : Trig) (centerX centerY baseRadius : Q)
    (dataArray : list Z) (bufferLength k i : nat) (c : Canvas) : Canvas :=
  match k with
  | O => c
  | S k' =>
      let value := default 0%Z (dataArray !! i) in
      let barHeight := (inject_Z value / 255) ^ 2 * 100 in
      let rad := (num i / num bufferLength) * 2 * PI t in
      let x := centerX + cos t rad * (baseRadius - barHeight) in
      let y := centerY + sin t rad * (baseRadius - barHeight) in
      inner_loop t centerX centerY baseRadius dataArray bufferLength k'
        (S i)
        (if (i =? 0)%nat then call (MoveTo x y) c else call (LineTo x y) c)
  end.

(** [draw]: one frame.  [spectrum] is what the analyser reports when the
    frame is drawn. *)
Definition draw (t : Trig) (w : World) (spectrum : list Byte.byte)
    (c : Canvas) : Canvas :=
  let c := requestAnimationFrame c in
  let c := call (ClearRect 0 0 (num (width c)) (num (height c))) c in
  match analyser w with
  | None => c
  | Some a =>
      let bufferLength := frequencyBinCount w a in
      let dataArray := byteFrequencyData spectrum bufferLength in
      let centerX := num (width c) / 2 in
      let centerY := num (height c) / 2 in
      let baseRadius := min centerX centerY * 0.4 in
      let c := call BeginPath c in
      let c := outer_loop t centerX centerY baseRadius dataArray
                 bufferLength bufferLength 0 c in
      let c := call ClosePath c in
      let c := call (SetStrokeStyle "#00ffcc") c in
      let c := call (SetLineWidth 3) c in
      let c := call (SetShadowBlur 15) c in
      let c := call (SetShadowColor "#00ffcc") c in
      let c := call Stroke c in
      let c := call BeginPath c in
      let c := inner_loop t centerX centerY baseRadius dataArray
                 bufferLength bufferLength 0 c in
      let c := call ClosePath c in
      let c := call (SetStrokeStyle "rgba(255, 0, 255, 0.8)") c in
      let c := call (SetLineWidth 2) c in
      let c := call (SetShadowBlur 10) c in
      let c := call (SetShadowColor "#ff00ff") c in
      let c := call Stroke c in
      call (SetShadowBlur 0) c
  end.

(** [setupVisualizer]: the canvas is sized to the window and the first
    frame is drawn. *)
Definition setupVisualizer (t : Trig) (w : World)
    (innerWidth innerHeight : nat) (spectrum : list Byte.byte) : Canvas :=
  draw t w spectrum (resize innerWidth innerHeight blank).

(** The browser runs a requested frame: the request is consumed and
    [draw] is called. *)
Definition frame (t : Trig) (w : World) (spectrum : list Byte.byte)
    (c : Canvas) : Canvas :=
  match requests c with
  | O => c
  | S r => draw t w spectrum (mkCanvas (width c) (height c) (calls c) r)
  end.

(** *** The page with its canvas *)

Inductive Event :=
  | Page (e : Session.Event)
  | Frame (spectrum : list Byte.byte)
  | Resize (innerWidth innerHeight : nat).

Definition handle (t : Trig) (e : Event) (s : World * Canvas)
  : World * Canvas :=
  match e with
  | Page e => (Session.handle e s.1, s.2)
  | Frame spectrum => (s.1, frame t s.1 spectrum s.2)
  | Resize innerWidth innerHeight =>
      (s.1, resize innerWidth innerHeight s.2)
  end.

Definition play (t : Trig) (es : list Event) (s : World * Canvas)
  : World * Canvas :=
  foldl (fun s e => handle t e s) s es.

(** The page after [DOMContentLoaded], in a window of the given size. *)
Definition load (t : Trig) (sampleRate : nat) (initial : CtxState)
    (rnd : nat -> Q) (innerWidth innerHeight : nat) : World * Canvas :=
  let w := UI.boot sampleRate initial rnd in
  (w, setupVisualizer t w innerWidth innerHeight []).

(** *** The picture of a frame, in closed form *)

(** The vertex of angle [i / n] of a turn at distance [radius] from the
    centre. *)
Definition vertex (t : Trig) (centerX centerY : Q) (n i : nat)
    (radius : Q) : Q * Q :=
  let rad := (num i / num n) * 2 * PI t in
  (centerX + cos t rad * radius, centerY + sin t rad * radius).

Definition level (dataArray : list Z) (i : nat) : Q :=
  (inject_Z (default 0%Z (dataArray !! i)) / 255) ^ 2.

Definition outer_radius (baseRadius : Q) (dataArray : list Z) (i : nat)
  : Q := baseRadius + level dataArray i * 150.

Definition inner_radius (baseRadius : Q) (dataArray : list Z) (i : nat)
  : Q := baseRadius - level dataArray i * 100.

(** A path through the vertices [i, i+1, ...] : [moveTo] for vertex 0,
    [lineTo] for the others. *)
Definition path (t : Trig) (centerX centerY : Q) (n : nat)
    (radius : nat -> Q) (i k : nat) : list Call :=
  map (fun j => let p := vertex t centerX centerY n j (radius j) in
                if (j =? 0)%nat then MoveTo p.1 p.2 else LineTo p.1 p.2)
      (seq i k).

Definition baseRadius (c : Canvas) : Q :=
  min (num (width c) / 2) (num (height c) / 2) * 0.4.

(** The calls of a frame that finds an analyser with [n] bins. *)
Definition rings (t : Trig) (c : Canvas) (n : nat) (dataArray : list Z)
  : list Call :=
  let centerX := num (width c) / 2 in
  let centerY := num (height c) / 2 in
  [ClearRect 0 0 (num (width c)) (num (height c)); BeginPath]
  ++ path t centerX centerY n (outer_radius (baseRadius c) dataArray) 0 n
  ++ [ClosePath; SetStrokeStyle "#00ffcc"; SetLineWidth 3;
      SetShadowBlur 15; SetShadowColor "#00ffcc"; Stroke; BeginPath]
  ++ path t centerX centerY n (inner_radius (baseRadius c) dataArray) 0 n
  ++ [ClosePath; SetStrokeStyle "rgba(255, 0, 255, 0.8)"; SetLineWidth 2;
      SetShadowBlur 10; SetShadowColor "#ff00ff"; Stroke; SetShadowBlur 0].

(** The context runs, the analyser is node [a], and it has [2 * n]
    FFT points. *)
Definition tuned (c : Context) (a n : nat) (w : World) : Prop :=
  audioCtx w = Some c /\ state c = Running /\ analyser w = Some a
  /\ exists x, nodes w !! a = Some x /\ fftSize x = (2 * n)%nat.

(** Some event of the session is a click on a card. *)
Definition clicked (es : list Event) : bool :=
  existsb (fun e => match e with
                    | Page (Session.Click _) => true
                    | _ => false
                    end) es.

(** A coarse stand-in for [Math.cos] and [Math.sin]: the first terms of
    their series, kept within [-1, 1]. *)
Definition clamp (q : Q) : Q :=
  if Qle_bool q (-1) then -1 else if Qle_bool 1 q then 1 else q.

Definition coarse_trig : Trig :=
  mkTrig (fun x => clamp (1 - x * x / 2))
         (fun x => clamp (x - x * x * x / 6))
         (355 # 113).

End Visualizer.

(** ** After [stop]: the wait for the teardown *)

Module Settle.
Import Audio Engine Effects.

(** [keeps_exn I m]: when [m] throws it leaves a state where [I] holds. *)
Definition keeps_exn {A} (I : World -> Prop) (m : M A) : Prop :=
  forall w, I w -> match m w with
                   | (inl _, w') => I w'
                   | (inr _, _) => True
                   end.

(** Node [x] is the source or the modulator of some [SoundNode]. *)
Definition sourced (w : World) (x : nat) : bool :=
  existsb (fun o => bool_decide (Obj.source o = Some x)
                    || bool_decide (Obj.lfo o = Some x))
          (objs w).

(** The node at [this] exists and is not playing. *)
Definition idle (this : nat) (w : World) : Prop :=
  exists o, objs w !! this = Some o /\ Obj.isPlaying o = false.

(** The node at [this] is at rest: it is not playing, and its source and
    its modulator neither run nor have an outgoing connection. *)
Definition settled (this : nat) (w : World) : Prop :=
  exists o, objs w !! this = Some o /\ Obj.isPlaying o = false
    /\ forall x, Obj.source o = Some x \/ Obj.lfo o = Some x ->
         UI.running w x = false /\ disconnected w x.

(** Since the state [w1]: the objects are as they were but for
    [isPlaying], the analyser is the same, and every connection of [w1]
    that leaves neither a source nor a modulator is still there. *)
Definition waiting (w1 w : World) : Prop :=
  Obj.with_isPlaying false <$> objs w = Obj.with_isPlaying false <$> objs w1
  /\ analyser w = analyser w1
  /\ forall e, e ∈ edges w1 -> sourced w1 e.1 = false -> e ∈ edges w.

End Settle.


(** * Facts about [Float32Array] stores *)

Module RoundFacts.
Import Generators.

Lemma rne_bounds q : (Qfloor q <= rne q <= Qfloor q + 1)%Z.
Proof.
  unfold rne. cbv zeta.
  destruct (Qcompare _ _); [destruct (Z.even _)| |]; lia.
Qed.

Lemma rne_Z z : rne (inject_Z z) = z.
Proof.
  unfold rne. cbv zeta. rewrite Qfloor_Z.
  assert (E : inject_Z z - inject_Z z == 0) by ring.
  rewrite E. reflexivity.
Qed.

Lemma rne_mono q1 q2 : q1 <= q2 -> (rne q1 <= rne q2)%Z.
Proof.
  intros H. pose proof (Qfloor_resp_le _ _ H) as Hf.
  pose proof (rne_bounds q1) as B1. pose proof (rne_bounds q2) as B2.
  destruct (Z.eq_dec (Qfloor q1) (Qfloor q2)) as [E|E]; [|lia].
  unfold rne in *. cbv zeta in *. rewrite <- E in *.
  set (f := Qfloor q1) in *.
  destruct (Qcompare (q1 - inject_Z f) (1 # 2)) eqn:C1;
    destruct (Qcompare (q2 - inject_Z f) (1 # 2)) eqn:C2;
    try lia; exfalso.
  all: repeat match goal with
       | H : Qcompare _ _ = Eq |- _ => apply Qeq_alt in H
       | H : Qcompare _ _ = Lt |- _ => apply Qlt_alt in H
       | H : Qcompare _ _ = Gt |- _ => apply Qgt_alt in H
       end; lra.
Qed.

Lemma rne_le q b : q <= inject_Z b -> (rne q <= b)%Z.
Proof. intros H. rewrite <- (rne_Z b). by apply rne_mono. Qed.

Lemma rne_ge q b : inject_Z b <= q -> (b <= rne q)%Z.
Proof. intros H. rewrite <- (rne_Z b). by apply rne_mono. Qed.

Lemma pow2_pos s : (0 <= s)%Z -> 0 < inject_Z (2 ^ s).
Proof.
  intros H. change 0 with (inject_Z 0). rewrite <- Zlt_Qlt.
  by apply Z.pow_pos_nonneg.
Qed.

Lemma div_pow_le t a s :
  (0 <= s)%Z -> t <= inject_Z (a * 2 ^ s) -> t / inject_Z (2 ^ s) <= inject_Z a.
Proof.
  intros Hs H. apply Qle_shift_div_r; [by apply pow2_pos|].
  by rewrite <- inject_Z_mult.
Qed.

Lemma div_pow_ge t a s :
  (0 <= s)%Z -> inject_Z (a * 2 ^ s) <= t -> inject_Z a <= t / inject_Z (2 ^ s).
Proof.
  intros Hs H. apply Qle_shift_div_l; [by apply pow2_pos|].
  by rewrite <- inject_Z_mult.
Qed.

Lemma shift_nonneg t : (0 <= shift t)%Z.
Proof. unfold shift. lia. Qed.

Lemma shift_mono t1 t2 : t1 <= t2 -> (shift t1 <= shift t2)%Z.
Proof.
  intros H. unfold shift.
  pose proof (Z.log2_le_mono _ _ (Qfloor_resp_le _ _ H)). lia.
Qed.

Lemma round24_nonneg t : 0 <= t -> (0 <= round24 t)%Z.
Proof.
  intros H. unfold round24.
  apply Z.mul_nonneg_nonneg; [|apply Z.pow_nonneg; lia].
  apply rne_ge. apply Qle_shift_div_l; [apply pow2_pos; unfold shift; lia|].
  change (inject_Z 0) with 0. by rewrite Qmult_0_l.
Qed.

(** Below a power of two the rounded value does not pass it. *)
Lemma round24_upper t :
  (round24 t <= 2 ^ (Z.log2 (Qfloor t) + 1))%Z.
Proof.
  unfold round24. set (k := Z.log2 (Qfloor t)). set (s := shift t).
  assert (Hk : (0 <= k)%Z) by apply Z.log2_nonneg.
  assert (Hs : (0 <= s <= k)%Z) by (unfold s, shift; fold k; lia).
  assert (Hf : (Qfloor t + 1 <= 2 ^ (k + 1))%Z).
  { destruct (Z_lt_le_dec 0 (Qfloor t)) as [H|H].
    - pose proof (Z.log2_spec _ H) as [_ H2]. fold k in H2.
      replace (k + 1)%Z with (Z.succ k) by lia. lia.
    - assert (0 < 2 ^ (k + 1))%Z by (apply Z.pow_pos_nonneg; lia). lia. }
  assert (Ht : t <= inject_Z (2 ^ (k + 1))).
  { apply Qlt_le_weak. eapply Qlt_le_trans; [apply Qlt_floor|].
    rewrite <- Zle_Qle. exact Hf. }
  replace (2 ^ (k + 1))%Z with (2 ^ (k + 1 - s) * 2 ^ s)%Z in *
    by (rewrite <- Z.pow_add_r by lia; f_equal; lia).
  apply Z.mul_le_mono_nonneg_r; [apply Z.pow_nonneg; lia|].
  apply rne_le. apply div_pow_le; [lia|exact Ht].
Qed.

(** From a power of two on the rounded value stays above it. *)
Lemma round24_lower t :
  (0 < shift t)%Z -> (2 ^ Z.log2 (Qfloor t) <= round24 t)%Z.
Proof.
  unfold round24, shift. set (k := Z.log2 (Qfloor t)). intros Hs.
  replace (Z.max 0 (k - 23)) with (k - 23)%Z in * by lia.
  assert (Hpos : (0 < Qfloor t)%Z).
  { destruct (Z_lt_le_dec 0 (Qfloor t)) as [H|H]; [done|].
    pose proof (Z.log2_nonpos _ H). fold k in H0. lia. }
  pose proof (Z.log2_spec _ Hpos) as [H1 _]. fold k in H1.
  assert (Ht : inject_Z (2 ^ k) <= t).
  { eapply Qle_trans; [|apply Qfloor_le]. by rewrite <- Zle_Qle. }
  replace (2 ^ k)%Z with (2 ^ 23 * 2 ^ (k - 23))%Z in *
    by (rewrite <- Z.pow_add_r by lia; f_equal; lia).
  apply Z.mul_le_mono_nonneg_r; [apply Z.pow_nonneg; lia|].
  apply rne_ge. apply div_pow_ge; [lia|done].
Qed.

Lemma round24_mono t1 t2 : t1 <= t2 -> (round24 t1 <= round24 t2)%Z.
Proof.
  intros H. pose proof (shift_mono _ _ H) as Hs.
  destruct (Z.eq_dec (shift t1) (shift t2)) as [E|E].
  - unfold round24. rewrite E.
    apply Z.mul_le_mono_nonneg_r; [apply Z.pow_nonneg; lia|].
    apply rne_mono. apply Qmult_le_compat_r; [done|].
    apply Qinv_le_0_compat, Qlt_le_weak, pow2_pos, shift_nonneg.
  - pose proof (shift_nonneg t1) as H1.
    etransitivity; [apply round24_upper|].
    etransitivity; [|apply round24_lower; lia].
    apply Z.pow_le_mono_r; [lia|].
    unfold shift in *. lia.
Qed.

Lemma fround_mono q1 q2 : q1 <= q2 -> fround q1 <= fround q2.
Proof.
  intros H. unfold fround. cbv zeta.
  set (U := inject_Z (2 ^ 149)).
  assert (HU : 0 < U) by (by apply pow2_pos).
  assert (Hdiv : forall a b : Z, (a <= b)%Z -> inject_Z a / U <= inject_Z b / U).
  { intros a b Hab. apply Qmult_le_compat_r; [by rewrite <- Zle_Qle|].
    by apply Qinv_le_0_compat, Qlt_le_weak. }
  assert (Hpos : forall q, 0 <= inject_Z (round24 (Qabs q * U)) / U).
  { intros q. apply Qmult_le_0_compat;
      [|by apply Qinv_le_0_compat, Qlt_le_weak].
    change 0 with (inject_Z 0). rewrite <- Zle_Qle. apply round24_nonneg.
    apply Qmult_le_0_compat; [apply Qabs_nonneg|by apply Qlt_le_weak]. }
  destruct (Qle_bool 0 q1) eqn:E1; destruct (Qle_bool 0 q2) eqn:E2.
  - apply Qle_bool_iff in E1, E2. apply Hdiv, round24_mono.
    rewrite !Qabs_pos by done.
    apply Qmult_le_compat_r; [done|by apply Qlt_le_weak].
  - apply Qle_bool_iff in E1.
    assert (~ 0 <= q2) by (rewrite <- Qle_bool_iff; congruence). lra.
  - pose proof (Hpos q1). pose proof (Hpos q2). lra.
  - assert (~ 0 <= q1) by (rewrite <- Qle_bool_iff; congruence).
    assert (~ 0 <= q2) by (rewrite <- Qle_bool_iff; congruence).
    apply Qopp_le_compat, Hdiv, round24_mono.
    rewrite !Qabs_neg by lra.
    apply Qmult_le_compat_r; [lra|by apply Qlt_le_weak].
Qed.

(** A store of a value between two numbers that the array holds exactly
    stays between them. *)
Lemma fround_range lo hi q :
  fround lo == lo -> fround hi == hi -> lo <= q <= hi ->
  lo <= fround q <= hi.
Proof.
  intros Hlo Hhi [H1 H2]. split.
  - rewrite <- Hlo. by apply fround_mono.
  - rewrite <- Hhi. by apply fround_mono.
Qed.

Lemma fround_0 q : q == 0 -> fround q == 0.
Proof.
  intros H. apply Qle_antisym.
  - assert (E : fround 0 == 0) by reflexivity.
    rewrite <- E. apply fround_mono. lra.
  - assert (E : fround 0 == 0) by reflexivity.
    rewrite <- E. apply fround_mono. lra.
Qed.

Lemma fround_pop_peak : fround pop_peak == pop_peak.
Proof. apply Qeq_bool_iff. by vm_compute. Qed.

Lemma fround_opp_pop_peak : fround (- pop_peak) == - pop_peak.
Proof. apply Qeq_bool_iff. by vm_compute. Qed.

Lemma fround_one : fround 1 == 1.
Proof. apply Qeq_bool_iff. by vm_compute. Qed.

Lemma fround_opp_one : fround (-1) == -1.
Proof. apply Qeq_bool_iff. by vm_compute. Qed.

End RoundFacts.

(** * Facts about the signal generators *)

Module GeneratorFacts.

Import Generators.

(** *** Pink noise *)

Section Pink.
Variable rnd : nat -> Q.
Variable p : nat.

Local Abbreviation states := (pink_states rnd p).
Local Abbreviation out := (pink_out rnd p).

Lemma pink_loop_length k i q st data :
  length (pink_loop rnd k i q st data).1 = length data.
Proof.
  revert i q st data. induction k as [|k IH]; intros i q st data; [done|].
  cbn [pink_loop]. destruct (pink_body _ st) as [st' d].
  rewrite IH. apply length_insert.
Qed.

Lemma pink_loop_lookup k : forall i data j,
  length data = (i + k)%nat ->
  (forall j, (j < i)%nat -> data !! j = Some (out j)) ->
  (j < i + k)%nat ->
  (pink_loop rnd k i (p + i) (states i) data).1 !! j = Some (out j).
Proof.
  induction k as [|k IH]; intros i data j Hlen Hpre Hj.
  - cbn. apply Hpre. lia.
  - cbn [pink_loop].
    change (rnd (p + i)%nat * 2 - 1) with (white rnd p i).
    destruct (pink_body (white rnd p i) (states i)) as [st' d] eqn:E.
    replace (S (p + i)) with (p + S i)%nat by lia.
    replace st' with (states (S i)) by (cbn [pink_states]; by rewrite E).
    apply IH.
    + rewrite length_insert. lia.
    + intros j' Hj'. destruct (decide (j' = i)) as [->|Hne].
      * rewrite list_lookup_insert_eq by lia. unfold pink_out. by rewrite E.
      * rewrite list_lookup_insert_ne by done. apply Hpre. lia.
    + lia.
Qed.

Lemma createPinkNoiseBuffer_lookup sr j :
  (j < sr * 2)%nat ->
  (createPinkNoiseBuffer sr rnd p).1 !! j = Some (out j).
Proof.
  intros Hj. unfold createPinkNoiseBuffer.
  pose proof (pink_loop_lookup (sr * 2) 0 (createBuffer (sr * 2)) j) as H.
  rewrite Nat.add_0_r in H. apply H; [|intros; lia|lia].
  unfold createBuffer. by rewrite length_replicate.
Qed.

Lemma states_spec n :
  let st := states (S n) in
  let w := white rnd p in
  b0 st == Kellet.filter_state 0.99886 0.0555179 w n /\
  b1 st == Kellet.filter_state 0.99332 0.0750759 w n /\
  b2 st == Kellet.filter_state 0.96900 0.1538520 w n /\
  b3 st == Kellet.filter_state 0.86650 0.3104856 w n /\
  b4 st == Kellet.filter_state 0.55000 0.5329522 w n /\
  b5 st == Kellet.filter_state (-0.7616) (-0.0168981) w n /\
  b6 st == 0.115926 * w n.
Proof.
  induction n as [|n IH].
  - cbn. repeat split; ring.
  - destruct IH as (H0 & H1 & H2 & H3 & H4 & H5 & _).
    cbn [pink_states pink_body fst b0 b1 b2 b3 b4 b5 b6] in *.
    cbn [Kellet.filter_state].
    rewrite <- H0, <- H1, <- H2, <- H3, <- H4, <- H5.
    repeat split; ring.
Qed.

Lemma out_sample j : out j == Kellet.sample (white rnd p) j.
Proof.
  unfold pink_out, Kellet.sample, Kellet.six_states, Kellet.sum.
  destruct j as [|j].
  - cbn. ring.
  - destruct (states_spec j) as (H0 & H1 & H2 & H3 & H4 & H5 & H6).
    cbn [pink_body snd zip_with foldr Kellet.coefficients Kellet.weights
         Kellet.delayed_tap].
    cbn [Kellet.filter_state].
    rewrite <- H0, <- H1, <- H2, <- H3, <- H4, <- H5, <- H6.
    ring.
Qed.

End Pink.


Lemma trips_spec (T : Q) (n : nat) :
  (n < trips T)%nat <-> inject_Z (Z.of_nat n) < T.
Proof.
  unfold trips. split.
  - intros H.
    assert (Hz : (Z.of_nat n <= Qceiling T - 1)%Z) by lia.
    rewrite Zle_Qle in Hz.
    eapply Qle_lt_trans; [exact Hz | apply Qceiling_lt].
  - intros H.
    assert (Hz : (Z.of_nat n < Qceiling T)%Z).
    { rewrite Zlt_Qlt. eapply Qlt_le_trans; [exact H | apply Qle_ceiling]. }
    lia.
Qed.

Lemma trips_integer (T : Q) (n : nat) :
  T == inject_Z (Z.of_nat n) -> trips T = n.
Proof.
  intros H. unfold trips. rewrite H, Qceiling_Z. lia.
Qed.

Lemma nonzero_spec x : nonzero x = true <-> ~ x == 0.
Proof.
  unfold nonzero. rewrite negb_true_iff.
  split.
  - intros H E. apply Qeq_bool_iff in E. congruence.
  - intros H. destruct (Qeq_bool x 0) eqn:E; [|done].
    apply Qeq_bool_iff in E. done.
Qed.

Lemma count_nonzero_app l1 l2 :
  count_nonzero (l1 ++ l2) = (count_nonzero l1 + count_nonzero l2)%nat.
Proof. unfold count_nonzero. by rewrite filter_app, length_app. Qed.

Lemma count_nonzero_cons x l :
  count_nonzero (x :: l) = (bit (nonzero x) + count_nonzero l)%nat.
Proof.
  unfold count_nonzero. rewrite filter_cons.
  destruct (decide (nonzero x = true)) as [->|H]; [done|].
  apply not_true_is_false in H. by rewrite H.
Qed.

Lemma count_nonzero_insert data i x v :
  data !! i = Some x ->
  (count_nonzero (<[i:=v]> data) + bit (nonzero x)
   = count_nonzero data + bit (nonzero v))%nat.
Proof.
  intros H. pose proof (lookup_lt_Some _ _ _ H) as Hlt.
  rewrite insert_take_drop by done.
  rewrite <- (take_drop_middle data i x H) at 3.
  rewrite !count_nonzero_app, !count_nonzero_cons. lia.
Qed.

Lemma count_nonzero_replicate k : count_nonzero (replicate k 0) = 0%nat.
Proof.
  induction k as [|k IH]; [done|].
  cbn [replicate]. rewrite count_nonzero_cons, IH. done.
Qed.

Section Impulse.
Variable rnd : nat -> Q.
Variable n : nat.

Local Abbreviation positions := (positions rnd n).

Lemma positions_seq k q :
  positions k q = map (fun j => pop_index rnd n (q + 2 * j)) (seq 0 k).
Proof.
  revert q. induction k as [|k IH]; intros q; [done|].
  cbn [positions seq map]. rewrite Nat.mul_0_r, Nat.add_0_r. f_equal.
  rewrite IH, <- seq_shift, map_map.
  apply map_ext. intros j. f_equal. lia.
Qed.

Lemma impulse_loop_length k q data :
  length (impulse_loop rnd n k q data).1 = length data.
Proof.
  revert q data. induction k as [|k IH]; intros q data; [done|].
  cbn [impulse_loop]. rewrite IH. unfold write.
  destruct (_ <? 0)%Z; [done|]. apply length_insert.
Qed.

(** A sample that differs from what was there sits at a written position. *)
Lemma impulse_loop_support k : forall q data i x,
  (impulse_loop rnd n k q data).1 !! i = Some x ->
  data !! i = Some x \/ Z.of_nat i ∈ positions k q.
Proof.
  induction k as [|k IH]; intros q data i x H; [by left|].
  cbn [impulse_loop] in H. apply IH in H as [H|H].
  - unfold write in H. cbn [positions].
    destruct (pop_index rnd n q <? 0)%Z eqn:E; [by left|].
    apply Z.ltb_ge in E.
    destruct (decide (i = Z.to_nat (pop_index rnd n q))) as [->|Hne].
    + right. rewrite Z2Nat.id by done. left.
    + rewrite list_lookup_insert_ne in H by done. by left.
  - right. cbn [positions]. by right.
Qed.

Lemma impulse_loop_count_le k : forall q data,
  (count_nonzero (impulse_loop rnd n k q data).1
   <= count_nonzero data + k)%nat.
Proof.
  induction k as [|k IH]; intros q data; [cbn [impulse_loop fst]; lia|].
  cbn [impulse_loop]. etransitivity; [apply IH|].
  unfold write. destruct (_ <? 0)%Z; [lia|].
  set (i := Z.to_nat _).
  destruct (data !! i) as [x|] eqn:E.
  - pose proof (count_nonzero_insert data i x (pop_amp rnd q) E).
    destruct (nonzero x), (nonzero (pop_amp rnd q)); cbn [bit] in *; lia.
  - rewrite list_insert_ge; [lia|]. by apply lookup_ge_None.
Qed.

(** A sample at a position that no pass writes is kept. *)
Lemma impulse_loop_keep k : forall q data i,
  (forall j, (j < k)%nat -> pop_index rnd n (q + 2 * j) <> Z.of_nat i) ->
  (impulse_loop rnd n k q data).1 !! i = data !! i.
Proof.
  induction k as [|k IH]; intros q data i H; [done|].
  cbn [impulse_loop]. rewrite IH.
  - specialize (H 0%nat ltac:(lia)).
    rewrite Nat.mul_0_r, Nat.add_0_r in H.
    unfold write. destruct (Z.ltb_spec (pop_index rnd n q) 0); [done|].
    apply list_lookup_insert_ne. lia.
  - intros j Hj. specialize (H (S j) ltac:(lia)).
    by replace (S (S q) + 2 * j)%nat with (q + 2 * S j)%nat by lia.
Qed.

(** The pop of pass [j] is in the buffer unless a later pass draws the
    same position. *)
Lemma impulse_loop_write k : forall q data j,
  (j < k)%nat ->
  (0 <= pop_index rnd n (q + 2 * j) < Z.of_nat (length data))%Z ->
  (forall j', (j < j' < k)%nat ->
     pop_index rnd n (q + 2 * j') <> pop_index rnd n (q + 2 * j)) ->
  (impulse_loop rnd n k q data).1 !! Z.to_nat (pop_index rnd n (q + 2 * j))
  = Some (pop_amp rnd (q + 2 * j)).
Proof.
  induction k as [|k IH]; intros q data j Hj Hr Hlast; [lia|].
  cbn [impulse_loop]. destruct j as [|j].
  - rewrite Nat.mul_0_r, Nat.add_0_r in *.
    rewrite impulse_loop_keep.
    + unfold write. destruct (Z.ltb_spec (pop_index rnd n q) 0); [lia|].
      apply list_lookup_insert_eq. lia.
    + intros j Hjk. rewrite Z2Nat.id by lia.
      replace (S (S q) + 2 * j)%nat with (q + 2 * S j)%nat by lia.
      apply Hlast. lia.
  - replace (q + 2 * S j)%nat with (S (S q) + 2 * j)%nat in * by lia.
    apply IH.
    + lia.
    + unfold write. destruct (_ <? 0)%Z; [done|].
      by rewrite length_insert.
    + intros j' Hj'. specialize (Hlast (S j') ltac:(lia)).
      by replace (q + 2 * S j')%nat with (S (S q) + 2 * j')%nat in Hlast
        by lia.
Qed.

Hypothesis rnd_unit : forall k, 0 <= rnd k < 1.

Lemma pop_amp_bound q : Qabs (pop_amp rnd q) <= pop_peak.
Proof.
  unfold pop_amp. destruct (rnd_unit (S q)).
  apply Qabs_Qle_condition.
  apply (RoundFacts.fround_range (- pop_peak) pop_peak).
  - apply RoundFacts.fround_opp_pop_peak.
  - apply RoundFacts.fround_pop_peak.
  - unfold pop_peak. split; lra.
Qed.

Lemma impulse_loop_bound k : forall q data,
  Forall (fun x => Qabs x <= pop_peak) data ->
  Forall (fun x => Qabs x <= pop_peak) (impulse_loop rnd n k q data).1.
Proof.
  induction k as [|k IH]; intros q data H; [done|].
  cbn [impulse_loop]. apply IH. unfold write.
  destruct (_ <? 0)%Z; [done|].
  apply Forall_insert; [done|apply pop_amp_bound].
Qed.

Hypothesis n_pos : (0 < n)%nat.

Lemma pop_index_range q : (0 <= pop_index rnd n q < Z.of_nat n)%Z.
Proof.
  unfold pop_index. destruct (rnd_unit q) as [H0 H1].
  assert (Hn : 0 < inject_Z (Z.of_nat n)).
  { change 0 with (inject_Z 0). rewrite <- Zlt_Qlt. lia. }
  split.
  - change 0%Z with (Qfloor 0). apply Qfloor_resp_le. nra.
  - rewrite Zlt_Qlt.
    eapply Qle_lt_trans; [apply Qfloor_le|]. nra.
Qed.

Lemma impulse_loop_count k : forall q data,
  length data = n ->
  NoDup (positions k q) ->
  (forall j, (j < k)%nat -> nonzero (pop_amp rnd (q + 2 * j)) = true) ->
  (forall z, z ∈ positions k q ->
     exists x, data !! Z.to_nat z = Some x /\ nonzero x = false) ->
  count_nonzero (impulse_loop rnd n k q data).1
  = (count_nonzero data + k)%nat.
Proof.
  induction k as [|k IH]; intros q data Hlen Hnd Hamp Hzero; [cbn [impulse_loop fst]; lia|].
  cbn [impulse_loop positions] in *.
  apply NoDup_cons in Hnd as [Hnotin Hnd].
  pose proof (pop_index_range q) as Hr.
  destruct (Hzero (pop_index rnd n q)) as (x & Hx & Hxz); [left|].
  unfold write. destruct (Z.ltb_spec (pop_index rnd n q) 0); [lia|].
  rewrite IH.
  - pose proof (count_nonzero_insert data _ x (pop_amp rnd q) Hx) as Hc.
    specialize (Hamp 0%nat ltac:(lia)).
    rewrite Nat.mul_0_r, Nat.add_0_r in Hamp.
    rewrite Hxz, Hamp in Hc. cbn [bit] in Hc. lia.
  - by rewrite length_insert.
  - done.
  - intros j Hj. specialize (Hamp (S j) ltac:(lia)).
    replace (S (S q) + 2 * j)%nat with (q + 2 * S j)%nat by lia. done.
  - intros z Hz. destruct (Hzero z) as (y & Hy & Hyz); [by right|].
    exists y. split; [|done].
    rewrite list_lookup_insert_ne; [done|].
    intros E. apply Hnotin.
    assert (z = pop_index rnd n q) as <-; [|done].
    assert (Hz0 : (0 <= z)%Z).
    { clear -Hz rnd_unit n_pos. revert Hz. generalize (S (S q)).
      induction k as [|k IHk]; intros q' Hz; cbn [positions] in Hz.
      - by apply elem_of_nil in Hz.
      - apply elem_of_cons in Hz as [->|Hz]; [apply pop_index_range|eauto]. }
    lia.
Qed.

End Impulse.


Lemma impulse_loop_count_zero rnd n k : forall q data,
  (forall j, (j < k)%nat -> nonzero (pop_amp rnd (q + 2 * j)) = false) ->
  count_nonzero data = 0%nat ->
  count_nonzero (impulse_loop rnd n k q data).1 = 0%nat.
Proof.
  induction k as [|k IH]; intros q data Hamp Hz; [done|].
  cbn [impulse_loop]. apply IH.
  - intros j Hj. specialize (Hamp (S j) ltac:(lia)).
    by replace (S (S q) + 2 * j)%nat with (q + 2 * S j)%nat by lia.
  - specialize (Hamp 0%nat ltac:(lia)).
    rewrite Nat.mul_0_r, Nat.add_0_r in Hamp.
    unfold write. destruct (_ <? 0)%Z; [done|].
    set (i := Z.to_nat _).
    destruct (data !! i) as [x|] eqn:E.
    + pose proof (count_nonzero_insert data i x (pop_amp rnd q) E) as Hc.
      rewrite Hamp in Hc. cbn [bit] in Hc. lia.
    + rewrite list_insert_ge; [done|]. by apply lookup_ge_None.
Qed.

Lemma count_rnd_amp j :
  nonzero (pop_amp Scenario.count_rnd (0 + 2 * j)) = false.
Proof.
  unfold pop_amp, Scenario.count_rnd.
  replace (Nat.even (S (0 + 2 * j))) with false; [by vm_compute|].
  symmetry. rewrite Nat.even_succ, <- Nat.negb_even.
  apply negb_false_iff, Nat.even_spec. exists j. lia.
Qed.

Lemma count_rnd_unit k : 0 <= Scenario.count_rnd k < 1.
Proof.
  unfold Scenario.count_rnd. destruct (Nat.even k).
  - pose proof (Nat.mod_upper_bound (Nat.div2 k) 60 ltac:(lia)).
    unfold Qle, Qlt. cbn [Qnum Qden]. lia.
  - unfold Qle, Qlt. cbn. lia.
Qed.

End GeneratorFacts.

Import Generators.

(** C4, as amended.  Sample [i] of a pink-noise buffer is the sum of the
    six recursive filter states, of a seventh term that is the previous
    white-noise input scaled by 0.115926 (zero for the first sample) and
    of the direct term [0.5362 * w i], the whole scaled by 0.11; the
    filter states start from zero in every buffer. *)
Theorem C4_pink_noise_samples (sr : nat) (rnd : nat -> Q) (p i : nat) :
  (i < sr * 2)%nat ->
  length (createPinkNoiseBuffer sr rnd p).1 = (sr * 2)%nat /\
  exists x, (createPinkNoiseBuffer sr rnd p).1 !! i = Some x /\
            x == Kellet.sample (white rnd p) i.
Proof.
  intros Hi. split.
  - unfold createPinkNoiseBuffer.
    rewrite GeneratorFacts.pink_loop_length.
    apply length_replicate.
  - exists (pink_out rnd p i). split.
    + by apply GeneratorFacts.createPinkNoiseBuffer_lookup.
    + apply GeneratorFacts.out_sample.
Qed.

Lemma C4_pink_noise_samples_witness :
  (1 < 8 * 2)%nat /\
  length (createPinkNoiseBuffer 8 (fun _ => 1 # 4) 0).1 = (8 * 2)%nat /\
  exists x, (createPinkNoiseBuffer 8 (fun _ => 1 # 4) 0).1 !! 1%nat = Some x /\
            x == Kellet.sample (white (fun _ => 1 # 4) 0) 1.
Proof.
  split; [lia | apply (C4_pink_noise_samples 8 (fun _ => 1 # 4) 0 1); lia].
Defined.

(** C4 as the specification words it (six states and the direct term
    only) fails: after a first input of -1 and a second input of 0 the
    second sample still carries the delayed seventh term. *)
Lemma C4_counterexample :
  ~ (forall (sr : nat) (rnd : nat -> Q) (p i : nat),
       (i < sr * 2)%nat ->
       exists x, (createPinkNoiseBuffer sr rnd p).1 !! i = Some x /\
                 x == Kellet.spec_sample (white rnd p) i).
Proof.
  intros H.
  assert (Hi : (1 < 441 * 100 * 2)%nat)
    by (apply Nat.ltb_lt; by vm_compute).
  destruct (H (441 * 100)%nat
              (fun k => match k with O => 0 | S _ => 1 # 2 end)
              0%nat 1%nat Hi) as (x & Hx & Ex).
  rewrite GeneratorFacts.createPinkNoiseBuffer_lookup in Hx by done.
  injection Hx as <-.
  rewrite GeneratorFacts.out_sample in Ex.
  apply Qeq_bool_iff in Ex. vm_compute in Ex. discriminate.
Qed.

(** C9, as amended.  An impulse buffer spans 4 seconds; the loop writes
    one position per natural number below [4 * rate] (so [4 * rate]
    positions when that is a natural number); samples off these
    positions are silent; every sample has magnitude at most 0.8 as the
    [Float32Array] rounds it, 0.800000011920929, and a draw of 0 gives a
    sample of that magnitude, above 0.8; the non-zero samples are at most
    as many as the written positions, and exactly as many when the
    positions are distinct and no stored amplitude is zero. *)
Theorem C9_impulse_buffer (sr : nat) (rnd : nat -> Q) (p : nat) (rate : Q) :
  (0 < sr)%nat ->
  (forall k, 0 <= rnd k < 1) ->
  let buf := (createImpulseBuffer sr rnd p rate).1 in
  let pos := pop_positions sr rnd p rate in
  length buf = (sr * 4)%nat
  /\ (forall k : nat,
        (k < length pos)%nat <-> inject_Z (Z.of_nat k) < rate * 4)
  /\ (forall m : nat, rate * 4 == inject_Z (Z.of_nat m) -> length pos = m)
  /\ (forall i x, buf !! i = Some x -> ~ x == 0 -> Z.of_nat i ∈ pos)
  /\ (forall i x, buf !! i = Some x -> Qabs x <= pop_peak)
  /\ (exists x, (createImpulseBuffer 1 (fun _ => 0) 0 (1 # 4)).1 !! 0%nat
                = Some x /\ Qabs x == pop_peak /\ 0.8 < Qabs x)
  /\ (count_nonzero buf <= length pos)%nat
  /\ (NoDup pos ->
      Forall (fun a => ~ a == 0) (pop_amps rnd p rate) ->
      count_nonzero buf = length pos).
Proof.
  intros Hsr Hrnd buf pos.
  assert (Hpos : pos = positions rnd (sr * 4) (trips (rate * 4)) p).
  { subst pos. unfold pop_positions.
    by rewrite GeneratorFacts.positions_seq. }
  assert (Hlen : length pos = trips (rate * 4)).
  { subst pos. unfold pop_positions. by rewrite length_map, length_seq. }
  assert (Hsilent : Forall (fun x => x == 0) (createBuffer (sr * 4))).
  { apply Forall_replicate. reflexivity. }
  subst buf. unfold createImpulseBuffer. cbn zeta.
  repeat split.
  - rewrite GeneratorFacts.impulse_loop_length. apply length_replicate.
  - rewrite Hlen. apply GeneratorFacts.trips_spec.
  - rewrite Hlen. apply GeneratorFacts.trips_spec.
  - intros m Hm. rewrite Hlen. by apply GeneratorFacts.trips_integer.
  - intros i x Hx Hnz.
    apply GeneratorFacts.impulse_loop_support in Hx as [Hx|Hx].
    + exfalso. apply Hnz.
      apply lookup_replicate in Hx as [-> _]. reflexivity.
    + by rewrite Hpos.
  - intros i x Hx.
    assert (HF : Forall (fun x => Qabs x <= pop_peak) (createBuffer (sr * 4))).
    { apply Forall_replicate. apply Qabs_Qle_condition.
      unfold pop_peak. split; lra. }
    apply (GeneratorFacts.impulse_loop_bound rnd (sr * 4) Hrnd
             (trips (rate * 4)) p) in HF.
    rewrite Forall_lookup in HF. by eapply HF.
  - eexists. split; [by vm_compute|].
    split; [apply Qeq_bool_iff; by vm_compute|by vm_compute].
  - rewrite Hlen.
    pose proof (GeneratorFacts.impulse_loop_count_le rnd (sr * 4)
                  (trips (rate * 4)) p (createBuffer (sr * 4))) as HC.
    unfold createBuffer in HC at 2.
    rewrite GeneratorFacts.count_nonzero_replicate in HC. lia.
  - intros Hnd Hamps. rewrite Hlen.
    rewrite (GeneratorFacts.impulse_loop_count rnd (sr * 4) Hrnd ltac:(lia)).
    + unfold createBuffer.
      by rewrite GeneratorFacts.count_nonzero_replicate.
    + apply length_replicate.
    + by rewrite <- Hpos.
    + intros j Hj. apply GeneratorFacts.nonzero_spec.
      rewrite Forall_forall in Hamps. apply Hamps.
      unfold pop_amps. apply list_elem_of_In, in_map_iff. exists j. split; [done|].
      apply in_seq. lia.
    + intros z Hz. exists 0. split; [|done].
      apply lookup_replicate. split; [done|].
      assert (Hr : (0 <= z < Z.of_nat (sr * 4))%Z).
      { clear -Hz Hrnd Hsr. revert Hz. generalize p.
        induction (trips (rate * 4)) as [|k IHk]; intros q Hz;
          cbn [positions] in Hz.
        - by apply elem_of_nil in Hz.
        - apply elem_of_cons in Hz as [->|Hz];
            [apply GeneratorFacts.pop_index_range; [done|lia]|eauto]. }
      lia.
Qed.

Lemma C9_impulse_buffer_witness :
  (0 < 2)%nat /\
  (forall k : nat, 0 <= (fun _ : nat => 1 # 4) k < 1) /\
  length (createImpulseBuffer 2 (fun _ => 1 # 4) 0 1).1 = (2 * 4)%nat.
Proof.
  assert (H0 : (0 < 2)%nat) by lia.
  assert (H1 : forall k : nat, 0 <= (fun _ : nat => 1 # 4) k < 1)
    by (intros _; split; [discriminate | reflexivity]).
  split; [exact H0|]. split; [exact H1|].
  exact (proj1 (C9_impulse_buffer 2 (fun _ => 1 # 4) 0 1 H0 H1)).
Defined.

(** C9 as worded fails: sixty pops at sixty distinct positions, each
    drawn with amplitude zero ([Math.random()] returning 0.5), leave no
    non-zero sample where the claim counts [4 * 15 = 60]. *)
Lemma C9_counterexample :
  ~ (forall (sr : nat) (rnd : nat -> Q) (p : nat) (rate : Q),
       (0 < sr)%nat ->
       (forall k, 0 <= rnd k < 1) ->
       NoDup (pop_positions sr rnd p rate) ->
       inject_Z (Z.of_nat (count_nonzero (createImpulseBuffer sr rnd p rate).1))
       == rate * 4).
Proof.
  intros H.
  assert (Hsr : (0 < 441 * 100)%nat) by (apply Nat.ltb_lt; by vm_compute).
  specialize (H (441 * 100)%nat Scenario.count_rnd 0%nat 15 Hsr
                GeneratorFacts.count_rnd_unit).
  assert (Hnd : NoDup (pop_positions (441 * 100) Scenario.count_rnd 0 15)).
  { apply (bool_decide_unpack _). by vm_compute. }
  specialize (H Hnd).
  unfold createImpulseBuffer in H. cbv zeta in H.
  rewrite GeneratorFacts.impulse_loop_count_zero in H.
  - apply Qeq_bool_iff in H. vm_compute in H. discriminate.
  - intros j _. apply GeneratorFacts.count_rnd_amp.
  - apply GeneratorFacts.count_nonzero_replicate.
Qed.

Import Audio Engine Effects.

(** * Facts about the engine and the node lifecycle *)

Module MonadFacts.
Import Audio Engine Effects.

Lemma bind_inr {A B} (m : M A) (k : A -> M B) w b w' :
  bind m k w = (inr b, w') ->
  exists a w1, m w = (inr a, w1) /\ k a w1 = (inr b, w').
Proof.
  unfold bind. destruct (m w) as [[e|a] w1]; [done|]. eauto.
Qed.

Lemma bind_ok {A B} (m : M A) (k : A -> M B) w a w1 :
  m w = (inr a, w1) -> bind m k w = k a w1.
Proof. unfold bind. by intros ->. Qed.

Lemma bind_throw {A B} (m : M A) (k : A -> M B) w e w1 :
  m w = (inl e, w1) -> bind m k w = (inl e, w1).
Proof. unfold bind. by intros ->. Qed.

Section Preserves.
Context (I : World -> Prop).

Lemma preserves_ret {A} (a : A) : preserves I (ret a).
Proof. by intros w. Qed.

Lemma preserves_throw {A} e : preserves I (@throw A e).
Proof. by intros w. Qed.

Lemma preserves_gets {A} (f : World -> A) : preserves I (gets f).
Proof. by intros w. Qed.

Lemma preserves_deref {A} (o : option A) : preserves I (deref o).
Proof. intros w. by destruct o. Qed.

Lemma preserves_modify f : (forall w, I w -> I (f w)) -> preserves I (modify f).
Proof. intros H w. apply H. Qed.

Lemma preserves_bind {A B} (m : M A) (k : A -> M B) :
  preserves I m -> (forall a, preserves I (k a)) -> preserves I (bind m k).
Proof.
  intros Hm Hk w Hw. unfold bind. specialize (Hm w Hw).
  destruct (m w) as [[e|a] w1]; [done|]. by apply Hk.
Qed.

Lemma preserves_try m : preserves I m -> preserves I (try_ m).
Proof.
  intros Hm w Hw. unfold try_. specialize (Hm w Hw).
  by destruct (m w) as [[e|a] w1].
Qed.

End Preserves.

(** Splits a preservation goal along the structure of the computation,
    down to its [modify] steps. *)
Ltac pres_split :=
  repeat lazymatch goal with
  | |- preserves _ (bind _ _) => apply preserves_bind; [|intros ?]
  | |- preserves _ (ret _) => apply preserves_ret
  | |- preserves _ (throw _) => apply preserves_throw
  | |- preserves _ (gets _) => apply preserves_gets
  | |- preserves _ (deref _) => apply preserves_deref
  | |- preserves _ (try_ _) => apply preserves_try
  | |- preserves _ (modify _) => apply preserves_modify
  | |- preserves _ (if ?b then _ else _) => destruct b
  | |- preserves _ (match ?x with _ => _ end) => destruct x
  | |- preserves _ (let _ := _ in _) => cbv zeta
  end.

Ltac unfold_engine :=
  unfold SoundNode.start, SoundNode.stop, SoundNode.setVolume,
    SoundNode.teardown, SoundNode.new, SoundNode.start_finish,
    SoundNode.start_chain, SoundNode.start_cutoff_lfo,
    SoundNode.start_filter_kind, SoundNode.start_source,
    SoundNode.this_gainNode, SoundNode.this_source, SoundNode.this_filter,
    SoundNode.this_lfo, SoundNode.this_lfoGain, SoundNode.getObj,
    SoundNode.setObj, initAudio, createImpulseBuffer, createPinkNoiseBuffer,
    createNoiseBuffer, setTimeout, setTargetAtTime, currentTime, stopNode,
    startNode, disconnect, connect, getNode, updNode, createAnalyser,
    createBiquadFilter, createGain, createOscillator, createBufferSource,
    alloc, getCtx.

Ltac same_page_leaf :=
  let w := fresh "w" in
  let H := fresh "H" in
  intros w H; destruct H; by constructor.

Lemma start_same_page w0 this :
  preserves (same_page w0) (SoundNode.start this).
Proof. unfold_engine. pres_split; same_page_leaf. Qed.

(** An allocation returns an index that is not below any earlier length
    of the node list. *)
Lemma preserves_alloc_bind (I : World -> Prop) (n0 : nat) {B} n
    (k : nat -> M B) :
  (forall w, I w -> (n0 <= length (nodes w))%nat) ->
  (forall w, I w -> I (set_nodes (nodes w ++ [n]) w)) ->
  (forall l, (n0 <= l)%nat -> preserves I (k l)) ->
  preserves I (bind (alloc n) k).
Proof.
  intros Hlen Halloc Hk w Hw.
  unfold bind, alloc, getCtx, bind, gets, deref, modify, ret, throw. cbn.
  destruct (audioCtx w); cbn; [|done].
  apply Hk; [by apply Hlen|by apply Halloc].
Qed.

Ltac unfold_above_alloc :=
  unfold SoundNode.start, SoundNode.stop, SoundNode.setVolume,
    SoundNode.teardown, SoundNode.new, SoundNode.start_finish,
    SoundNode.start_chain, SoundNode.start_cutoff_lfo,
    SoundNode.start_filter_kind, SoundNode.start_source,
    SoundNode.this_gainNode, SoundNode.this_source, SoundNode.this_filter,
    SoundNode.this_lfo, SoundNode.this_lfoGain, SoundNode.getObj,
    SoundNode.setObj, createImpulseBuffer, createPinkNoiseBuffer,
    createNoiseBuffer, setTimeout, setTargetAtTime, currentTime, stopNode,
    startNode, disconnect, connect, getNode, updNode, createAnalyser,
    createBiquadFilter, createGain, createOscillator, createBufferSource,
    getCtx.

Ltac pres_split_alloc :=
  repeat lazymatch goal with
  | |- preserves _ (bind (alloc _) _) =>
      eapply preserves_alloc_bind; [| |intros ? ?]
  | |- preserves _ (bind _ _) => apply preserves_bind; [|intros ?]
  | |- preserves _ (ret _) => apply preserves_ret
  | |- preserves _ (throw _) => apply preserves_throw
  | |- preserves _ (gets _) => apply preserves_gets
  | |- preserves _ (deref _) => apply preserves_deref
  | |- preserves _ (try_ _) => apply preserves_try
  | |- preserves _ (modify _) => apply preserves_modify
  | |- preserves _ (if ?b then _ else _) => destruct b
  | |- preserves _ (match ?x with _ => _ end) => destruct x
  | |- preserves _ (let _ := _ in _) => cbv zeta
  end.

Lemma start_apart this g n0 :
  (g < n0)%nat -> preserves (apart this g n0) (SoundNode.start this).
Proof.
  intros Hg. unfold_above_alloc. pres_split_alloc.
  all: try (intros w (Hlen & o' & Ho' & Hg' & Hs' & Hl'); exact Hlen).
  all: intros w (Hlen & o' & Ho' & Hg' & Hs' & Hl').
  all: split; [cbn; rewrite ?length_alter, ?length_app; cbn; lia|].
  all: cbn; rewrite ?list_lookup_alter_eq, ?Ho'; cbn.
  all: eexists; split; [reflexivity|]; cbn.
  all: repeat split; try done.
  all: intros [= ->]; lia.
Qed.


Lemma elem_of_add_edge e e' es : e ∈ add_edge e' es <-> e = e' \/ e ∈ es.
Proof.
  unfold add_edge. destruct (decide (e' ∈ es)) as [H|H].
  - rewrite bool_decide_eq_true_2 by done.
    split; [by right|]. by intros [->|?].
  - rewrite bool_decide_eq_false_2 by done.
    rewrite elem_of_app, list_elem_of_singleton. tauto.
Qed.

Lemma getObj_ok w this o :
  objs w !! this = Some o -> SoundNode.getObj this w = (inr o, w).
Proof. unfold SoundNode.getObj, gets, bind, deref. cbn. by intros ->. Qed.

Lemma getObj_inv w this o w' :
  SoundNode.getObj this w = (inr o, w') -> w' = w /\ objs w !! this = Some o.
Proof.
  unfold SoundNode.getObj, gets, bind, deref, ret, throw.
  destruct (objs w !! this); intros [= <- <-]; done.
Qed.

(** What a successful end of [start] leaves behind. *)
Lemma start_finish_inv this out w w' :
  SoundNode.start_finish this out w = (inr tt, w') ->
  exists o s n a,
    objs w !! this = Some o /\
    Obj.source o = Some s /\
    analyser w = Some a /\
    nodes w !! s = Some n /\ schedulable n = true /\ started n = false /\
    objs w' = alter (Obj.with_isPlaying true) this (objs w) /\
    nodes w' = alter mark_started s (nodes w) /\
    (Obj.gainNode o, ToNode a) ∈ edges w' /\
    (forall e, e ∈ edges w -> e ∈ edges w') /\
    timers w' = timers w /\ audioCtx w' = audioCtx w /\
    analyser w' = analyser w /\ now w' = now w.
Proof.
  unfold SoundNode.start_finish, SoundNode.this_gainNode,
    SoundNode.this_source, SoundNode.getObj, SoundNode.setObj, startNode,
    getNode, updNode, connect.
  unfold bind, gets, deref, ret, throw, modify. cbn.
  destruct out as [out|]; [|done]. cbn.
  destruct (objs w !! this) as [o|] eqn:Ho; [|done]. cbn. rewrite ?Ho. cbn.
  destruct (analyser w) as [a|] eqn:Ha; [|done]; cbn. rewrite ?Ho. cbn.
  destruct (Obj.source o) as [s|] eqn:Hs; [|done]; cbn.
  destruct (nodes w !! s) as [n|] eqn:Hn; [|done]; cbn.
  destruct (schedulable n) eqn:Hsch; [|done]; cbn.
  destruct (started n) eqn:Hst; [done|]; cbn.
  intros [= <-]; cbn.
  exists o, s, n, a; repeat split; try done.
  - apply elem_of_add_edge. by left.
  - intros e He. apply elem_of_add_edge. right.
    apply elem_of_add_edge. by right.
Qed.

Lemma start_playing_noop w this o :
  objs w !! this = Some o -> Obj.isPlaying o = true ->
  SoundNode.start this w = (inr tt, w).
Proof.
  intros Ho Hp. unfold SoundNode.start.
  rewrite (bind_ok _ _ _ _ _ (getObj_ok _ _ _ Ho)). by rewrite Hp.
Qed.

(** A [start] that returns has reached its last line. *)
Lemma start_inv w this w' :
  SoundNode.start this w = (inr tt, w') ->
  exists o, objs w !! this = Some o /\
    ((Obj.isPlaying o = true /\ w' = w) \/
     (Obj.isPlaying o = false /\
      exists w1 w2 out,
        SoundNode.start_source this (Obj.config o) w = (inr tt, w1) /\
        SoundNode.start_chain this (Obj.config o) w1 = (inr out, w2) /\
        SoundNode.start_finish this out w2 = (inr tt, w'))).
Proof.
  unfold SoundNode.start. intros H.
  apply bind_inr in H as (o & w0 & Hg & H).
  apply getObj_inv in Hg as [-> Ho]. exists o. split; [done|].
  destruct (Obj.isPlaying o); [left|right].
  - unfold ret in H. injection H as <-. split; reflexivity.
  - split; [done|].
    apply bind_inr in H as ([] & w1 & H1 & H).
    apply bind_inr in H as (out & w2 & H2 & H). eauto 10.
Qed.

Lemma start_ok_playing w this w' :
  SoundNode.start this w = (inr tt, w') ->
  exists o', objs w' !! this = Some o' /\ Obj.isPlaying o' = true.
Proof.
  intros H. apply start_inv in H as (o & Ho & [[Hp ->]|[Hp H]]); [eauto|].
  destruct H as (w1 & w2 & out & _ & _ & H).
  apply start_finish_inv in H as (o2 & s & n & a & Ho2 & _ & _ & _ & _ & _ & Hobjs & _).
  exists (Obj.with_isPlaying true o2). split; [|done].
  by rewrite Hobjs, list_lookup_alter_eq, Ho2.
Qed.

Lemma lifecycle_not_idle w this l :
  UI.lifecycle w this = Some l -> l <> UI.Idle ->
  exists o, objs w !! this = Some o /\ Obj.isPlaying o = true.
Proof.
  unfold UI.lifecycle. destruct (objs w !! this) as [o|]; [|done].
  destruct (Obj.isPlaying o) eqn:E; [eauto|]. by intros [= <-].
Qed.


(** *** Closed forms of [stop], [setVolume] and the teardown *)

Lemma set_nodes_id w : set_nodes (nodes w) w = w.
Proof. by destruct w. Qed.

Lemma currentTime_ok w c :
  audioCtx w = Some c ->
  currentTime w = (inr (inject_Z (Z.of_nat (now w)) / 1000), w).
Proof.
  intros Hc. unfold currentTime, getCtx, bind, gets, deref, ret. cbn.
  by rewrite Hc.
Qed.

Lemma this_gainNode_ok w this o :
  objs w !! this = Some o ->
  SoundNode.this_gainNode this w = (inr (Obj.gainNode o), w).
Proof.
  intros Ho. unfold SoundNode.this_gainNode.
  by rewrite (bind_ok _ _ _ _ _ (getObj_ok _ _ _ Ho)).
Qed.

Lemma setVolume_spec w this o c v :
  objs w !! this = Some o -> audioCtx w = Some c ->
  SoundNode.setVolume this v w
  = (inr tt,
     set_nodes (alter (push_event (v, inject_Z (Z.of_nat (now w)) / 1000, 0.1))
                      (Obj.gainNode o) (nodes w)) w).
Proof.
  intros Ho Hc. unfold SoundNode.setVolume.
  rewrite (bind_ok _ _ _ _ _ (this_gainNode_ok _ _ _ Ho)).
  by rewrite (bind_ok _ _ _ _ _ (currentTime_ok _ _ Hc)).
Qed.

Lemma stop_spec w this o c :
  objs w !! this = Some o -> Obj.isPlaying o = true -> audioCtx w = Some c ->
  SoundNode.stop this w = (inr tt, stopping this o w).
Proof.
  intros Ho Hp Hc. unfold SoundNode.stop.
  rewrite (bind_ok _ _ _ _ _ (getObj_ok _ _ _ Ho)), Hp. cbn [negb].
  rewrite (bind_ok _ _ _ _ _ (currentTime_ok _ _ Hc)). cbv zeta.
  rewrite (bind_ok _ _ _ _ _ (this_gainNode_ok _ _ _ Ho)).
  by rewrite (bind_ok _ _ _ _ _ (currentTime_ok _ _ Hc)).
Qed.

Lemma stop_idle_noop w this o :
  objs w !! this = Some o -> Obj.isPlaying o = false ->
  SoundNode.stop this w = (inr tt, w).
Proof.
  intros Ho Hp. unfold SoundNode.stop.
  by rewrite (bind_ok _ _ _ _ _ (getObj_ok _ _ _ Ho)), Hp.
Qed.

Lemma try_stop_spec w s :
  try_ (stopNode s) w = (inr tt, set_nodes (stop_if_started s (nodes w)) w).
Proof.
  unfold try_, stopNode, getNode, updNode, stop_if_started.
  unfold bind, gets, deref, ret, throw, modify. cbn.
  destruct (nodes w !! s) as [n|]; cbn; [|by rewrite set_nodes_id].
  destruct (schedulable n); cbn; [|by rewrite set_nodes_id].
  destruct (started n); cbn; [done|by rewrite set_nodes_id].
Qed.

Lemma teardown_spec w this o :
  objs w !! this = Some o ->
  SoundNode.teardown this w = (inr tt, torn_down this o w).
Proof.
  intros Ho.
  assert (Hquiet : forall (x : option nat) (get : Obj.SoundNode -> option nat)
                          (w1 : World),
    objs w1 !! this = Some o -> get o = x ->
    (if bool_decide (is_Some x) then
       bind (try_ (bind (bind (SoundNode.getObj this)
                              (fun o => deref (get o))) stopNode))
         (fun _ => bind (bind (SoundNode.getObj this)
                              (fun o => deref (get o))) disconnect)
     else ret tt) w1 = (inr tt, silence x w1)).
  { intros x get w1 Ho1 Hx. destruct x as [s|];
      [rewrite bool_decide_eq_true_2 by eauto
      |by rewrite bool_decide_eq_false_2 by (by intros [? ?])].
    assert (Hread : forall w2, objs w2 !! this = Some o ->
              bind (SoundNode.getObj this) (fun o => deref (get o)) w2
              = (inr s, w2)).
    { intros w2 Ho2.
      by rewrite (bind_ok _ _ _ _ _ (getObj_ok _ _ _ Ho2)), Hx. }
    assert (Htry : try_ (bind (bind (SoundNode.getObj this)
                                    (fun o => deref (get o))) stopNode) w1
                   = (inr tt, set_nodes (stop_if_started s (nodes w1)) w1)).
    { rewrite <- try_stop_spec. unfold try_.
      by rewrite (bind_ok _ _ _ _ _ (Hread _ Ho1)). }
    rewrite (bind_ok _ _ _ _ _ Htry).
    by rewrite (bind_ok _ _ _ _ _
                  (Hread (set_nodes (stop_if_started s (nodes w1)) w1) Ho1)). }
  unfold SoundNode.teardown, torn_down. cbv zeta.
  rewrite (bind_ok _ _ _ _ _ (getObj_ok _ _ _ Ho)).
  unfold SoundNode.this_source, SoundNode.this_lfo.
  erewrite bind_ok; [|by apply (Hquiet _ Obj.source)].
  assert (Ho1 : objs (silence (Obj.source o) w) !! this = Some o).
  { by destruct (Obj.source o). }
  rewrite (bind_ok _ _ _ _ _ (getObj_ok _ _ _ Ho1)).
  erewrite bind_ok; [|by apply (Hquiet _ Obj.lfo)].
  done.
Qed.


(** *** The teardown leaves its source and its modulator dead *)

Lemma stop_if_started_lookup s ns a :
  stop_if_started s ns !! a
  = (fun n => if bool_decide (a = s) && (schedulable n && started n)
              then mark_stopped n else n) <$> ns !! a.
Proof.
  unfold stop_if_started.
  destruct (ns !! s) as [n|] eqn:Hs.
  - destruct (schedulable n && started n) eqn:E.
    + destruct (decide (a = s)) as [->|Hne].
      * rewrite list_lookup_alter_eq, Hs. cbn.
        by rewrite bool_decide_eq_true_2, E by done.
      * rewrite list_lookup_alter_ne by done.
        destruct (ns !! a); [|done]. cbn.
        by rewrite bool_decide_eq_false_2 by done.
    + destruct (ns !! a) as [m|] eqn:Ha; [|done]. cbn.
      case_bool_decide as Heq; [|done]. subst a.
      assert (m = n) as -> by congruence. cbn. by rewrite E.
  - destruct (ns !! a) as [m|] eqn:Ha; [|done]. cbn.
    case_bool_decide as Heq; [|done]. congruence.
Qed.

Lemma running_silence_mono x w a :
  UI.running (silence x w) a = true -> UI.running w a = true.
Proof.
  destruct x as [s|]; [|done]. unfold UI.running. cbn.
  rewrite stop_if_started_lookup.
  destruct (nodes w !! a) as [n|]; [|done]. cbn.
  destruct (bool_decide (a = s) && (schedulable n && started n)); [|done].
  cbn. by rewrite andb_false_r.
Qed.

Lemma running_silence s w : UI.running (silence (Some s) w) s = false.
Proof.
  unfold UI.running. cbn. rewrite stop_if_started_lookup.
  destruct (nodes w !! s) as [n|]; [|done]. cbn.
  rewrite bool_decide_eq_true_2 by done. cbn.
  destruct (schedulable n) eqn:E1; cbn; [|by rewrite E1].
  destruct (started n) eqn:E2; cbn; [|by rewrite E1, E2].
  by rewrite andb_false_r.
Qed.

Lemma disconnected_silence s w : disconnected (silence (Some s) w) s.
Proof.
  intros d. cbn. rewrite list_elem_of_filter. by intros [? _].
Qed.

Lemma disconnected_silence_mono x w a :
  disconnected w a -> disconnected (silence x w) a.
Proof.
  intros H d. destruct x as [s|]; [|apply H]. cbn.
  rewrite list_elem_of_filter. intros [_ ?]. by apply (H d).
Qed.

Lemma edges_silence x w e :
  e ∈ edges w -> Some e.1 ≠ x -> e ∈ edges (silence x w).
Proof.
  intros He Hx. destruct x as [s|]; [|done]. cbn.
  apply list_elem_of_filter. split; [congruence|done].
Qed.

Lemma silence_objs x w : objs (silence x w) = objs w.
Proof. by destruct x. Qed.

Lemma silence_analyser x w : analyser (silence x w) = analyser w.
Proof. by destruct x. Qed.

Lemma silence_timers x w : timers (silence x w) = timers w.
Proof. by destruct x. Qed.

(** *** Time *)

Lemma filter_none {A} (P : A -> Prop) `{forall x, Decision (P x)} l :
  Forall (fun x => ~ P x) l -> filter P l = [].
Proof.
  induction 1 as [|x l Hx _ IH]; [done|].
  by rewrite filter_cons_False.
Qed.

Lemma filter_all {A} (P : A -> Prop) `{forall x, Decision (P x)} l :
  Forall P l -> filter P l = l.
Proof.
  induction 1 as [|x l Hx _ IH]; [done|].
  rewrite filter_cons_True by done. by f_equal.
Qed.

Lemma tick_idle w :
  Forall (fun e => S (now w) < e.1)%nat (timers w) ->
  UI.tick w = set_now (S (now w)) w.
Proof.
  intros H. unfold UI.tick. cbv zeta.
  rewrite (filter_none (fun e : nat * Callback => e.1 ≤ S (now w))%nat),
          (filter_all (fun e : nat * Callback => ¬ e.1 ≤ S (now w))%nat).
  - cbn. by destruct w.
  - eapply Forall_impl; [exact H|]. cbn. lia.
  - eapply Forall_impl; [exact H|]. cbn. lia.
Qed.

Lemma advance_idle k : forall w,
  Forall (fun e => now w + k < e.1)%nat (timers w) ->
  UI.advance k w = set_now (now w + k) w.
Proof.
  induction k as [|k IH]; intros w H.
  - cbn. rewrite Nat.add_0_r. by destruct w.
  - cbn [UI.advance]. rewrite tick_idle.
    + rewrite IH.
      * destruct w. unfold set_now. cbn. f_equal. lia.
      * eapply Forall_impl; [exact H|]. cbn. lia.
    + eapply Forall_impl; [exact H|]. cbn. lia.
Qed.

Lemma advance_add j k w : UI.advance (j + k) w = UI.advance k (UI.advance j w).
Proof.
  revert w. induction j as [|j IH]; intros w; [done|]. cbn. apply IH.
Qed.

(** A lone callback due in [S k] milliseconds runs at the end of the
    [S k]-th tick, on the world as it was but for the clock. *)
Lemma advance_single k cb w :
  timers w = [((now w + S k)%nat, cb)] ->
  UI.advance (S k) w
  = UI.run (UI.callback cb) (set_timers [] (set_now (now w + S k) w)).
Proof.
  intros Ht. replace (S k) with (k + 1)%nat at 1 by lia.
  rewrite advance_add, (advance_idle k w).
  - cbn [UI.advance]. unfold UI.tick.
    change (timers (set_now (now w + k) w)) with (timers w).
    change (now (set_now (now w + k) w)) with (now w + k)%nat.
    rewrite Ht. cbv zeta.
    rewrite !filter_cons, !filter_nil. cbn [fst snd].
    repeat case_decide; try lia.
    cbn [foldl snd]. destruct w. unfold set_now, set_timers. cbn.
    do 2 f_equal. lia.
  - rewrite Ht. repeat constructor. cbn. lia.
Qed.

End MonadFacts.

Module LifecycleFacts.
Import MonadFacts.

(** [stop] on a playing node and 150 ms of quiet: the teardown has run. *)
Lemma stop_then_wait w this o c :
  objs w !! this = Some o -> Obj.isPlaying o = true ->
  audioCtx w = Some c -> timers w = [] ->
  UI.advance 150 (UI.run (SoundNode.stop this) w)
  = torn_down this o
      (set_timers [] (set_now (now w + 150) (stopping this o w))).
Proof.
  intros Ho Hp Hc Ht. unfold UI.run.
  rewrite (stop_spec _ _ _ _ Ho Hp Hc). cbn [snd].
  rewrite (advance_single 149 (Teardown this)).
  - unfold UI.run, UI.callback.
    by rewrite (teardown_spec _ _ o).
  - cbn. by rewrite Ht.
Qed.

(** What is left of a node once its teardown has run. *)
Lemma torn_down_facts w this o :
  objs w !! this = Some o ->
  let w' := torn_down this o w in
  objs w' !! this = Some (Obj.with_isPlaying false o)
  /\ (forall s, Obj.source o = Some s ->
        UI.running w' s = false /\ disconnected w' s)
  /\ (forall l, Obj.lfo o = Some l ->
        UI.running w' l = false /\ disconnected w' l)
  /\ (forall e, e ∈ edges w -> Some e.1 <> Obj.source o ->
        Some e.1 <> Obj.lfo o -> e ∈ edges w')
  /\ analyser w' = analyser w /\ timers w' = timers w.
Proof.
  intros Ho w'. subst w'. unfold torn_down. cbv zeta.
  repeat split.
  - cbn. by rewrite list_lookup_alter_eq, !silence_objs, Ho.
  - destruct (UI.running _ s) eqn:E; [|done].
    change (UI.running (silence (Obj.lfo o) (silence (Obj.source o) w)) s
            = true) in E.
    apply running_silence_mono in E. rewrite H in E.
    by rewrite running_silence in E.
  - rewrite H.
    apply (disconnected_silence_mono (Obj.lfo o) (silence (Some s) w) s).
    apply disconnected_silence.
  - rewrite H.
    apply (running_silence l (silence (Obj.source o) w)).
  - rewrite H. apply (disconnected_silence l (silence (Obj.source o) w)).
  - intros e He Hs Hl.
    change (e ∈ edges (silence (Obj.lfo o) (silence (Obj.source o) w))).
    by do 2 (apply edges_silence; [|done]).
  - cbn. by rewrite !silence_analyser.
  - cbn. by rewrite !silence_timers.
Qed.

End LifecycleFacts.

Module StartFacts.
Import MonadFacts.

(** *** Symbolic execution over an unknown heap *)

Lemma alter_app_len {A} (f : A -> A) (l t : list A) :
  alter f (length l) (l ++ t) = l ++ alter f 0%nat t.
Proof. by rewrite <- (Nat.add_0_r (length l)), alter_app_r. Qed.

Lemma lookup_app_len {A} (l t : list A) :
  (l ++ t) !! length l = t !! 0%nat.
Proof. rewrite lookup_app_r by lia. by rewrite Nat.sub_diag. Qed.

Lemma lookup_app_plus {A} (l t : list A) k :
  (l ++ t) !! (length l + k)%nat = t !! k.
Proof. rewrite lookup_app_r by lia. f_equal. lia. Qed.

Ltac heap_norm :=
  rewrite <- ?app_assoc, ?length_app, ?length_alter, ?alter_app_len,
    ?alter_app_r, ?lookup_app_len, ?lookup_app_plus, ?list_lookup_alter_eq.

Ltac source_buffer_leaf :=
  let w := fresh "w" in
  intros w (o' & s' & n' & Ho' & Hs' & Hn' & Hk' & Hb' & Hl');
  unfold source_buffer; cbn;
  rewrite ?list_lookup_alter_eq, ?Ho'; cbn;
  first
    [ by eauto 10
    | by (eexists _, s', _; repeat split;
          [eassumption | apply lookup_app_l_Some; eassumption | done..])
    | match goal with
      | |- context [alter ?f ?i (nodes w)] =>
          destruct (decide (i = s')) as [->|];
          [ eexists _, s', (f n'); rewrite list_lookup_alter_eq, Hn'
          | eexists _, s', n'; rewrite list_lookup_alter_ne by done ];
          by repeat split
      end ].

Lemma start_chain_source_buffer this cfg b :
  preserves (source_buffer this b) (SoundNode.start_chain this cfg).
Proof. unfold_engine. pres_split; source_buffer_leaf. Qed.

Lemma start_finish_source_buffer this out b :
  preserves (source_buffer this b) (SoundNode.start_finish this out).
Proof. unfold_engine. pres_split; source_buffer_leaf. Qed.

Lemma run_bind_pres {A B} (Q : World -> Prop) (m : M A) (k : A -> M B) w :
  Q (m w).2 -> (forall a, preserves Q (k a)) -> Q (bind m k w).2.
Proof.
  intros Hm Hk. unfold bind. destruct (m w) as [[e|a] w1]; [done|].
  by apply Hk.
Qed.

Lemma benign_lookup fn (i : nat) (ns : list AudioNode) (a : nat) n :
  benign fn -> ns !! a = Some n ->
  exists n', alter fn i ns !! a = Some n' /\
    kind n' = kind n /\ ntype n' = ntype n /\
    frequency n' = frequency n /\ gain n' = gain n /\
    (started n = true -> started n' = true).
Proof.
  intros Hb Ha. destruct (decide (i = a)) as [->|Hne].
  - exists (fn n). rewrite list_lookup_alter_eq, Ha. split; [done|apply Hb].
  - exists n. by rewrite list_lookup_alter_ne.
Qed.

Section Wired.
Context (this : nat) (wave : string) (rate depth : Q) (base : option Q).

Lemma cutoff_wired_nodes fn i w :
  benign fn ->
  cutoff_wired this wave rate depth base w ->
  cutoff_wired this wave rate depth base
    (set_nodes (alter fn i (nodes w)) w).
Proof.
  intros Hb (o & f & l & g & nf & nl & ng & Ho & Hf & Hl & Hg & Hnf & Hkf
             & Hbase & Hnl & Hkl & Htl & Hrl & Hsl & Hng & Hkg & Hgg & He1
             & He2).
  destruct (benign_lookup fn i _ _ _ Hb Hnf) as (nf' & Hnf' & ? & ? & Ef & ? & ?).
  destruct (benign_lookup fn i _ _ _ Hb Hnl) as (nl' & Hnl' & ? & ? & El & ? & ?).
  destruct (benign_lookup fn i _ _ _ Hb Hng) as (ng' & Hng' & ? & ? & ? & Eg & ?).
  exists o, f, l, g, nf', nl', ng'. cbn.
  repeat split; rewrite ?Ef, ?El, ?Eg; try done; try congruence; auto.
Qed.

Lemma cutoff_wired_edges e w :
  cutoff_wired this wave rate depth base w ->
  cutoff_wired this wave rate depth base
    (set_edges (add_edge e (edges w)) w).
Proof.
  intros (o & f & l & g & nf & nl & ng & H).
  exists o, f, l, g, nf, nl, ng. cbn.
  rewrite !elem_of_add_edge. tauto.
Qed.

Lemma cutoff_wired_objs fo w :
  (forall o, Obj.filter (fo o) = Obj.filter o /\
             Obj.lfo (fo o) = Obj.lfo o /\
             Obj.lfoGain (fo o) = Obj.lfoGain o) ->
  cutoff_wired this wave rate depth base w ->
  cutoff_wired this wave rate depth base
    (set_objs (alter fo this (objs w)) w).
Proof.
  intros Hfo (o & f & l & g & nf & nl & ng & Ho & Hf & Hl & Hg & H).
  destruct (Hfo o) as (E1 & E2 & E3).
  exists (fo o), f, l, g, nf, nl, ng. cbn.
  rewrite list_lookup_alter_eq, Ho, E1, E2, E3. done.
Qed.

Ltac wired_leaf :=
  let w := fresh "w" in
  let H := fresh "H" in
  intros w H;
  first
    [ exact H
    | by apply cutoff_wired_edges
    | apply cutoff_wired_nodes; [by intros []|exact H]
    | apply cutoff_wired_objs; [by intros []|exact H] ].

Lemma start_finish_wired out :
  preserves (cutoff_wired this wave rate depth base)
            (SoundNode.start_finish this out).
Proof. unfold_engine. pres_split; wired_leaf. Qed.

Lemma chain_tail_wired :
  preserves (cutoff_wired this wave rate depth base)
    (bind (bind (SoundNode.this_source this)
             (fun s => bind (SoundNode.this_filter this)
                         (fun f => connect s (ToNode f))))
       (fun _ => bind (SoundNode.getObj this)
                   (fun o => ret (Obj.filter o)))).
Proof. unfold_engine. pres_split; wired_leaf. Qed.

End Wired.

(** *** Stepping through a computation, one call at a time *)

Lemma bind_assoc {A B C} (m : M A) (f : A -> M B) (g : B -> M C) w :
  bind (bind m f) g w = bind m (fun a => bind (f a) g) w.
Proof. unfold bind. by destruct (m w) as [[e|a] w1]. Qed.

Lemma alloc_ok w c n :
  audioCtx w = Some c ->
  alloc n w = (inr (length (nodes w)), set_nodes (nodes w ++ [n]) w).
Proof.
  intros Hc. unfold alloc, getCtx, bind, gets, modify, deref, ret. cbn.
  by rewrite Hc.
Qed.

Lemma this_source_ok w this o s :
  objs w !! this = Some o -> Obj.source o = Some s ->
  SoundNode.this_source this w = (inr s, w).
Proof.
  intros Ho Hs. unfold SoundNode.this_source.
  by rewrite (bind_ok _ _ _ _ _ (getObj_ok _ _ _ Ho)), Hs.
Qed.

Lemma this_filter_ok w this o f :
  objs w !! this = Some o -> Obj.filter o = Some f ->
  SoundNode.this_filter this w = (inr f, w).
Proof.
  intros Ho Hs. unfold SoundNode.this_filter.
  by rewrite (bind_ok _ _ _ _ _ (getObj_ok _ _ _ Ho)), Hs.
Qed.

Lemma this_lfo_ok w this o l :
  objs w !! this = Some o -> Obj.lfo o = Some l ->
  SoundNode.this_lfo this w = (inr l, w).
Proof.
  intros Ho Hs. unfold SoundNode.this_lfo.
  by rewrite (bind_ok _ _ _ _ _ (getObj_ok _ _ _ Ho)), Hs.
Qed.

Lemma this_lfoGain_ok w this o g :
  objs w !! this = Some o -> Obj.lfoGain o = Some g ->
  SoundNode.this_lfoGain this w = (inr g, w).
Proof.
  intros Ho Hs. unfold SoundNode.this_lfoGain.
  by rewrite (bind_ok _ _ _ _ _ (getObj_ok _ _ _ Ho)), Hs.
Qed.

Lemma startNode_ok w a n :
  nodes w !! a = Some n -> schedulable n = true -> started n = false ->
  startNode a w = (inr tt, set_nodes (alter mark_started a (nodes w)) w).
Proof.
  intros Hn Hs Ht. unfold startNode, getNode, updNode.
  unfold bind, gets, modify, deref, ret. cbn. by rewrite Hn, Hs, Ht.
Qed.

(** Proves [objs W !! this = Some ?o] for a world [W] built from a world
    of which [Ho] gives the object. *)
Ltac read_obj Ho :=
  cbn; rewrite ?list_lookup_alter_eq, Ho; reflexivity.

Ltac read_node :=
  cbn; heap_norm; reflexivity.

Ltac simpl_world :=
  cbn [set_rpos set_now set_audioCtx set_analyser set_nodes set_edges
       set_objs set_activeSounds set_activeCards set_sliders set_timers
       sampleRate initialState rnd rpos now audioCtx analyser nodes edges
       objs activeSounds activeCards sliders timers].

Ltac step Hc Ho :=
  lazymatch goal with
  | |- context [bind (alloc ?n) ?k ?W] =>
      rewrite (bind_ok _ k W _ _ (alloc_ok W _ n Hc)); cbv beta
  | |- context [bind (ret ?a) ?k ?W] =>
      rewrite (bind_ok (ret a) k W a W eq_refl); cbv beta
  | |- context [bind (SoundNode.setObj ?t ?f) ?k ?W] =>
      rewrite (bind_ok (SoundNode.setObj t f) k W tt _ eq_refl); cbv beta
  | |- context [bind (updNode ?i ?f) ?k ?W] =>
      rewrite (bind_ok (updNode i f) k W tt _ eq_refl); cbv beta
  | |- context [bind (connect ?a ?d) ?k ?W] =>
      rewrite (bind_ok (connect a d) k W tt _ eq_refl); cbv beta
  | |- context [bind (SoundNode.this_source ?t) ?k ?W] =>
      erewrite (bind_ok (SoundNode.this_source t) k W);
        [|eapply this_source_ok; [read_obj Ho|reflexivity]]; cbv beta
  | |- context [bind (SoundNode.this_filter ?t) ?k ?W] =>
      erewrite (bind_ok (SoundNode.this_filter t) k W);
        [|eapply this_filter_ok; [read_obj Ho|reflexivity]]; cbv beta
  | |- context [bind (SoundNode.this_lfo ?t) ?k ?W] =>
      erewrite (bind_ok (SoundNode.this_lfo t) k W);
        [|eapply this_lfo_ok; [read_obj Ho|reflexivity]]; cbv beta
  | |- context [bind (SoundNode.this_lfoGain ?t) ?k ?W] =>
      erewrite (bind_ok (SoundNode.this_lfoGain t) k W);
        [|eapply this_lfoGain_ok; [read_obj Ho|reflexivity]]; cbv beta
  | |- context [bind (startNode ?a) ?k ?W] =>
      erewrite (bind_ok (startNode a) k W);
        [|eapply startNode_ok; [read_node|reflexivity|reflexivity]];
        cbv beta
  | |- context [bind (bind ?m ?f) ?g ?W] =>
      rewrite (bind_assoc m f g W); cbv beta
  end.

Lemma createNoiseBuffer_ok w c :
  audioCtx w = Some c ->
  createNoiseBuffer w
  = (inr (Generators.createNoiseBuffer (sampleRate w) (rnd w) (rpos w)).1,
     set_rpos (Generators.createNoiseBuffer (sampleRate w) (rnd w)
                 (rpos w)).2 w).
Proof.
  intros Hc. unfold createNoiseBuffer, getCtx, bind, gets, modify, deref, ret.
  cbn. by rewrite Hc.
Qed.

Lemma createPinkNoiseBuffer_ok w c :
  audioCtx w = Some c ->
  createPinkNoiseBuffer w
  = (inr (Generators.createPinkNoiseBuffer (sampleRate w) (rnd w)
            (rpos w)).1,
     set_rpos (Generators.createPinkNoiseBuffer (sampleRate w) (rnd w)
                 (rpos w)).2 w).
Proof.
  intros Hc.
  unfold createPinkNoiseBuffer, getCtx, bind, gets, modify, deref, ret.
  cbn. by rewrite Hc.
Qed.

Lemma createImpulseBuffer_ok w c r :
  audioCtx w = Some c ->
  createImpulseBuffer r w
  = (inr (Generators.createImpulseBuffer (sampleRate w) (rnd w)
            (rpos w) r).1,
     set_rpos (Generators.createImpulseBuffer (sampleRate w) (rnd w)
                 (rpos w) r).2 w).
Proof.
  intros Hc.
  unfold createImpulseBuffer, getCtx, bind, gets, modify, deref, ret.
  cbn. by rewrite Hc.
Qed.

Ltac step_buffers Hc :=
  lazymatch goal with
  | |- context [bind createNoiseBuffer ?k ?W] =>
      rewrite (bind_ok _ k W _ _ (createNoiseBuffer_ok W _ Hc)); cbv beta
  | |- context [bind createPinkNoiseBuffer ?k ?W] =>
      rewrite (bind_ok _ k W _ _ (createPinkNoiseBuffer_ok W _ Hc)); cbv beta
  | |- context [bind (createImpulseBuffer ?r) ?k ?W] =>
      rewrite (bind_ok _ k W _ _ (createImpulseBuffer_ok W _ r Hc)); cbv beta
  end.

(** Runs the calls of a computation one after the other, on a world whose
    record has been opened; [Hc] and [Ho] say that the context and the
    object exist. *)
Ltac steps Hc Ho :=
  unfold createBiquadFilter, createOscillator, createGain,
    createBufferSource;
  repeat (first [step Hc Ho | step_buffers Hc]; simpl_world; heap_norm).

Lemma start_unfold w this o :
  objs w !! this = Some o -> Obj.isPlaying o = false ->
  SoundNode.start this w
  = bind (SoundNode.start_source this (Obj.config o))
      (fun _ => bind (SoundNode.start_chain this (Obj.config o))
                  (fun out => SoundNode.start_finish this out)) w.
Proof.
  intros Ho Hp. unfold SoundNode.start.
  by rewrite (bind_ok _ _ _ _ _ (getObj_ok _ _ _ Ho)), Hp.
Qed.

(** Without amplitude modulation the creation of the source returns. *)
Lemma start_source_ok w this c cfg :
  alive this c w ->
  Profile.prop_is (Profile.modulation cfg) "pulse" = false ->
  exists w1, SoundNode.start_source this cfg w = (inr tt, w1)
             /\ alive this c w1.
Proof.
  intros [Hc [o Ho]] Hm. unfold SoundNode.start_source. rewrite Hm.
  destruct w; cbn in Hc, Ho.
  repeat match goal with
         | |- context [if ?b then _ else _] => destruct b
         end.
  all: steps Hc Ho.
  all: eexists; split; [reflexivity|].
  all: split; [exact Hc|]; cbn; rewrite ?list_lookup_alter_eq, Ho; by eauto.
Qed.

Lemma start_source_impulse w this o c cfg :
  objs w !! this = Some o -> audioCtx w = Some c ->
  Profile.type cfg = "impulse" ->
  source_buffer this
    (Generators.createImpulseBuffer (sampleRate w) (rnd w) (rpos w)
       (Profile.or_num (Profile.rate cfg) 5)).1
    (SoundNode.start_source this cfg w).2.
Proof.
  intros Ho Hc Ht. unfold SoundNode.start_source. rewrite Ht.
  cbn [String.eqb Ascii.eqb Bool.eqb].
  destruct w; cbn in Hc, Ho.
  steps Hc Ho.
  eexists _, (length nodes0), _. cbn. heap_norm. rewrite Ho. cbn.
  repeat split.
Qed.

Ltac chain_wired this Hc Ho Hf Hm nodes0 :=
  unfold SoundNode.start_chain; rewrite Hf;
  unfold SoundNode.is_pulse, SoundNode.start_cutoff_lfo,
    SoundNode.start_filter_kind;
  rewrite Hm;
  cbn [Profile.prop_is String.eqb Ascii.eqb Bool.eqb andb];
  repeat match goal with
         | |- context [if ?b then _ else _] => destruct b
         end;
  let tail := fresh "tail" in
  let Htail := fresh "Htail" in
  match goal with
  | |- context [bind (bind (SoundNode.this_source this) ?k1) ?k2] =>
      remember (bind (bind (SoundNode.this_source this) k1) k2) as tail
        eqn:Htail
  end;
  steps Hc Ho;
  rewrite Htail; apply chain_tail_wired;
  eexists _, (length nodes0), (length nodes0 + 1)%nat,
    (length nodes0 + 2)%nat, _, _, _;
  cbn; heap_norm; rewrite Ho; cbn;
  rewrite !elem_of_add_edge;
  repeat split; try done; try tauto;
  by intros b [= <-].

Lemma chain_ocean w this c cfg :
  alive this c w ->
  Profile.truthy (Profile.filter cfg) = true ->
  Profile.modulation cfg = Some "ocean" ->
  cutoff_wired this "sine" 0.1 300 (Some 300)
    (SoundNode.start_chain this cfg w).2.
Proof.
  intros [Hc [o Ho]] Hf Hm. destruct w; cbn in Hc, Ho.
  chain_wired this Hc Ho Hf Hm nodes0.
Qed.

Lemma chain_flicker w this c cfg :
  alive this c w ->
  Profile.truthy (Profile.filter cfg) = true ->
  Profile.modulation cfg = Some "flicker" ->
  cutoff_wired this "sine" 15 100 None
    (SoundNode.start_chain this cfg w).2.
Proof.
  intros [Hc [o Ho]] Hf Hm. destruct w; cbn in Hc, Ho.
  chain_wired this Hc Ho Hf Hm nodes0.
Qed.

Lemma chain_rhythm w this c cfg :
  alive this c w ->
  Profile.truthy (Profile.filter cfg) = true ->
  Profile.modulation cfg = Some "rhythm" ->
  cutoff_wired this "sawtooth" 4 200 None
    (SoundNode.start_chain this cfg w).2.
Proof.
  intros [Hc [o Ho]] Hf Hm. destruct w; cbn in Hc, Ho.
  chain_wired this Hc Ho Hf Hm nodes0.
Qed.

(** The wiring survives the rest of [start]. *)
Lemma start_wired w this o c wave rate depth base :
  objs w !! this = Some o -> Obj.isPlaying o = false ->
  audioCtx w = Some c ->
  Profile.prop_is (Profile.modulation (Obj.config o)) "pulse" = false ->
  (forall w1, alive this c w1 ->
     cutoff_wired this wave rate depth base
       (SoundNode.start_chain this (Obj.config o) w1).2) ->
  cutoff_wired this wave rate depth base (SoundNode.start this w).2.
Proof.
  intros Ho Hp Hc Hm Hchain. rewrite (start_unfold _ _ _ Ho Hp).
  destruct (start_source_ok w this c (Obj.config o)) as (w1 & E1 & Ha1);
    [by split; eauto|done|].
  rewrite (bind_ok _ _ _ _ _ E1).
  apply run_bind_pres; [by apply Hchain|].
  intros out. apply start_finish_wired.
Qed.

End StartFacts.



(** C7.  [start] on a node that is not Idle (its flag [isPlaying] is set:
    Playing, or Stopping while the teardown is pending) returns at once
    and leaves the world as it was; two calls in a row do what one call
    does, from any state. *)
Theorem C7_start_idempotent (w : World) (this : nat) :
  (forall l, UI.lifecycle w this = Some l -> l <> UI.Idle ->
             SoundNode.start this w = (inr tt, w))
  /\ bind (SoundNode.start this) (fun _ => SoundNode.start this) w
     = SoundNode.start this w.
Proof.
  split.
  - intros l Hl Hne.
    destruct (MonadFacts.lifecycle_not_idle w this l Hl Hne) as (o & Ho & Hp).
    by apply MonadFacts.start_playing_noop with o.
  - destruct (SoundNode.start this w) as [[e|[]] w'] eqn:E.
    + by apply MonadFacts.bind_throw.
    + rewrite (MonadFacts.bind_ok _ _ _ _ _ E).
      destruct (MonadFacts.start_ok_playing _ _ _ E) as (o' & Ho' & Hp').
      by apply MonadFacts.start_playing_noop with o'.
Qed.


(** * The page *)

Module PageFacts.
Import MonadFacts.

Lemma initAudio_spec w :
  audioCtx w = None ->
  exists w1 c a,
    initAudio w = (inr tt, w1) /\ audioCtx w1 = Some c /\
    state c = Running /\ analyser w1 = Some a.
Proof.
  intros Hc. unfold initAudio, createAnalyser, alloc, getCtx, updNode, connect.
  unfold bind, gets, modify, ret, deref, throw. cbn. rewrite Hc. cbn.
  destruct (initialState w); cbn; eauto 10.
Qed.

Ltac engine_leaf :=
  let w := fresh "w" in
  let H := fresh "H" in
  intros w H; destruct H; try case_bool_decide; by split.

(** Nothing that a click runs after [initAudio] writes the globals. *)
Lemma click_rest_engine c a (sound : Profile.Config) :
  preserves (engine_is c a)
    (bind (UI.toggleActive (Profile.id sound)) (fun _ =>
     bind (gets (UI.activeSound (Profile.id sound))) (fun r =>
     bind (if bool_decide (r = None) then
             bind (SoundNode.new sound) (fun this =>
               modify (fun w => set_activeSounds
                         (<[Profile.id sound := Some this]> (activeSounds w)) w))
           else ret tt) (fun _ =>
     bind (gets (fun w => bool_decide (Profile.id sound ∈ activeCards w)))
       (fun active =>
          if active then
            bind (UI.receiver (Profile.id sound)) (fun this =>
            bind (SoundNode.start this) (fun _ =>
            bind (UI.receiver (Profile.id sound)) (fun this =>
            bind (gets (UI.sliderValue (Profile.id sound))) (fun v =>
            SoundNode.setVolume this v))))
          else
            bind (UI.receiver (Profile.id sound)) (fun this =>
            bind (SoundNode.stop this) (fun _ =>
            setTimeout (Cleanup (Profile.id sound)) 200))))))).
Proof.
  unfold UI.toggleActive, UI.receiver. unfold_engine.
  pres_split; engine_leaf.
Qed.

Lemma returned {A} (r : (Exn + A) * World) (a : A) :
  r.1 = inr a -> r = (inr a, r.2).
Proof. destruct r as [x w]. cbn. by intros ->. Defined.

Lemma restart_lost_all sr st rnd :
  forallb (Scenario.restart_lost sr st rnd) Profile.sounds = true.
Proof. destruct st; vm_compute; reflexivity. Qed.

Lemma first_click_plays_all sr st rnd :
  forallb (Scenario.first_click_plays sr st rnd) Profile.sounds = true.
Proof. destruct st; vm_compute; reflexivity. Qed.

End PageFacts.

(** * The claims about the lifecycle *)

(** C1.  On a freshly loaded page, for every profile of the table, three
    clicks in a row on its card (on, off, on again within the 150 ms of
    the teardown) leave the card active and no running source attached to
    the mix bus: the second [start] returned at once because [isPlaying]
    was still set, and the teardown of the [stop] then silenced the only
    graph.  After the first click there was one graph, for every profile
    but the periodic one. *)
Theorem C1_restart_is_lost (sr : nat) (st : CtxState) (rnd : nat -> Q) :
  Forall (fun cfg =>
            let w1 := UI.run (UI.click cfg) (UI.boot sr st rnd) in
            let w := Scenario.restart cfg (UI.boot sr st rnd) in
            (Profile.type cfg <> "periodic" ->
             length <$> UI.live_graphs w1 (Profile.id cfg) = Some 1%nat)
            /\ Profile.id cfg ∈ activeCards w
            /\ UI.live_graphs w (Profile.id cfg) = Some [])
         Profile.sounds.
Proof.
  apply List.Forall_forall. intros cfg Hin. cbv zeta.
  pose proof (PageFacts.restart_lost_all sr st rnd) as H.
  rewrite forallb_forall in H. specialize (H cfg Hin).
  unfold Scenario.restart_lost in H. cbv zeta in H.
  apply andb_prop in H as [H H3]. apply andb_prop in H as [H1 H2].
  apply bool_decide_eq_true_1 in H1, H2, H3. done.
Qed.

(** C2.  For the amplitude-pulse profile, one [start] leaves two started
    square-wave modulators, each driving the gain of its own coupling
    stage; the node only remembers the second, so that after [stop] and
    the teardown the first one still runs. *)
Theorem C2_pulse_starts_two_modulators (sr : nat) (st : CtxState)
    (rnd : nat -> Q) :
  let w := UI.run (UI.click Profile.crickets) (UI.boot sr st rnd) in
  let w' := Scenario.play_then_stop Profile.crickets (UI.boot sr st rnd) in
  UI.live_modulators w = [4; 8]%nat
  /\ (fun n => (kind n, ntype n)) <$> nodes w !! 4%nat
     = Some (Oscillator, "square")
  /\ (fun n => (kind n, ntype n)) <$> nodes w !! 8%nat
     = Some (Oscillator, "square")
  /\ (4%nat, ToParam 6 "gain") ∈ edges w
  /\ (8%nat, ToParam 7 "gain") ∈ edges w
  /\ Obj.lfo <$> objs w !! 0%nat = Some (Some 8%nat)
  /\ UI.live_modulators w' = [4]%nat.
Proof.
  destruct st; repeat split; try (vm_compute; reflexivity).
  all: apply (bool_decide_unpack _); vm_compute; exact I.
Qed.

(** C3 as worded fails on the rain profile: once [start], [stop] and the
    teardown have run, the node is Idle but its gain stage is still an
    input of the mix bus. *)
Lemma C3_counterexample :
  let w := Scenario.start_stop 0 (Scenario.fresh Profile.rain Scenario.page) in
  UI.lifecycle w 0 = Some UI.Idle
  /\ ~ (UI.bus_inputs w = [] /\ UI.lifecycle w 0 = Some UI.Idle).
Proof.
  assert (H : forall sr rnd,
    let w := Scenario.start_stop 0
               (Scenario.fresh Profile.rain (UI.boot sr Suspended rnd)) in
    UI.lifecycle w 0 = Some UI.Idle /\ UI.bus_inputs w = [2%nat]).
  { intros sr rnd. split; vm_compute; reflexivity. }
  destruct (H (441 * 100)%nat Scenario.rnd0) as [H1 H2].
  split; [exact H1|]. intros [H3 _].
  change (UI.bus_inputs
            (Scenario.start_stop 0
               (Scenario.fresh Profile.rain
                  (UI.boot (441 * 100) Suspended Scenario.rnd0))) = [])
    in H3.
  rewrite H2 in H3. discriminate.
Qed.

(** C5, as amended.  [setVolume(v)] validates nothing: for every [v] and
    in every lifecycle state it returns normally, records [v] as the
    target of the node's gain with a time constant of 0.1 s starting at
    the current time, and changes nothing else. *)
Theorem C5_setVolume_sets_any_target (w : World) (this : nat)
    (o : Obj.SoundNode) (c : Context) (g : AudioNode) (v : Q) :
  objs w !! this = Some o ->
  audioCtx w = Some c ->
  nodes w !! Obj.gainNode o = Some g ->
  exists w',
    SoundNode.setVolume this v w = (inr tt, w')
    /\ nodes w' !! Obj.gainNode o
       = Some (push_event (v, inject_Z (Z.of_nat (now w)) / 1000, 0.1) g)
    /\ (forall i, i <> Obj.gainNode o -> nodes w' !! i = nodes w !! i)
    /\ objs w' = objs w /\ edges w' = edges w /\ timers w' = timers w.
Proof.
  intros Ho Hc Hg. eexists. split.
  - by apply MonadFacts.setVolume_spec with c.
  - cbn. rewrite list_lookup_alter_eq, Hg. repeat split; try done.
    intros i Hi. by rewrite list_lookup_alter_ne.
Qed.

Lemma C5_setVolume_sets_any_target_witness :
  let w := Scenario.fresh Profile.drone Scenario.page in
  exists w', SoundNode.setVolume 0 (4 # 5) w = (inr tt, w').
Proof.
  cbv zeta.
  destruct (C5_setVolume_sets_any_target
              (Scenario.fresh Profile.drone Scenario.page) 0
              (Obj.mkSoundNode Profile.drone 2 None None None None false)
              (mkContext Running 0) (with_gain 0.5 newGain) (4 # 5))
    as (w' & H & _).
  - vm_compute. reflexivity.
  - vm_compute. reflexivity.
  - vm_compute. reflexivity.
  - exists w'. exact H.
Defined.

(** C5 as worded fails: a volume of 2 is not rejected. *)
Lemma C5_counterexample :
  ~ (forall (w : World) (this : nat) (o : Obj.SoundNode) (c : Context)
            (v : Q),
       objs w !! this = Some o -> audioCtx w = Some c ->
       ~ (0 <= v <= 1) ->
       exists e, SoundNode.setVolume this v w = (inl e, w)).
Proof.
  intros H.
  destruct (H (Scenario.fresh Profile.drone Scenario.page) 0%nat
              (Obj.mkSoundNode Profile.drone 2 None None None None false)
              (mkContext Running 0) 2) as (e & He).
  - vm_compute. reflexivity.
  - vm_compute. reflexivity.
  - intros [_ H2]. apply H2. reflexivity.
  - rewrite (MonadFacts.setVolume_spec _ _
               (Obj.mkSoundNode Profile.drone 2 None None None None false)
               (mkContext Running 0)) in He.
    + discriminate.
    + vm_compute. reflexivity.
    + vm_compute. reflexivity.
Qed.

(** C6, as amended.  A click on a card whose page has no audio context
    yet does not fail for want of one: the handler itself calls
    [initAudio], after which the context exists and runs and the analyser
    exists; on a freshly loaded page the click then returns with the node
    playing, for every profile of the table but the periodic one. *)
Theorem C6_click_initialises_engine (w : World) (sound : Profile.Config)
    (sr : nat) (st : CtxState) (rnd : nat -> Q) :
  (audioCtx w = None ->
   exists c a, audioCtx (UI.click sound w).2 = Some c /\ state c = Running
               /\ analyser (UI.click sound w).2 = Some a)
  /\ Forall (fun cfg =>
               Profile.type cfg <> "periodic" ->
               (UI.click cfg (UI.boot sr st rnd)).1 = inr tt
               /\ UI.lifecycle (UI.click cfg (UI.boot sr st rnd)).2 0
                  = Some UI.Playing)
            Profile.sounds.
Proof.
  split.
  - intros Hc.
    destruct (PageFacts.initAudio_spec w Hc) as (w1 & c & a & E & Hc1 & Hs & Ha1).
    exists c, a. unfold UI.click. cbv zeta.
    rewrite (MonadFacts.bind_ok _ _ _ _ _ E).
    destruct (PageFacts.click_rest_engine (Some c) (Some a) sound w1
                (conj Hc1 Ha1)) as [H1 H2].
    by rewrite H1, H2.
  - apply List.Forall_forall. intros cfg Hin.
    pose proof (PageFacts.first_click_plays_all sr st rnd) as H.
    rewrite forallb_forall in H. specialize (H cfg Hin).
    unfold Scenario.first_click_plays in H. cbv zeta in H.
    by apply bool_decide_eq_true_1 in H.
Qed.

Lemma C6_click_initialises_engine_witness :
  audioCtx Scenario.page = None /\
  exists c a,
    audioCtx (UI.click Profile.drone Scenario.page).2 = Some c
    /\ state c = Running
    /\ analyser (UI.click Profile.drone Scenario.page).2 = Some a.
Proof.
  assert (H : audioCtx Scenario.page = None) by (vm_compute; reflexivity).
  split; [exact H|].
  exact (proj1 (C6_click_initialises_engine Scenario.page Profile.drone
                  0 Running Scenario.rnd0) H).
Defined.

(** C6 as worded fails: on a page without audio context a click on the
    drone card returns normally and leaves a context behind. *)
Lemma C6_counterexample :
  ~ (forall (w : World) (sound : Profile.Config),
       audioCtx w = None ->
       (exists e, (UI.click sound w).1 = inl e)
       /\ audioCtx (UI.click sound w).2 = None).
Proof.
  intros H.
  assert (Hc : audioCtx Scenario.page = None) by (vm_compute; reflexivity).
  destruct (H Scenario.page Profile.drone Hc) as [[e He] _].
  vm_compute in He. discriminate.
Qed.

Lemma C7_start_idempotent_witness :
  let w := (SoundNode.start 0 (Scenario.fresh Profile.drone Scenario.page)).2 in
  UI.lifecycle w 0 = Some UI.Playing /\ SoundNode.start 0 w = (inr tt, w).
Proof.
  cbv zeta.
  assert (H : UI.lifecycle
                (SoundNode.start 0
                   (Scenario.fresh Profile.drone Scenario.page)).2 0
              = Some UI.Playing) by (vm_compute; reflexivity).
  split; [exact H|].
  apply (proj1 (C7_start_idempotent _ 0) UI.Playing H). discriminate.
Defined.

(** C8.  Every profile of the table whose modulation targets the cutoff
    has a filter; and for a node with a filter, [start] leaves a started
    oscillator connected to a gain that is connected to the [frequency]
    parameter of the node's filter, with: for [ocean] (slow sweep) the
    default sine at 0.1 Hz, gain 300 and the cutoff itself set to 300;
    for [flicker] the default sine at 15 Hz and gain 100; for [rhythm] a
    sawtooth at 4 Hz and gain 200. *)
Theorem C8_cutoff_modulation (w : World) (this : nat) (o : Obj.SoundNode)
    (c : Context) :
  objs w !! this = Some o ->
  Obj.isPlaying o = false ->
  audioCtx w = Some c ->
  Profile.truthy (Profile.filter (Obj.config o)) = true ->
  let m := Profile.modulation (Obj.config o) in
  let w' := (SoundNode.start this w).2 in
  (m = Some "ocean" -> cutoff_wired this "sine" 0.1 300 (Some 300) w')
  /\ (m = Some "flicker" -> cutoff_wired this "sine" 15 100 None w')
  /\ (m = Some "rhythm" -> cutoff_wired this "sawtooth" 4 200 None w')
  /\ Forall (fun cfg =>
               Profile.modulation cfg
                 ∈ [Some "ocean"; Some "flicker"; Some "rhythm"] ->
               Profile.truthy (Profile.filter cfg) = true)
            Profile.sounds.
Proof.
  intros Ho Hp Hc Hf m w'. subst m w'.
  repeat split.
  - intros Hm. apply (StartFacts.start_wired w this o c); try done.
    + by rewrite Hm.
    + intros w1 H1. by apply (StartFacts.chain_ocean w1 this c).
  - intros Hm. apply (StartFacts.start_wired w this o c); try done.
    + by rewrite Hm.
    + intros w1 H1. by apply (StartFacts.chain_flicker w1 this c).
  - intros Hm. apply (StartFacts.start_wired w this o c); try done.
    + by rewrite Hm.
    + intros w1 H1. by apply (StartFacts.chain_rhythm w1 this c).
  - apply List.Forall_forall. intros cfg Hin Hm.
    unfold Profile.sounds in Hin. cbn [In] in Hin.
    repeat (destruct Hin as [<-|Hin];
            [first [ vm_compute; reflexivity
                   | exfalso; apply (bool_decide_pack _) in Hm;
                     vm_compute in Hm; exact Hm ]|]).
    destruct Hin.
Qed.

Lemma C8_cutoff_modulation_witness :
  cutoff_wired 0 "sine" 0.1 300 (Some 300)
    (SoundNode.start 0 (Scenario.fresh Profile.ocean Scenario.page)).2.
Proof.
  set (w := Scenario.fresh Profile.ocean Scenario.page).
  set (o := Obj.mkSoundNode Profile.ocean 2 None None None None false).
  assert (H1 : objs w !! 0%nat = Some o) by (vm_compute; reflexivity).
  assert (H3 : audioCtx w = Some (mkContext Running 0))
    by (vm_compute; reflexivity).
  assert (H4 : Profile.truthy (Profile.filter (Obj.config o)) = true)
    by reflexivity.
  exact (proj1 (C8_cutoff_modulation w 0 o (mkContext Running 0)
                  H1 eq_refl H3 H4) eq_refl).
Defined.

(** C10.  For a profile of type [impulse] whose [rate] is absent or zero,
    [start] gives the source the looping buffer that
    [createImpulseBuffer(5)] builds at that moment: four seconds of
    samples that hold the twenty pops of passes 0 to 19 at the positions
    drawn for them (a pop is replaced only by a later pop that draws the
    same position) and silence everywhere else. *)
Theorem C10_default_impulse_rate (w : World) (this : nat)
    (o : Obj.SoundNode) (c : Context) :
  objs w !! this = Some o ->
  Obj.isPlaying o = false ->
  audioCtx w = Some c ->
  Profile.type (Obj.config o) = "impulse" ->
  (Profile.rate (Obj.config o) = None
   \/ exists q, Profile.rate (Obj.config o) = Some q /\ q == 0) ->
  let b := (Generators.createImpulseBuffer (sampleRate w) (rnd w) (rpos w)
              5).1 in
  let pos := fun j : nat =>
    Generators.pop_index (rnd w) (sampleRate w * 4) (rpos w + 2 * j) in
  source_buffer this b (SoundNode.start this w).2
  /\ length b = (sampleRate w * 4)%nat
  /\ (forall j, (j < 20)%nat ->
        (0 <= pos j < Z.of_nat (sampleRate w * 4))%Z ->
        (forall j', (j < j' < 20)%nat -> pos j' <> pos j) ->
        b !! Z.to_nat (pos j)
        = Some (Generators.pop_amp (rnd w) (rpos w + 2 * j)))
  /\ (forall i x, b !! i = Some x -> ~ x == 0 ->
        exists j, (j < 20)%nat /\ pos j = Z.of_nat i)
  /\ ((0 < sampleRate w)%nat -> (forall k, 0 <= rnd w k < 1) ->
      forall j, (0 <= pos j < Z.of_nat (sampleRate w * 4))%Z).
Proof.
  intros Ho Hp Hc Ht Hr b pos.
  assert (Htrips : Generators.trips (5 * 4) = 20%nat) by (by vm_compute).
  split; [|split; [|split; [|split]]].
  - assert (Hrate : Profile.or_num (Profile.rate (Obj.config o)) 5 = 5).
    { destruct Hr as [->|(q & -> & Hq)]; [done|]. cbn.
      apply Qeq_bool_iff in Hq. by rewrite Hq. }
    rewrite (StartFacts.start_unfold _ _ _ Ho Hp).
    apply StartFacts.run_bind_pres.
    + pose proof (StartFacts.start_source_impulse w this o c (Obj.config o)
                    Ho Hc Ht) as H.
      by rewrite Hrate in H.
    + intros _. apply MonadFacts.preserves_bind.
      * apply StartFacts.start_chain_source_buffer.
      * intros out. apply StartFacts.start_finish_source_buffer.
  - subst b. unfold Generators.createImpulseBuffer. cbv zeta.
    rewrite GeneratorFacts.impulse_loop_length. apply length_replicate.
  - intros j Hj Hin Hlast. subst b pos.
    unfold Generators.createImpulseBuffer. cbv zeta. rewrite Htrips.
    apply GeneratorFacts.impulse_loop_write; [done| |done].
    unfold Generators.createBuffer. by rewrite length_replicate.
  - intros i x Hx Hnz. subst b pos.
    unfold Generators.createImpulseBuffer in Hx. cbv zeta in Hx.
    rewrite Htrips in Hx.
    apply GeneratorFacts.impulse_loop_support in Hx as [Hx|Hx].
    + exfalso. apply Hnz.
      apply lookup_replicate in Hx as [-> _]. reflexivity.
    + rewrite GeneratorFacts.positions_seq in Hx.
      apply list_elem_of_fmap in Hx as (j & E & Hin).
      apply elem_of_seq in Hin. exists j. split; [lia|done].
  - intros Hsr Hrnd j. subst pos.
    apply GeneratorFacts.pop_index_range; [done|lia].
Qed.

Lemma C10_default_impulse_rate_witness :
  let w := Scenario.fresh Scenario.pops Scenario.page in
  source_buffer 0
    (Generators.createImpulseBuffer (sampleRate w) (rnd w) (rpos w) 5).1
    (SoundNode.start 0 w).2.
Proof.
  cbv zeta.
  set (w := Scenario.fresh Scenario.pops Scenario.page).
  set (o := Obj.mkSoundNode Scenario.pops 2 None None None None false).
  assert (H1 : objs w !! 0%nat = Some o) by (vm_compute; reflexivity).
  assert (H3 : audioCtx w = Some (mkContext Running 0))
    by (vm_compute; reflexivity).
  exact (proj1 (C10_default_impulse_rate w 0 o (mkContext Running 0)
                  H1 eq_refl H3 eq_refl (or_introl eq_refl))).
Defined.


(** * Further facts about the generators *)

Module RangeFacts.
Import Generators Range.

Lemma white_range rnd p i :
  (forall k, 0 <= rnd k < 1) -> -1 <= white rnd p i < 1.
Proof. intros H. unfold white. destruct (H (p + i)%nat). split; lra. Qed.

Lemma noise_loop_spec rnd k : forall i p data,
  length data = (i + k)%nat ->
  length (noise_loop rnd k i p data).1 = length data
  /\ (noise_loop rnd k i p data).2 = (p + k)%nat
  /\ (forall j, (j < i)%nat -> (noise_loop rnd k i p data).1 !! j = data !! j)
  /\ (forall j, (j < k)%nat ->
        (noise_loop rnd k i p data).1 !! (i + j)%nat
        = Some (fround (white rnd p j))).
Proof.
  induction k as [|k IH]; intros i p data Hlen.
  - cbn. repeat split; try done; try lia.
  - cbn [noise_loop].
    destruct (IH (S i) (S p) (<[i:=fround (rnd p * 2 - 1)]> data))
      as (H1 & H2 & H3 & H4).
    { rewrite length_insert. lia. }
    rewrite length_insert in H1. repeat split.
    + done.
    + lia.
    + intros j Hj. rewrite H3 by lia. by rewrite list_lookup_insert_ne by lia.
    + intros j Hj. destruct j as [|j].
      * rewrite Nat.add_0_r, H3 by lia.
        rewrite list_lookup_insert_eq by lia.
        unfold white. by rewrite Nat.add_0_r.
      * replace (i + S j)%nat with (S i + j)%nat by lia.
        rewrite H4 by lia. unfold white.
        by replace (S p + j)%nat with (p + S j)%nat by lia.
Qed.

Lemma Qabs_le_iff x y : Qabs x <= y <-> - y <= x <= y.
Proof. apply Qabs_Qle_condition. Qed.

Lemma pink_body_bounded w st :
  -1 <= w <= 1 -> pink_bounded st ->
  pink_bounded (pink_body w st).1 /\ Qabs (pink_body w st).2 <= 7.61.
Proof.
  intros Hw (H0 & H1 & H2 & H3 & H4 & H5 & H6).
  rewrite Qabs_le_iff in H0, H1, H2, H3, H4, H5, H6.
  unfold pink_bounded. cbn [pink_body fst snd b0 b1 b2 b3 b4 b5 b6].
  rewrite !Qabs_le_iff.
  repeat split; lra.
Qed.

Lemma pink_states_bounded rnd p n :
  (forall k, 0 <= rnd k < 1) -> pink_bounded (pink_states rnd p n).
Proof.
  intros H. induction n as [|n IH].
  - unfold pink_bounded, pink_zero.
    cbn [pink_states pink_zero b0 b1 b2 b3 b4 b5 b6].
    rewrite !Qabs_le_iff. repeat split; lra.
  - cbn [pink_states]. apply pink_body_bounded; [|done].
    destruct (white_range rnd p n H). split; lra.
Qed.

Lemma pink_loop_draws rnd k : forall i p st data,
  (pink_loop rnd k i p st data).2 = (p + k)%nat.
Proof.
  induction k as [|k IH]; intros i p st data; [cbn; lia|].
  cbn [pink_loop]. destruct (pink_body _ st) as [st' d]. rewrite IH. lia.
Qed.

Lemma impulse_loop_draws rnd n k : forall p data,
  (impulse_loop rnd n k p data).2 = (p + 2 * k)%nat.
Proof.
  induction k as [|k IH]; intros p data; [cbn; lia|].
  cbn [impulse_loop]. rewrite IH. lia.
Qed.

Lemma loud_sample sr :
  (14 <= sr)%nat ->
  exists y, (Generators.createPinkNoiseBuffer sr loud 0).1 !! 27%nat = Some y
            /\ 1 < y.
Proof.
  intros Hsr. exists (pink_out loud 0 27). split.
  - apply GeneratorFacts.createPinkNoiseBuffer_lookup. lia.
  - vm_cast_no_check (eq_refl Lt).
Qed.

End RangeFacts.

(** X1.  [createNoiseBuffer] returns two seconds of samples and makes one
    call of [Math.random] per sample: sample [i] is twice the [i]-th draw
    minus one, as the [Float32Array] rounds it.  With draws in [0, 1)
    every sample lies in [-1, 1], and the upper end is reached: a draw of
    [1 - 2 ^ -26] is stored as 1. *)
Theorem X1_white_noise_buffer (sr : nat) (rnd : nat -> Q) (p i : nat) :
  (forall k, 0 <= rnd k < 1) ->
  (i < sr * 2)%nat ->
  length (Generators.createNoiseBuffer sr rnd p).1 = (sr * 2)%nat
  /\ (Generators.createNoiseBuffer sr rnd p).2 = (p + sr * 2)%nat
  /\ (Generators.createNoiseBuffer sr rnd p).1 !! i
     = Some (fround (rnd (p + i)%nat * 2 - 1))
  /\ -1 <= fround (rnd (p + i)%nat * 2 - 1) <= 1
  /\ (0 <= 1 - (1 # 67108864) < 1
      /\ fround ((1 - (1 # 67108864)) * 2 - 1) == 1).
Proof.
  intros Hrnd Hi. unfold Generators.createNoiseBuffer. cbv zeta.
  destruct (RangeFacts.noise_loop_spec rnd (sr * 2) 0 p
              (createBuffer (sr * 2))) as (H1 & H2 & _ & H4).
  { unfold createBuffer. by rewrite length_replicate. }
  split; [|split; [|split; [|split]]].
  - rewrite H1. unfold createBuffer. by rewrite length_replicate.
  - exact H2.
  - exact (H4 i Hi).
  - apply (RoundFacts.fround_range (-1) 1).
    + apply RoundFacts.fround_opp_one.
    + apply RoundFacts.fround_one.
    + destruct (RangeFacts.white_range rnd p i Hrnd). unfold white in *.
      split; lra.
  - split; [split; [discriminate|reflexivity]|].
    apply Qeq_bool_iff. by vm_compute.
Qed.

Lemma X1_white_noise_buffer_witness :
  (Generators.createNoiseBuffer 2 Scenario.rnd0 5).1 !! 3%nat
  = Some (fround (Scenario.rnd0 8 * 2 - 1)).
Proof.
  refine (proj1 (proj2 (proj2 (X1_white_noise_buffer 2 Scenario.rnd0 5 3 _ _)))).
  - intros k. unfold Scenario.rnd0, Qle, Qlt. cbn.
    pose proof (Nat.mod_upper_bound k 16). lia.
  - lia.
Defined.

(** X2.  [createPinkNoiseBuffer] makes one call of [Math.random] per
    sample, and with draws in [0, 1) no sample exceeds 7.61 in magnitude.
    The factor 0.11 does not keep the samples within [-1, 1]: when every
    draw is 15/16, sample 27 is above 1. *)
Theorem X2_pink_noise_range (sr : nat) (rnd : nat -> Q) (p i : nat) (x : Q) :
  (forall k, 0 <= rnd k < 1) ->
  (Generators.createPinkNoiseBuffer sr rnd p).1 !! i = Some x ->
  Qabs x <= 7.61
  /\ (Generators.createPinkNoiseBuffer sr rnd p).2 = (p + sr * 2)%nat
  /\ ((14 <= sr)%nat ->
      (forall k, 0 <= Range.loud k < 1)
      /\ exists y,
           (Generators.createPinkNoiseBuffer sr Range.loud 0).1 !! 27%nat
           = Some y /\ 1 < y).
Proof.
  intros Hrnd Hx. split; [|split].
  - assert (Hi : (i < sr * 2)%nat).
    { apply lookup_lt_Some in Hx. unfold Generators.createPinkNoiseBuffer in Hx.
      cbv zeta in Hx. rewrite GeneratorFacts.pink_loop_length in Hx.
      unfold createBuffer in Hx. by rewrite length_replicate in Hx. }
    rewrite (GeneratorFacts.createPinkNoiseBuffer_lookup rnd p sr i Hi) in Hx.
    injection Hx as <-. unfold pink_out.
    apply RangeFacts.pink_body_bounded.
    + destruct (RangeFacts.white_range rnd p i Hrnd). split; lra.
    + by apply RangeFacts.pink_states_bounded.
  - unfold Generators.createPinkNoiseBuffer. cbv zeta.
    apply RangeFacts.pink_loop_draws.
  - intros Hsr. split; [by intros k|by apply RangeFacts.loud_sample].
Qed.

Lemma X2_pink_noise_range_witness :
  Qabs (pink_out Scenario.rnd0 0 3) <= 7.61.
Proof.
  refine (proj1 (X2_pink_noise_range 2 Scenario.rnd0 0 3 _ _ _)).
  - intros k. unfold Scenario.rnd0, Qle, Qlt. cbn.
    pose proof (Nat.mod_upper_bound k 16). lia.
  - apply (GeneratorFacts.createPinkNoiseBuffer_lookup Scenario.rnd0 0 2 3). lia.
Defined.

(** X19.  The generators read [audioCtx.sampleRate]: without an audio
    context each of them throws a [TypeError] before it draws anything.
    With a context, white and pink noise return two seconds of samples
    for two seconds' worth of draws, and the impulse train four seconds
    of samples for two draws per pop. *)
Theorem X19_generators_need_context (w : World) (rate : Q) :
  match audioCtx w with
  | None =>
      createNoiseBuffer w = (inl TypeError, w)
      /\ createPinkNoiseBuffer w = (inl TypeError, w)
      /\ createImpulseBuffer rate w = (inl TypeError, w)
  | Some _ =>
      (exists b, createNoiseBuffer w
                 = (inr b, set_rpos (rpos w + sampleRate w * 2) w)
                 /\ length b = (sampleRate w * 2)%nat)
      /\ (exists b, createPinkNoiseBuffer w
                    = (inr b, set_rpos (rpos w + sampleRate w * 2) w)
                    /\ length b = (sampleRate w * 2)%nat)
      /\ (exists b, createImpulseBuffer rate w
                    = (inr b,
                       set_rpos (rpos w + 2 * trips (rate * 4)) w)
                    /\ length b = (sampleRate w * 4)%nat)
  end.
Proof.
  destruct (audioCtx w) as [c|] eqn:Hc.
  - split; [|split]; eexists.
    + rewrite (StartFacts.createNoiseBuffer_ok w c Hc).
      destruct (RangeFacts.noise_loop_spec (rnd w) (sampleRate w * 2) 0
                  (rpos w) (createBuffer (sampleRate w * 2)))
        as (H1 & H2 & _).
      { unfold createBuffer. by rewrite length_replicate. }
      unfold Generators.createNoiseBuffer. cbv zeta.
      rewrite H2. split; [reflexivity|].
      rewrite H1. unfold createBuffer. by rewrite length_replicate.
    + rewrite (StartFacts.createPinkNoiseBuffer_ok w c Hc).
      unfold Generators.createPinkNoiseBuffer. cbv zeta.
      rewrite RangeFacts.pink_loop_draws. split; [reflexivity|].
      rewrite GeneratorFacts.pink_loop_length.
      unfold createBuffer. by rewrite length_replicate.
    + rewrite (StartFacts.createImpulseBuffer_ok w c rate Hc).
      unfold Generators.createImpulseBuffer. cbv zeta.
      rewrite RangeFacts.impulse_loop_draws. split; [reflexivity|].
      rewrite GeneratorFacts.impulse_loop_length.
      unfold createBuffer. by rewrite length_replicate.
  - unfold createNoiseBuffer, createPinkNoiseBuffer, createImpulseBuffer,
      getCtx, bind, gets, deref, throw. cbn. by rewrite Hc.
Qed.


(** * Further facts about the engine and the [SoundNode] methods *)

Module OpFacts.
Import MonadFacts.

Lemma initAudio_running w c :
  audioCtx w = Some c -> state c = Running -> initAudio w = (inr tt, w).
Proof.
  intros Hc Hs. destruct c as [st d]. cbn in Hs. subst st.
  unfold initAudio, getCtx. unfold bind, gets, ret, deref. cbn.
  by repeat (rewrite Hc; cbn).
Qed.

Lemma alter_id_ext {A} (f : A -> A) (i : nat) (l : list A) :
  (forall x, l !! i = Some x -> f x = x) -> alter f i l = l.
Proof.
  intros H. apply list_eq. intros j.
  destruct (decide (i = j)) as [<-|Hne].
  - rewrite list_lookup_alter_eq. destruct (l !! i) as [x|] eqn:E; [|done].
    cbn. by rewrite H.
  - by rewrite list_lookup_alter_ne.
Qed.

Lemma mark_stopped_facts n :
  schedulable (mark_stopped n) = schedulable n
  /\ started (mark_stopped n) = started n
  /\ mark_stopped (mark_stopped n) = mark_stopped n.
Proof. by destruct n. Qed.

Lemma stop_if_started_idem s ns :
  stop_if_started s (stop_if_started s ns) = stop_if_started s ns.
Proof.
  apply list_eq. intros a. rewrite !stop_if_started_lookup.
  destruct (ns !! a) as [n|]; [|done]. cbn. f_equal.
  destruct (mark_stopped_facts n) as (E1 & E2 & E3).
  destruct (bool_decide (a = s)); [|done]. cbn.
  destruct (schedulable n && started n) eqn:E; [|by rewrite E].
  by rewrite E1, E2, E, E3.
Qed.

Lemma stop_if_started_comm s l ns :
  stop_if_started s (stop_if_started l ns)
  = stop_if_started l (stop_if_started s ns).
Proof.
  apply list_eq. intros a. rewrite !stop_if_started_lookup.
  destruct (ns !! a) as [n|]; [|done]. cbn. f_equal.
  destruct (mark_stopped_facts n) as (E1 & E2 & E3).
  destruct (bool_decide (a = s)), (bool_decide (a = l)); cbn; try done.
  all: destruct (schedulable n && started n) eqn:E; by rewrite ?E1, ?E2, ?E.
Qed.

Lemma silence_idem x w : silence x (silence x w) = silence x w.
Proof.
  destruct x as [s|]; [|done]. destruct w.
  unfold silence, set_edges, set_nodes. cbn.
  rewrite stop_if_started_idem. f_equal.
  by rewrite list_filter_filter_l.
Qed.

Lemma silence_comm x y w : silence x (silence y w) = silence y (silence x w).
Proof.
  destruct x as [s|], y as [l|]; try done. destruct w.
  unfold silence, set_edges, set_nodes. cbn.
  rewrite (stop_if_started_comm s l). f_equal.
  rewrite !list_filter_filter. apply list_filter_iff. intros e. tauto.
Qed.

Lemma silence_set_objs x O w :
  silence x (set_objs O w) = set_objs O (silence x w).
Proof. by destruct x. Qed.

Lemma torn_down_idem this o w :
  torn_down this (Obj.with_isPlaying false o) (torn_down this o w)
  = torn_down this o w.
Proof.
  unfold torn_down. cbv zeta.
  change (Obj.source (Obj.with_isPlaying false o)) with (Obj.source o).
  change (Obj.lfo (Obj.with_isPlaying false o)) with (Obj.lfo o).
  rewrite !silence_set_objs.
  rewrite (silence_comm (Obj.source o) (Obj.lfo o)
             (silence (Obj.source o) w)).
  rewrite silence_idem, silence_idem.
  set (w2 := silence (Obj.lfo o) (silence (Obj.source o) w)).
  destruct w2. unfold set_objs. cbn. f_equal.
  apply alter_id_ext. intros x. rewrite list_lookup_alter_eq.
  destruct (objs0 !! this) as [y|]; [|done]. by intros [= <-].
Qed.

Lemma running_alter_ne w f g s :
  s <> g ->
  UI.running (set_nodes (alter f g (nodes w)) w) s = UI.running w s.
Proof. intros H. unfold UI.running. cbn. by rewrite list_lookup_alter_ne. Qed.

Ltac other_leaf :=
  let w := fresh "w" in
  let H := fresh "H" in
  intros w H; cbn; rewrite ?list_lookup_alter_ne by done; exact H.

Lemma start_other this other (x : option Obj.SoundNode) :
  other <> this ->
  preserves (fun w => objs w !! other = x) (SoundNode.start this).
Proof. intros Hne. unfold_engine. pres_split; other_leaf. Qed.

Lemma stop_other this other (x : option Obj.SoundNode) :
  other <> this ->
  preserves (fun w => objs w !! other = x) (SoundNode.stop this).
Proof. intros Hne. unfold_engine. pres_split; other_leaf. Qed.

Lemma setVolume_other this other v (x : option Obj.SoundNode) :
  other <> this ->
  preserves (fun w => objs w !! other = x) (SoundNode.setVolume this v).
Proof. intros Hne. unfold_engine. pres_split; other_leaf. Qed.

Lemma teardown_other this other (x : option Obj.SoundNode) :
  other <> this ->
  preserves (fun w => objs w !! other = x) (SoundNode.teardown this).
Proof. intros Hne. unfold_engine. pres_split; other_leaf. Qed.

(** [initAudio] in full. *)
Lemma initAudio_once (w : World) :
  exists w1 c,
    initAudio w = (inr tt, w1)
    /\ audioCtx w1 = Some c /\ state c = Running
    /\ initAudio w1 = (inr tt, w1)
    /\ match audioCtx w with
       | None =>
           let d := length (nodes w) in
           destination c = d /\ analyser w1 = Some (S d)
           /\ nodes w1
              = nodes w ++ [newDestination; with_fftSize 256 newAnalyser]
           /\ edges w1 = add_edge (S d, ToNode d) (edges w)
       | Some c0 =>
           destination c = destination c0 /\ analyser w1 = analyser w
           /\ nodes w1 = nodes w /\ edges w1 = edges w
       end
    /\ objs w1 = objs w /\ timers w1 = timers w
    /\ activeSounds w1 = activeSounds w.
Proof.
  destruct (audioCtx w) as [c0|] eqn:Hc.
  - destruct (state c0) eqn:Hs.
    + exists (set_audioCtx (Some (mkContext Running (destination c0))) w),
             (mkContext Running (destination c0)).
      split; [|split; [done|split; [done|split]]].
      * destruct c0 as [st d]. cbn in Hs. subst st.
        unfold initAudio, getCtx. unfold bind, gets, ret, deref, modify. cbn.
        by repeat (rewrite Hc; cbn).
      * by apply initAudio_running with (mkContext Running (destination c0)).
      * done.
    + exists w, c0.
      pose proof (initAudio_running w c0 Hc Hs) as H.
      by repeat split.
  - exists (set_edges
              (add_edge (S (length (nodes w)), ToNode (length (nodes w)))
                 (edges w))
              (set_nodes
                 (nodes w ++ [newDestination; with_fftSize 256 newAnalyser])
                 (set_analyser (Some (S (length (nodes w))))
                    (set_audioCtx
                       (Some (mkContext Running (length (nodes w)))) w)))),
           (mkContext Running (length (nodes w))).
    split; [|split; [done|split; [done|split]]].
    + unfold initAudio, createAnalyser, alloc, getCtx, updNode, connect.
      unfold bind, gets, modify, ret, deref, throw. cbn. rewrite Hc. cbn.
      destruct w; cbn. rewrite length_app, Nat.add_1_r. cbn.
      rewrite <- app_assoc. cbn.
      rewrite <- (Nat.add_1_r (length nodes0)), alter_app_r. cbn.
      destruct initialState0; cbn; reflexivity.
    + by apply initAudio_running
        with (mkContext Running (length (nodes w))).
    + done.
Qed.

End OpFacts.

(** X3.  [initAudio] never throws and leaves a running context.  When
    there was none it creates the destination and an analyser with
    [fftSize] 256 connected to it; when there was one it creates and
    connects nothing.  A second call changes nothing. *)
Theorem X3_initAudio_once (w : World) :
  exists w1 c,
    initAudio w = (inr tt, w1)
    /\ audioCtx w1 = Some c /\ state c = Running
    /\ initAudio w1 = (inr tt, w1)
    /\ match audioCtx w with
       | None =>
           let d := length (nodes w) in
           destination c = d /\ analyser w1 = Some (S d)
           /\ nodes w1
              = nodes w ++ [newDestination; with_fftSize 256 newAnalyser]
           /\ edges w1 = add_edge (S d, ToNode d) (edges w)
       | Some c0 =>
           destination c = destination c0 /\ analyser w1 = analyser w
           /\ nodes w1 = nodes w /\ edges w1 = edges w
       end
    /\ objs w1 = objs w /\ timers w1 = timers w
    /\ activeSounds w1 = activeSounds w.
Proof. exact (OpFacts.initAudio_once w). Qed.

(** X4.  [new SoundNode(config)] throws a [TypeError] and creates nothing
    while there is no audio context.  With a context it returns a new
    object that is Idle, holds no source, filter or modulator, and owns a
    new gain stage of value 0.5 that is not connected to anything. *)
Theorem X4_constructor (w : World) (cfg : Profile.Config) :
  match audioCtx w with
  | None => SoundNode.new cfg w = (inl TypeError, w)
  | Some _ =>
      let g := length (nodes w) in
      let this := length (objs w) in
      exists w1,
        SoundNode.new cfg w = (inr this, w1)
        /\ objs w1
           = objs w ++ [Obj.mkSoundNode cfg g None None None None false]
        /\ nodes w1 = nodes w ++ [with_gain 0.5 newGain]
        /\ edges w1 = edges w /\ timers w1 = timers w
        /\ UI.lifecycle w1 this = Some UI.Idle
  end.
Proof.
  destruct (audioCtx w) as [c|] eqn:Hc.
  - cbv zeta. unfold SoundNode.new, createGain.
    rewrite (MonadFacts.bind_ok _ _ _ _ _ (StartFacts.alloc_ok w c _ Hc)).
    unfold updNode, bind, modify, gets, ret. cbn.
    eexists. split; [reflexivity|]. cbn.
    rewrite StartFacts.alter_app_len. cbn.
    repeat split. unfold UI.lifecycle. cbn.
    by rewrite StartFacts.lookup_app_len.
  - unfold SoundNode.new, createGain, alloc, getCtx.
    unfold bind, gets, deref, throw. cbn. by rewrite Hc.
Qed.

(** X5.  [stop] on a node that is not playing does nothing.  On a playing
    node it returns at once after scheduling the fade (gain target 0,
    time constant 0.05 s) and one teardown 150 ms later: no source is
    stopped, no connection removed and [isPlaying] stays set, so the node
    is Stopping.  It is not idempotent there: a second [stop] before the
    teardown schedules a second teardown. *)
Theorem X5_stop_defers_teardown (w : World) (this : nat)
    (o : Obj.SoundNode) (c : Context) :
  objs w !! this = Some o ->
  audioCtx w = Some c ->
  let t := ((now w + 150)%nat, Teardown this) in
  let w1 := (SoundNode.stop this w).2 in
  (SoundNode.stop this w).1 = inr tt
  /\ (Obj.isPlaying o = false -> w1 = w)
  /\ (Obj.isPlaying o = true ->
      timers w1 = timers w ++ [t]
      /\ nodes w1
         = alter (push_event (0, inject_Z (Z.of_nat (now w)) / 1000, 0.05))
                 (Obj.gainNode o) (nodes w)
      /\ edges w1 = edges w /\ objs w1 = objs w
      /\ UI.lifecycle w1 this = Some UI.Stopping
      /\ (forall s, s <> Obj.gainNode o -> UI.running w1 s = UI.running w s)
      /\ timers (SoundNode.stop this w1).2 = timers w ++ [t; t]).
Proof.
  intros Ho Hc t w1. subst t w1.
  destruct (Obj.isPlaying o) eqn:Hp.
  - rewrite (MonadFacts.stop_spec w this o c Ho Hp Hc). cbn [fst snd].
    split; [done|]. split; [done|]. intros _.
    repeat split.
    + unfold UI.lifecycle. cbn. rewrite Ho, Hp.
      rewrite bool_decide_eq_true_2; [done|].
      apply Exists_app. right. by constructor.
    + intros s Hs. by apply OpFacts.running_alter_ne.
    + rewrite (MonadFacts.stop_spec (stopping this o w) this o c Ho Hp Hc).
      cbn. by rewrite <- app_assoc.
  - rewrite (MonadFacts.stop_idle_noop w this o Ho Hp). cbn [fst snd].
    by repeat split.
Qed.

Lemma X5_stop_defers_teardown_witness :
  let w := (SoundNode.start 0 (Scenario.fresh Profile.drone Scenario.page)).2 in
  (SoundNode.stop 0 w).1 = inr tt.
Proof.
  cbv zeta.
  set (w := (SoundNode.start 0
               (Scenario.fresh Profile.drone Scenario.page)).2).
  assert (H1 : objs w !! 0%nat
               = Some (Obj.mkSoundNode Profile.drone 2 (Some 3%nat) None None
                         None true)) by (vm_compute; reflexivity).
  assert (H2 : audioCtx w = Some (mkContext Running 0))
    by (vm_compute; reflexivity).
  exact (proj1 (X5_stop_defers_teardown w 0 _ _ H1 H2)).
Defined.

(** X6.  The teardown closure never throws, whatever the state of the
    node: an error of [source.stop()] or [lfo.stop()] is swallowed.  It
    clears [isPlaying], leaves the node's source and modulator not running
    and without outgoing connection, removes no other connection, touches
    no other audio node and no pending callback; running it a second time
    changes nothing. *)
Theorem X6_teardown_total (w : World) (this : nat) (o : Obj.SoundNode) :
  objs w !! this = Some o ->
  exists w1,
    SoundNode.teardown this w = (inr tt, w1)
    /\ objs w1 = alter (Obj.with_isPlaying false) this (objs w)
    /\ (forall s, Obj.source o = Some s ->
          UI.running w1 s = false /\ disconnected w1 s)
    /\ (forall l, Obj.lfo o = Some l ->
          UI.running w1 l = false /\ disconnected w1 l)
    /\ (forall e, e ∈ edges w -> Some e.1 <> Obj.source o ->
          Some e.1 <> Obj.lfo o -> e ∈ edges w1)
    /\ (forall a, Some a <> Obj.source o -> Some a <> Obj.lfo o ->
          nodes w1 !! a = nodes w !! a)
    /\ timers w1 = timers w
    /\ SoundNode.teardown this w1 = (inr tt, w1).
Proof.
  intros Ho. exists (torn_down this o w).
  destruct (LifecycleFacts.torn_down_facts w this o Ho)
    as (Ho1 & Hs & Hl & He & _ & Ht).
  split; [by apply MonadFacts.teardown_spec|].
  repeat split; try done.
  - unfold torn_down. cbn. by rewrite !MonadFacts.silence_objs.
  - by apply Hs.
  - by apply Hs.
  - by apply Hl.
  - by apply Hl.
  - intros a Ha1 Ha2. unfold torn_down. cbn.
    destruct (Obj.source o) as [s|], (Obj.lfo o) as [l|]; cbn;
      rewrite ?MonadFacts.stop_if_started_lookup;
      destruct (nodes w !! a) as [n|]; cbn; try done;
      rewrite ?bool_decide_eq_false_2 by congruence; done.
  - rewrite (MonadFacts.teardown_spec _ this _ Ho1).
    by rewrite OpFacts.torn_down_idem.
Qed.

Lemma X6_teardown_total_witness :
  exists w1,
    SoundNode.teardown 0 (Scenario.fresh Profile.drone Scenario.page)
    = (inr tt, w1).
Proof.
  destruct (X6_teardown_total (Scenario.fresh Profile.drone Scenario.page) 0
              (Obj.mkSoundNode Profile.drone 2 None None None None false))
    as (w1 & H & _).
  - vm_compute. reflexivity.
  - exists w1. exact H.
Defined.

(** X7.  The [input] listener of a slider, for a value within the range
    of the slider ([min="0"], [max="1"]): while no node exists for the
    sound the listener changes nothing but the slider; when one exists it
    passes the value to [setVolume], which makes it the target of the
    node's gain with a time constant of 0.1 s, and nothing else changes. *)
Theorem X7_slider_input (w : World) (sound : Profile.Config) (v : Q) :
  0 <= v <= 1 ->
  (UI.activeSound (Profile.id sound) w = None ->
   UI.input sound v w
   = (inr tt, set_sliders (<[Profile.id sound := v]> (sliders w)) w))
  /\ (forall this o c,
        UI.activeSound (Profile.id sound) w = Some this ->
        objs w !! this = Some o -> audioCtx w = Some c ->
        UI.input sound v w
        = (inr tt,
           set_nodes
             (alter (push_event (v, inject_Z (Z.of_nat (now w)) / 1000, 0.1))
                    (Obj.gainNode o) (nodes w))
             (set_sliders (<[Profile.id sound := v]> (sliders w)) w))).
Proof.
  intros _.
  assert (Hv : forall w', sliders w' = <[Profile.id sound := v]> (sliders w) ->
                 UI.sliderValue (Profile.id sound) w' = v).
  { intros w' E. unfold UI.sliderValue. by rewrite E, lookup_insert_eq. }
  assert (E : UI.input sound v w
                         = bind (gets (UI.activeSound (Profile.id sound)))
                             (fun r => match r with
                                | Some this =>
                                    bind (gets (UI.sliderValue (Profile.id sound)))
                                      (fun v => SoundNode.setVolume this v)
                                | None => ret tt
                                end)
                             (set_sliders (<[Profile.id sound := v]> (sliders w)) w))
    by done.
  split.
  - intros Hn. rewrite E. unfold bind, gets.
    change (UI.activeSound (Profile.id sound) (set_sliders _ w))
      with (UI.activeSound (Profile.id sound) w).
    by rewrite Hn.
  - intros this o c Ha Ho Hc. rewrite E. unfold bind at 1. unfold gets at 1.
    change (UI.activeSound (Profile.id sound) (set_sliders _ w))
      with (UI.activeSound (Profile.id sound) w).
    rewrite Ha. unfold bind at 1. unfold gets at 1.
    rewrite (Hv (set_sliders (<[Profile.id sound := v]> (sliders w)) w)
                eq_refl).
    by rewrite (MonadFacts.setVolume_spec _ this o c v).
Qed.

Lemma X7_slider_input_witness :
  let w := UI.run (UI.click Profile.drone) Scenario.page in
  UI.input Profile.drone (3 # 4) w
  = (inr tt,
     set_nodes
       (alter (push_event (3 # 4, inject_Z (Z.of_nat (now w)) / 1000, 0.1))
              2%nat (nodes w))
       (set_sliders (<["drone" := 3 # 4]> (sliders w)) w)).
Proof.
  cbv zeta.
  set (w := UI.run (UI.click Profile.drone) Scenario.page).
  set (o := Obj.mkSoundNode Profile.drone 2 (Some 3%nat) None None None true).
  assert (Hv : 0 <= 3 # 4 <= 1) by (split; discriminate).
  assert (Ha : UI.activeSound (Profile.id Profile.drone) w = Some 0%nat)
    by (vm_compute; reflexivity).
  assert (Ho : objs w !! 0%nat = Some o) by (vm_compute; reflexivity).
  assert (Hc : audioCtx w = Some (mkContext Running 0))
    by (vm_compute; reflexivity).
  exact (proj2 (X7_slider_input w Profile.drone (3 # 4) Hv) 0%nat o
               (mkContext Running 0) Ha Ho Hc).
Defined.

(** X8.  The methods of a [SoundNode] write no field of another
    [SoundNode]: after [start], [stop], [setVolume] or the teardown of one
    node, whether it returned or threw, every other object is as it
    was. *)
Theorem X8_methods_touch_only_this (w : World) (this other : nat) (v : Q) :
  other <> this ->
  objs (SoundNode.start this w).2 !! other = objs w !! other
  /\ objs (SoundNode.stop this w).2 !! other = objs w !! other
  /\ objs (SoundNode.setVolume this v w).2 !! other = objs w !! other
  /\ objs (SoundNode.teardown this w).2 !! other = objs w !! other.
Proof.
  intros Hne. repeat split.
  - by apply (OpFacts.start_other this other (objs w !! other) Hne w).
  - by apply (OpFacts.stop_other this other (objs w !! other) Hne w).
  - by apply (OpFacts.setVolume_other this other v (objs w !! other) Hne w).
  - by apply (OpFacts.teardown_other this other (objs w !! other) Hne w).
Qed.

Lemma X8_methods_touch_only_this_witness :
  let w := Scenario.fresh Profile.rain (Scenario.fresh Profile.drone Scenario.page) in
  objs (SoundNode.start 0 w).2 !! 1%nat = objs w !! 1%nat.
Proof.
  cbv zeta.
  refine (proj1 (X8_methods_touch_only_this _ 0 1 0.5 _)). discriminate.
Defined.


(** * [start] on an idle node *)

Module StartTotal.
Import MonadFacts StartFacts Ready.

Lemma reach_refl es k a : UI.reach es k a a = true.
Proof. destruct k; cbn; by rewrite Nat.eqb_refl. Qed.

Lemma reach_S es k a b :
  UI.reach es (S k) a b
  = if (a =? b)%nat then true
    else existsb (fun e : nat * Dest =>
                    if (e.1 =? a)%nat then
                      match e.2 with
                      | ToNode c => UI.reach es k c b
                      | ToParam _ _ => false
                      end
                    else false) es.
Proof. done. Qed.

Lemma reach_step es k a m b :
  (a, ToNode m) ∈ es -> UI.reach es k m b = true ->
  UI.reach es (S k) a b = true.
Proof.
  intros He Hr. rewrite reach_S. destruct (a =? b)%nat; [done|].
  apply existsb_exists. exists (a, ToNode m). split.
  - by apply list_elem_of_In.
  - cbn. by rewrite Nat.eqb_refl.
Qed.

Lemma reach_snoc es k : forall a b c,
  UI.reach es k a b = true -> (b, ToNode c) ∈ es ->
  UI.reach es (S k) a c = true.
Proof.
  induction k as [|k IH]; intros a b c Hr He.
  - cbn in Hr. destruct (a =? b)%nat eqn:E; [|done].
    apply Nat.eqb_eq in E as ->.
    apply reach_step with c; [done|apply reach_refl].
  - rewrite reach_S in Hr. destruct (a =? b)%nat eqn:E.
    + apply Nat.eqb_eq in E as ->.
      apply reach_step with c; [done|apply reach_refl].
    + apply existsb_exists in Hr as ([x d] & Hin & Hx). cbn in Hx.
      destruct (x =? a)%nat eqn:Ex; [|done]. apply Nat.eqb_eq in Ex as ->.
      destruct d as [m|]; [|done].
      apply reach_step with m; [by apply list_elem_of_In|].
      by apply IH with b.
Qed.

Lemma reach_fuel es k : forall a b k',
  UI.reach es k a b = true -> (k <= k')%nat -> UI.reach es k' a b = true.
Proof.
  induction k as [|k IH]; intros a b k' Hr Hk.
  - cbn in Hr. destruct (a =? b)%nat eqn:E; [|done].
    apply Nat.eqb_eq in E as ->. apply reach_refl.
  - destruct k' as [|k']; [lia|]. rewrite reach_S in Hr |- *.
    destruct (a =? b)%nat; [done|].
    apply existsb_exists in Hr as ([x d] & Hin & Hx). cbn in Hx.
    apply existsb_exists. exists (x, d). split; [done|]. cbn.
    destruct (x =? a)%nat; [|done]. destruct d as [m|]; [|done].
    apply IH; [done|lia].
Qed.

Lemma reach_edges es es' k : forall a b,
  (forall e, e ∈ es -> e ∈ es') ->
  UI.reach es k a b = true -> UI.reach es' k a b = true.
Proof.
  induction k as [|k IH]; intros a b Hsub Hr; [done|].
  rewrite reach_S in Hr |- *. destruct (a =? b)%nat; [done|].
  apply existsb_exists in Hr as ([x d] & Hin & Hx). cbn in Hx.
  apply existsb_exists. exists (x, d). split.
  - apply list_elem_of_In, Hsub. by apply list_elem_of_In.
  - cbn. destruct (x =? a)%nat; [|done]. destruct d as [m|]; [|done].
    by apply IH.
Qed.

(** More calls that the stepping knows. *)
Ltac xstep Hc Ho :=
  first
    [ step Hc Ho
    | step_buffers Hc
    | lazymatch goal with
      | |- context [bind (disconnect ?a) ?k ?W] =>
          rewrite (bind_ok (disconnect a) k W tt _ eq_refl); cbv beta
      | |- context [bind (SoundNode.getObj ?t) ?k ?W] =>
          erewrite (bind_ok (SoundNode.getObj t) k W);
            [|apply getObj_ok; read_obj Ho]; cbv beta
      | |- context [bind (SoundNode.this_gainNode ?t) ?k ?W] =>
          erewrite (bind_ok (SoundNode.this_gainNode t) k W);
            [|apply this_gainNode_ok; read_obj Ho]; cbv beta
      | |- context [bind (gets ?f) ?k ?W] =>
          rewrite (bind_ok (gets f) k W (f W) W eq_refl); cbv beta
      | |- context [bind (deref (Some ?a)) ?k ?W] =>
          rewrite (bind_ok (deref (Some a)) k W a W eq_refl); cbv beta
      end ].

Ltac xsteps Hc Ho :=
  unfold createBiquadFilter, createOscillator, createGain,
    createBufferSource;
  repeat (xstep Hc Ho; simpl_world; heap_norm).

(** Opens the world and the object of a [poised] hypothesis. *)
Ltac open_poised H w :=
  let Hc := fresh "Hc" in
  let Ha := fresh "Ha" in
  let o := fresh "o" in
  let Ho := fresh "Ho" in
  let Hg := fresh "Hg" in
  let Hs := fresh "Hs" in
  let Hf := fresh "Hf" in
  let Hp := fresh "Hp" in
  let Hn := fresh "Hn" in
  destruct H as ((Hc & Ha & (o & Ho & Hg & Hs & Hf & Hp)) & Hn);
  destruct o; cbn in Hg, Hs, Hf, Hp;
  destruct w; cbn in Hc, Ha, Ho, Hn; subst;
  match goal with
  | |- context [mkWorld _ _ _ _ _ (Some ?c) _ _ _ _ _ _ _ _] =>
      assert (Hc : Some c = Some c) by reflexivity
  end.

Lemma start_source_poised w this c an g src flt cfg :
  held this c an g src flt w ->
  Profile.type cfg ∈ known_types ->
  exists w1 s,
    SoundNode.start_source this cfg w = (inr tt, w1)
    /\ poised this c an g (Some s) flt w1
    /\ (length (nodes w) <= s)%nat.
Proof.
  intros H Ht.
  destruct H as (Hc & Ha & (o & Ho & Hg & Hs & Hf & Hp)).
  destruct o; cbn in Hg, Hs, Hf, Hp.
  destruct w; cbn in Hc, Ha, Ho; subst.
  assert (Hc : Some c = Some c) by reflexivity.
  unfold SoundNode.start_source, known_types in *.
  repeat (apply elem_of_cons in Ht as [->|Ht]); [..|by apply elem_of_nil in Ht].
  all: cbn [String.eqb Ascii.eqb Bool.eqb].
  4: destruct (Profile.prop_is (Profile.modulation cfg) "pulse").
  all: xsteps Hc Ho.
  all: eexists _, (length nodes0).
  all: split; [reflexivity|]; split; [|cbn; lia].
  all: split; [split; [exact Hc|]; split; [reflexivity|]|].
  all: try (eexists; split; [read_obj Ho|by cbn]).
  all: intros s' [= <-]; eexists; split; [read_node|done].
Qed.

Lemma start_source_unknown w this cfg :
  Profile.type cfg ∉ known_types ->
  SoundNode.start_source this cfg w = (inr tt, w).
Proof.
  intros Ht. unfold SoundNode.start_source.
  assert (E : forall t, t ∈ known_types ->
                (Profile.type cfg =? t)%string = false).
  { intros t Hin. apply String.eqb_neq. by intros <-. }
  by rewrite !E by (unfold known_types; set_solver).
Qed.

Lemma alter_app_alter {A} (F G : A -> A) (i k : nat) (l t : list A) :
  alter G (length l + k)%nat (alter F i l ++ t) = alter F i l ++ alter G k t.
Proof. by rewrite <- (length_alter F l i), alter_app_r. Qed.

Lemma alter_app_alter0 {A} (F G : A -> A) (i : nat) (l t : list A) :
  alter G (length l) (alter F i l ++ t) = alter F i l ++ alter G 0%nat t.
Proof. by rewrite <- (Nat.add_0_r (length l)), alter_app_alter. Qed.

Lemma lookup_app_alter {A} (F : A -> A) (i k : nat) (l t : list A) :
  (alter F i l ++ t) !! (length l + k)%nat = t !! k.
Proof. by rewrite <- (length_alter F l i), lookup_app_plus. Qed.

Lemma lookup_app_alter0 {A} (F : A -> A) (i : nat) (l t : list A) :
  (alter F i l ++ t) !! length l = t !! 0%nat.
Proof. by rewrite <- (Nat.add_0_r (length l)), lookup_app_alter. Qed.

Ltac heap_norm2 :=
  rewrite ?alter_app_alter, ?alter_app_alter0, ?lookup_app_alter,
    ?lookup_app_alter0.

Ltac ysteps Hc Ho :=
  unfold createBiquadFilter, createOscillator, createGain,
    createBufferSource;
  repeat (xstep Hc Ho; simpl_world; heap_norm; heap_norm2).

(** The source [src], when there is one, is still the node it was. *)
Ltac poised_old Hn Hne :=
  let s' := fresh "s" in
  let Es := fresh "Es" in
  let n := fresh "n" in
  let H1 := fresh "H" in
  let H2 := fresh "H" in
  let Hlt := fresh "Hlt" in
  intros s' Es;
  destruct (Hn s' Es) as (n & H1 & H2);
  pose proof (lookup_lt_Some _ _ _ H1) as Hlt;
  exists n; split; [|exact H2];
  cbn;
  rewrite ?list_lookup_alter_ne by (first [congruence|lia]);
  rewrite ?lookup_app_l by (rewrite ?length_alter; exact Hlt);
  rewrite ?list_lookup_alter_ne by (first [congruence|lia]);
  exact H1.

Ltac poised_post Hc Ho Hn Hne :=
  split;
  [split; [exact Hc|]; split; [reflexivity|];
   eexists; split; [read_obj Ho|by cbn]
  |poised_old Hn Hne].

Lemma filter_kind_poised w this c an g src f cfg :
  poised this c an g src (Some f) w ->
  src <> Some f ->
  exists w1,
    SoundNode.start_filter_kind this cfg w = (inr tt, w1)
    /\ poised this c an g src (Some f) w1
    /\ (length (nodes w) <= length (nodes w1))%nat.
Proof.
  intros H Hne. open_poised H w.
  unfold SoundNode.start_filter_kind.
  repeat match goal with
         | |- context [if ?b then _ else _] => destruct b
         end.
  all: ysteps Hc Ho.
  all: eexists; split; [reflexivity|].
  all: split; [poised_post Hc Ho Hn Hne|].
  all: cbn; rewrite ?length_alter, ?length_app, ?length_alter; cbn; lia.
Qed.

Lemma cutoff_lfo_poised w this c an g src f cfg :
  poised this c an g src (Some f) w ->
  src <> Some f ->
  exists w1,
    SoundNode.start_cutoff_lfo this cfg w = (inr tt, w1)
    /\ poised this c an g src (Some f) w1
    /\ (length (nodes w) <= length (nodes w1))%nat.
Proof.
  intros H Hne. open_poised H w.
  unfold SoundNode.start_cutoff_lfo.
  repeat match goal with
         | |- context [if ?b then _ else _] => destruct b
         end.
  all: ysteps Hc Ho.
  all: try (erewrite startNode_ok;
            [|cbn; heap_norm; heap_norm2; reflexivity|reflexivity..]).
  all: eexists; split; [reflexivity|].
  all: split; [poised_post Hc Ho Hn Hne|].
  all: cbn; rewrite ?length_alter, ?length_app, ?length_alter; cbn; lia.
Qed.

Local Open Scope js_scope.

(** Lines 186-199: the source into the filter, through a coupling stage
    for the amplitude pulse. *)
Lemma chain_join_poised w this c an g s f cfg :
  poised this c an g (Some s) (Some f) w ->
  s <> f ->
  (f < length (nodes w))%nat ->
  exists w1,
    (if SoundNode.is_pulse cfg then
       amGain <- createGain ;;
       s <- SoundNode.this_source this ;;
       connect s (ToNode amGain) ;;;
       l <- createOscillator ;;
       SoundNode.setObj this (Obj.with_lfo (Some l)) ;;;
       l <- SoundNode.this_lfo this ;;
       updNode l (with_type "square") ;;;
       l <- SoundNode.this_lfo this ;;
       updNode l (with_frequency 4) ;;;
       l <- SoundNode.this_lfo this ;;
       connect l (ToParam amGain "gain") ;;;
       l <- SoundNode.this_lfo this ;;
       startNode l ;;;
       f <- SoundNode.this_filter this ;;
       connect amGain (ToNode f)
     else
       s <- SoundNode.this_source this ;;
       f <- SoundNode.this_filter this ;;
       connect s (ToNode f)) w = (inr tt, w1)
    /\ poised this c an g (Some s) (Some f) w1
    /\ linked w1 s f.
Proof.
  intros H Hsf Hf.
  assert (Hne : Some s <> Some f) by congruence.
  open_poised H w. cbn in Hf.
  destruct (Hn _ eq_refl) as (n & Hn1 & _).
  pose proof (lookup_lt_Some _ _ _ Hn1) as Hlt.
  destruct (SoundNode.is_pulse cfg).
  all: ysteps Hc Ho.
  all: eexists; split; [reflexivity|]; split; [poised_post Hc Ho Hn Hne|].
  all: unfold linked; cbn; rewrite ?length_app; cbn.
  - exists 2%nat. split; [lia|].
    eapply reach_step; [|eapply reach_step; [|apply reach_refl]];
      rewrite !elem_of_add_edge; tauto.
  - exists 1%nat. split; [lia|].
    eapply reach_step; [|apply reach_refl].
    rewrite !elem_of_add_edge; tauto.
Qed.

Lemma held_poised_fresh this c an g s flt w n :
  held this c an g (Some s) flt w ->
  nodes w !! s = Some n -> schedulable n = true -> started n = false ->
  stopped n = false ->
  poised this c an g (Some s) flt w.
Proof. intros H ? ? ? ?. split; [done|]. intros ? [= <-]. eauto. Qed.

(** The filter chain of a node whose source is ready. *)
Lemma start_chain_poised w this c an g s flt cfg :
  poised this c an g (Some s) flt w ->
  exists w1 out flt',
    SoundNode.start_chain this cfg w = (inr (Some out), w1)
    /\ poised this c an g (Some s) flt' w1
    /\ linked w1 s out.
Proof.
  intros H. unfold SoundNode.start_chain.
  destruct (Profile.truthy (Profile.filter cfg)).
  - destruct H as ((Hc & Ha & (o & Ho & Hg & Hs & Hf & Hp)) & Hn).
    destruct (Hn _ eq_refl) as (n & Hn1 & Hn2).
    pose proof (lookup_lt_Some _ _ _ Hn1) as Hlt.
    unfold createBiquadFilter.
    rewrite (bind_ok _ _ _ _ _ (alloc_ok w c _ Hc)).
    rewrite (bind_ok (SoundNode.setObj this _) _ _ tt _ eq_refl).
    match goal with
    | |- context [bind (SoundNode.start_filter_kind _ _) _ ?W] =>
        set (w1 := W)
    end.
    assert (P1 : poised this c an g (Some s) (Some (length (nodes w))) w1).
    { split; [split; [done|split; [done|]]|].
      - exists (Obj.with_filter (Some (length (nodes w))) o). cbn.
        by rewrite list_lookup_alter_eq, Ho.
      - intros s' [= <-]. exists n. split; [|done]. cbn.
        by apply lookup_app_l_Some. }
    assert (Hl1 : (length (nodes w) < length (nodes w1))%nat).
    { cbn. rewrite length_app. cbn. lia. }
    assert (Hsf : s <> length (nodes w)) by lia.
    assert (Hne : Some s <> Some (length (nodes w))) by congruence.
    destruct (filter_kind_poised w1 this c an g _ _ cfg P1 Hne)
      as (w2 & E2 & P2 & Hl2).
    destruct (cutoff_lfo_poised w2 this c an g _ _ cfg P2 Hne)
      as (w3 & E3 & P3 & Hl3).
    destruct (chain_join_poised w3 this c an g _ _ cfg P3 Hsf)
      as (w4 & E4 & P4 & L4); [lia|].
    exists w4, (length (nodes w)), (Some (length (nodes w))).
    split; [|done].
    rewrite (bind_ok _ _ _ _ _ E2), (bind_ok _ _ _ _ _ E3),
      (bind_ok _ _ _ _ _ E4).
    destruct P4 as ((_ & _ & (o4 & Ho4 & _ & _ & Hf4 & _)) & _).
    by rewrite (bind_ok _ _ _ _ _ (getObj_ok _ _ _ Ho4)), Hf4.
  - open_poised H w.
    destruct (Hn _ eq_refl) as (n & Hn1 & _).
    pose proof (lookup_lt_Some _ _ _ Hn1) as Hlt.
    assert (Hne : Some s <> Some (length nodes0)) by (intros [= E]; lia).
    destruct (SoundNode.is_pulse cfg).
    all: ysteps Hc Ho.
    all: eexists _, _, _; split; [reflexivity|];
      split; [poised_post Hc Ho Hn Hne|].
    all: unfold linked; cbn; rewrite ?length_app; cbn.
    + exists 1%nat. split; [lia|].
      eapply reach_step; [|apply reach_refl].
      rewrite !elem_of_add_edge; tauto.
    + exists 0%nat. split; [lia|apply reach_refl].
Qed.

Lemma this_source_null w this o :
  objs w !! this = Some o -> Obj.source o = None ->
  SoundNode.this_source this w = (inl TypeError, w).
Proof.
  intros Ho Hs. unfold SoundNode.this_source.
  by rewrite (bind_ok _ _ _ _ _ (getObj_ok _ _ _ Ho)), Hs.
Qed.

(** Without a source the filter chain ends in the [TypeError] of
    [this.source.connect], or hands on [null]. *)
Lemma start_chain_null w this c an g flt cfg :
  poised this c an g None flt w ->
  SoundNode.is_pulse cfg = false ->
  exists w1 flt',
    held this c an g None flt' w1
    /\ (SoundNode.start_chain this cfg w = (inl TypeError, w1)
        \/ SoundNode.start_chain this cfg w = (inr None, w1))
    /\ (Profile.truthy (Profile.filter cfg) = false -> w1 = w).
Proof.
  intros H Hpulse. unfold SoundNode.start_chain. rewrite Hpulse.
  destruct (Profile.truthy (Profile.filter cfg)).
  - destruct H as ((Hc & Ha & (o & Ho & Hg & Hs & Hf & Hp)) & Hn).
    unfold createBiquadFilter.
    rewrite (bind_ok _ _ _ _ _ (alloc_ok w c _ Hc)).
    rewrite (bind_ok (SoundNode.setObj this _) _ _ tt _ eq_refl).
    match goal with
    | |- context [bind (SoundNode.start_filter_kind _ _) _ ?W] =>
        set (w1 := W)
    end.
    assert (P1 : poised this c an g None (Some (length (nodes w))) w1).
    { split; [split; [done|split; [done|]]|done].
      exists (Obj.with_filter (Some (length (nodes w))) o). cbn.
      by rewrite list_lookup_alter_eq, Ho. }
    assert (Hne : None <> Some (length (nodes w))) by done.
    destruct (filter_kind_poised w1 this c an g _ _ cfg P1 Hne)
      as (w2 & E2 & P2 & _).
    destruct (cutoff_lfo_poised w2 this c an g _ _ cfg P2 Hne)
      as (w3 & E3 & P3 & _).
    exists w3, (Some (length (nodes w))).
    split; [exact (proj1 P3)|]. split; [left|done].
    rewrite (bind_ok _ _ _ _ _ E2), (bind_ok _ _ _ _ _ E3).
    destruct P3 as ((_ & _ & (o3 & Ho3 & _ & Hs3 & _)) & _).
    apply bind_throw.
    apply bind_throw. by apply this_source_null with o3.
  - destruct H as ((Hc & Ha & (o & Ho & Hg & Hs & Hf & Hp)) & Hn).
    exists w, flt. split; [|split; [right|done]].
    + split; [done|]. split; [done|]. by exists o.
    + by rewrite (bind_ok _ _ _ _ _ (getObj_ok _ _ _ Ho)), Hs.
Qed.

(** Lines 215-218 on a node whose source is ready and linked to
    [out]. *)
Lemma start_finish_poised w this c a g s flt out :
  poised this c (Some a) g (Some s) flt w ->
  linked w s out ->
  exists w1 o1,
    SoundNode.start_finish this (Some out) w = (inr tt, w1)
    /\ objs w1 !! this = Some o1 /\ Obj.isPlaying o1 = true
    /\ Obj.source o1 = Some s /\ Obj.gainNode o1 = g
    /\ UI.running w1 s = true
    /\ s ∈ UI.live_sources w1 g
    /\ (g, ToNode a) ∈ edges w1
    /\ length (nodes w1) = length (nodes w).
Proof.
  intros H L. open_poised H w. unfold linked in L. cbn in L.
  destruct (Hn _ eq_refl) as (n & Hn1 & Hn2 & Hn3 & Hn4).
  destruct L as (k & Hk & Hr).
  pose proof (lookup_lt_Some _ _ _ Hn1) as Hlt.
  unfold SoundNode.start_finish.
  ysteps Hc Ho.
  erewrite (bind_ok (startNode s) _ _);
    [|eapply startNode_ok; [cbn; exact Hn1|done|done]].
  simpl_world.
  eexists _, _. split; [reflexivity|].
  assert (Hrun : forall W, nodes W = alter mark_started s nodes0 ->
                    UI.running W s = true).
  { intros W HW. unfold UI.running. rewrite HW.
    rewrite list_lookup_alter_eq, Hn1.
    destruct n. cbn in Hn2, Hn3, Hn4 |- *. subst.
    unfold schedulable in Hn2 |- *. cbn in Hn2 |- *. by rewrite Hn2. }
  split; [read_obj Ho|]. cbn.
  repeat split.
  - by apply Hrun.
  - unfold UI.live_sources. apply list_elem_of_filter. split.
    + unfold UI.feeds. rewrite Hrun by done. cbn. rewrite length_alter.
      rewrite (reach_fuel _ (S k) s g (length nodes0)); [|eapply reach_snoc|lia].
      * unfold UI.attached. cbn. rewrite ?length_alter.
        apply (reach_fuel _ 1%nat); [|lia].
        eapply reach_step; [|apply reach_refl].
        rewrite !elem_of_add_edge. tauto.
      * eapply reach_edges; [|exact Hr].
        intros e He. rewrite !elem_of_add_edge. tauto.
      * rewrite !elem_of_add_edge. tauto.
    + cbn. rewrite length_alter. apply elem_of_seq. lia.
  - rewrite !elem_of_add_edge. tauto.
  - by rewrite length_alter.
Qed.

(** [start] on a node that is not playing, for a known type. *)
Lemma start_idle w this o c a :
  objs w !! this = Some o ->
  Obj.isPlaying o = false ->
  audioCtx w = Some c ->
  analyser w = Some a ->
  Profile.type (Obj.config o) ∈ known_types ->
  exists w1 o1 s,
    SoundNode.start this w = (inr tt, w1)
    /\ objs w1 !! this = Some o1
    /\ Obj.isPlaying o1 = true
    /\ Obj.gainNode o1 = Obj.gainNode o
    /\ Obj.source o1 = Some s
    /\ (length (nodes w) <= s)%nat
    /\ UI.running w1 s = true
    /\ s ∈ UI.live_sources w1 (Obj.gainNode o)
    /\ (Obj.gainNode o, ToNode a) ∈ edges w1.
Proof.
  intros Ho Hp Hc Ha Ht.
  assert (H : held this c (Some a) (Obj.gainNode o) (Obj.source o)
                (Obj.filter o) w).
  { split; [done|]. split; [done|]. by exists o. }
  rewrite (start_unfold w this o Ho Hp).
  destruct (start_source_poised w this c _ _ _ _ (Obj.config o) H Ht)
    as (w1 & s & E1 & P1 & Hs).
  rewrite (bind_ok _ _ _ _ _ E1).
  destruct (start_chain_poised w1 this c _ _ _ _ (Obj.config o) P1)
    as (w2 & out & flt' & E2 & P2 & L2).
  rewrite (bind_ok _ _ _ _ _ E2).
  destruct (start_finish_poised w2 this c a _ s flt' out P2 L2)
    as (w3 & o3 & E3 & Ho3 & Hp3 & Hs3 & Hg3 & Hr3 & Hl3 & He3 & _).
  exists w3, o3, s. by repeat split.
Qed.

Ltac config_leaf :=
  let w := fresh "w" in
  let H := fresh "H" in
  intros w H; cbn; rewrite ?list_lookup_alter_eq;
  first [ exact H
        | destruct (objs w !! _) as [[]|]; cbn in H |- *; exact H ].

(** [start] does not change the profile of its node. *)
Lemma start_config this (x : option Profile.Config) :
  preserves (fun w => Obj.config <$> objs w !! this = x)
            (SoundNode.start this).
Proof. unfold_engine. pres_split; config_leaf. Qed.

End StartTotal.

(** X9.  [start] on a node that is not playing and whose profile has one
    of the four synthesis types the method knows always returns, whatever
    the filter and the modulation: it creates a new source, starts it, and
    leaves it running and feeding the mix bus through the node's gain
    stage, with [isPlaying] set. *)
Theorem X9_start_total (w : World) (this : nat) (o : Obj.SoundNode)
    (c : Context) (a : nat) :
  objs w !! this = Some o ->
  Obj.isPlaying o = false ->
  audioCtx w = Some c ->
  analyser w = Some a ->
  Profile.type (Obj.config o) ∈ Ready.known_types ->
  exists w1 o1 s,
    SoundNode.start this w = (inr tt, w1)
    /\ objs w1 !! this = Some o1
    /\ Obj.isPlaying o1 = true
    /\ Obj.gainNode o1 = Obj.gainNode o
    /\ Obj.source o1 = Some s
    /\ (length (nodes w) <= s)%nat
    /\ UI.running w1 s = true
    /\ s ∈ UI.live_sources w1 (Obj.gainNode o)
    /\ (Obj.gainNode o, ToNode a) ∈ edges w1.
Proof. apply StartTotal.start_idle. Qed.

Lemma X9_start_total_witness :
  exists w1 o1 s,
    SoundNode.start 0 (Scenario.fresh Profile.fire Scenario.page)
    = (inr tt, w1)
    /\ objs w1 !! 0%nat = Some o1
    /\ Obj.isPlaying o1 = true
    /\ Obj.gainNode o1 = 2%nat
    /\ Obj.source o1 = Some s
    /\ (3 <= s)%nat
    /\ UI.running w1 s = true
    /\ s ∈ UI.live_sources w1 2
    /\ (2%nat, ToNode 1) ∈ edges w1.
Proof.
  set (w := Scenario.fresh Profile.fire Scenario.page).
  set (o := Obj.mkSoundNode Profile.fire 2 None None None None false).
  assert (H1 : objs w !! 0%nat = Some o) by (vm_compute; reflexivity).
  assert (H2 : audioCtx w = Some (mkContext Running 0))
    by (vm_compute; reflexivity).
  assert (H3 : analyser w = Some 1%nat) by (vm_compute; reflexivity).
  assert (H4 : Profile.type (Obj.config o) ∈ Ready.known_types)
    by (apply (bool_decide_unpack _); vm_compute; exact I).
  assert (H5 : length (nodes w) = 3%nat) by (vm_compute; reflexivity).
  destruct (X9_start_total w 0 o (mkContext Running 0) 1 H1 eq_refl H2 H3 H4)
    as (w1 & o1 & s & E & Ho & Hp & Hg & Hs & Hl & Hr & Hv & He).
  rewrite H5 in Hl.
  exists w1, o1, s. repeat split; assumption.
Defined.

(** X10.  [start] on a node whose profile has a synthesis type that the
    method does not know (the table's [periodic]) creates no source and
    ends in a [TypeError]: the node stays Idle, and without a filter in
    the profile nothing at all has changed. *)
Theorem X10_start_unknown_type (w : World) (this : nat) (o : Obj.SoundNode)
    (c : Context) :
  objs w !! this = Some o ->
  Obj.isPlaying o = false ->
  Obj.source o = None ->
  audioCtx w = Some c ->
  Profile.type (Obj.config o) ∉ Ready.known_types ->
  exists w1,
    SoundNode.start this w = (inl TypeError, w1)
    /\ UI.lifecycle w1 this = Some UI.Idle
    /\ (exists o1, objs w1 !! this = Some o1 /\ Obj.source o1 = None)
    /\ (Profile.truthy (Profile.filter (Obj.config o)) = false -> w1 = w).
Proof.
  intros Ho Hp Hs Hc Ht.
  assert (H : Ready.poised this c (analyser w) (Obj.gainNode o) None
                (Obj.filter o) w).
  { split; [|done]. split; [done|]. split; [done|]. by exists o. }
  assert (Hpulse : SoundNode.is_pulse (Obj.config o) = false).
  { unfold SoundNode.is_pulse.
    destruct (String.eqb_spec (Profile.type (Obj.config o)) "oscillator")
      as [E|_]; [|by rewrite andb_false_r].
    exfalso. apply Ht. rewrite E. unfold Ready.known_types. set_solver. }
  rewrite (StartFacts.start_unfold w this o Ho Hp).
  rewrite (MonadFacts.bind_ok _ _ _ _ _
             (StartTotal.start_source_unknown w this _ Ht)).
  destruct (StartTotal.start_chain_null w this c _ _ _ (Obj.config o)
              H Hpulse) as (w1 & flt' & Hh & E & Hsame).
  destruct Hh as (_ & _ & (o1 & Ho1 & _ & Hs1 & _ & Hp1)).
  exists w1. split; [|split; [|split]].
  - destruct E as [E|E].
    + by apply MonadFacts.bind_throw.
    + by rewrite (MonadFacts.bind_ok _ _ _ _ _ E).
  - unfold UI.lifecycle. by rewrite Ho1, Hp1.
  - eauto.
  - exact Hsame.
Qed.

Lemma X10_start_unknown_type_witness :
  SoundNode.start 0 (Scenario.fresh Profile.chime Scenario.page)
  = (inl TypeError, Scenario.fresh Profile.chime Scenario.page).
Proof.
  set (w := Scenario.fresh Profile.chime Scenario.page).
  set (o := Obj.mkSoundNode Profile.chime 2 None None None None false).
  assert (H1 : objs w !! 0%nat = Some o) by (vm_compute; reflexivity).
  assert (H2 : audioCtx w = Some (mkContext Running 0))
    by (vm_compute; reflexivity).
  assert (H4 : Profile.type (Obj.config o) ∉ Ready.known_types)
    by (apply (bool_decide_unpack _); vm_compute; exact I).
  destruct (X10_start_unknown_type w 0 o (mkContext Running 0)
              H1 eq_refl eq_refl H2 H4) as (w1 & E & _ & _ & Hw).
  rewrite (Hw eq_refl) in E. exact E.
Defined.


(** * Sessions *)

Module SessionFacts.
Import MonadFacts Session.

Section Permanent.
Context (c : Context) (an : option nat) (e : nat * Dest).

Local Abbreviation I := (permanent c an e).

Lemma initAudio_permanent : preserves I initAudio.
Proof.
  intros w H. pose proof H as (Hc & Hs & _).
  by rewrite (OpFacts.initAudio_running w c Hc Hs).
Qed.

Lemma source_disconnect_permanent this :
  preserves I (bind (SoundNode.this_source this) (fun s => disconnect s)).
Proof.
  intros w H. pose proof H as (Hc & Hs & Ha & Hlen & He & Hobj).
  unfold SoundNode.this_source, SoundNode.getObj, disconnect.
  unfold bind, gets, deref, modify, ret, throw.
  destruct (objs w !! this) as [o|] eqn:Eo; [|done].
  destruct (Obj.source o) as [s|] eqn:Es; [|done]. cbn.
  split; [done|]. split; [done|]. split; [done|]. split; [done|].
  split; [|exact Hobj].
  apply list_elem_of_filter. split; [|done].
  destruct (Hobj this o Eo) as [H1 _]. congruence.
Qed.

Lemma lfo_disconnect_permanent this :
  preserves I (bind (SoundNode.this_lfo this) (fun l => disconnect l)).
Proof.
  intros w H. pose proof H as (Hc & Hs & Ha & Hlen & He & Hobj).
  unfold SoundNode.this_lfo, SoundNode.getObj, disconnect.
  unfold bind, gets, deref, modify, ret, throw.
  destruct (objs w !! this) as [o|] eqn:Eo; [|done].
  destruct (Obj.lfo o) as [l|] eqn:El; [|done]. cbn.
  split; [done|]. split; [done|]. split; [done|]. split; [done|].
  split; [|exact Hobj].
  apply list_elem_of_filter. split; [|done].
  destruct (Hobj this o Eo) as [_ H1]. congruence.
Qed.

End Permanent.

Ltac unfold_page :=
  unfold UI.click, UI.input, UI.callback, UI.cleanup, UI.toggleActive,
    UI.receiver, SoundNode.start, SoundNode.stop, SoundNode.setVolume,
    SoundNode.teardown, SoundNode.new, SoundNode.start_finish,
    SoundNode.start_chain, SoundNode.start_cutoff_lfo,
    SoundNode.start_filter_kind, SoundNode.start_source,
    SoundNode.this_gainNode, SoundNode.this_filter, SoundNode.this_lfoGain,
    SoundNode.setObj, createImpulseBuffer, createPinkNoiseBuffer,
    createNoiseBuffer, setTimeout, setTargetAtTime, currentTime, stopNode,
    startNode, connect, getNode, updNode, createAnalyser,
    createBiquadFilter, createGain, createOscillator, createBufferSource,
    getCtx.

Ltac perm_split e :=
  repeat lazymatch goal with
  | |- preserves _ initAudio => apply initAudio_permanent
  | |- preserves _ (bind (alloc _) _) =>
      eapply (preserves_alloc_bind _ (S e.1)); [| |intros ? ?]
  | |- preserves _ (bind (SoundNode.this_source _) _) =>
      first [ apply source_disconnect_permanent
            | apply preserves_bind; [|intros ?] ]
  | |- preserves _ (bind (SoundNode.this_lfo _) _) =>
      first [ apply lfo_disconnect_permanent
            | apply preserves_bind; [|intros ?] ]
  | |- preserves _ (SoundNode.this_source _) =>
      unfold SoundNode.this_source
  | |- preserves _ (SoundNode.this_lfo _) =>
      unfold SoundNode.this_lfo
  | |- preserves _ (SoundNode.getObj _) =>
      unfold SoundNode.getObj
  | |- preserves _ (bind _ _) => apply preserves_bind; [|intros ?]
  | |- preserves _ (ret _) => apply preserves_ret
  | |- preserves _ (throw _) => apply preserves_throw
  | |- preserves _ (gets _) => apply preserves_gets
  | |- preserves _ (deref _) => apply preserves_deref
  | |- preserves _ (try_ _) => apply preserves_try
  | |- preserves _ (modify _) => apply preserves_modify
  | |- preserves _ (if ?b then _ else _) => destruct b
  | |- preserves _ (match ?x with _ => _ end) => destruct x
  | |- preserves _ (let _ := _ in _) => cbv zeta
  end.

Ltac perm_objs Hobj :=
  let this' := fresh "this" in
  let o' := fresh "o" in
  let H' := fresh "H" in
  let E := fresh "E" in
  intros this' o' H';
  first
    [ exact (Hobj this' o' H')
    | apply lookup_app_Some in H' as [H'|[_ H']];
      [ exact (Hobj this' o' H')
      | apply list_lookup_singleton_Some in H' as [_ <-]; by split ]
    | match type of H' with
      | alter _ ?t _ !! _ = _ =>
          destruct (decide (this' = t)) as [->|];
          [ rewrite list_lookup_alter_eq in H';
            match type of H' with
            | _ <$> ?x = _ => destruct x as [?o0|] eqn:E; [|done]
            end;
            cbn in H'; injection H' as <-;
            destruct (Hobj _ _ E); cbn; split; first [done|intros [= ->]; lia]
          | rewrite list_lookup_alter_ne in H' by done;
            exact (Hobj this' o' H') ]
      end ].

Ltac perm_leaf :=
  let w := fresh "w" in
  let Hc := fresh "Hc" in
  let Hs := fresh "Hs" in
  let Ha := fresh "Ha" in
  let Hlen := fresh "Hlen" in
  let He := fresh "He" in
  let Hobj := fresh "Hobj" in
  intros w (Hc & Hs & Ha & Hlen & He & Hobj);
  first
    [ exact Hlen
    | try case_bool_decide;
      (split; [exact Hc|]); (split; [exact Hs|]); (split; [exact Ha|]);
      (split; [cbn; rewrite ?length_app, ?length_alter; cbn; lia|]);
      (split; [cbn; rewrite ?elem_of_add_edge; tauto|]);
      cbn; perm_objs Hobj ].

Lemma click_permanent c an e sound :
  preserves (permanent c an e) (UI.click sound).
Proof. unfold_page. perm_split e; perm_leaf. Qed.

Lemma input_permanent c an e sound v :
  preserves (permanent c an e) (UI.input sound v).
Proof. unfold_page. perm_split e; perm_leaf. Qed.

Lemma callback_permanent c an e cb :
  preserves (permanent c an e) (UI.callback cb).
Proof. unfold_page. perm_split e; perm_leaf. Qed.

Lemma callbacks_permanent c an e (due : list (nat * Callback)) : forall w,
  permanent c an e w ->
  permanent c an e
    (foldl (fun w d => UI.run (UI.callback d.2) w) w due).
Proof.
  induction due as [|d due IH]; intros w H; [exact H|].
  cbn [foldl]. apply IH. by apply callback_permanent.
Qed.

Lemma tick_permanent c an e w :
  permanent c an e w -> permanent c an e (UI.tick w).
Proof. intros H. unfold UI.tick. cbv zeta. by apply callbacks_permanent. Qed.

Lemma advance_permanent c an e ms : forall w,
  permanent c an e w -> permanent c an e (UI.advance ms w).
Proof.
  induction ms as [|ms IH]; intros w H; [exact H|].
  cbn [UI.advance]. by apply IH, tick_permanent.
Qed.

Lemma handle_permanent c an e ev w :
  permanent c an e w -> permanent c an e (handle ev w).
Proof.
  intros H. destruct ev as [sound|sound v|ms]; cbn [handle].
  - by apply click_permanent.
  - by apply input_permanent.
  - by apply advance_permanent.
Qed.

Lemma play_permanent c an e evs : forall w,
  permanent c an e w -> permanent c an e (play evs w).
Proof.
  induction evs as [|ev evs IH]; intros w H; [exact H|].
  cbn [play foldl]. by apply IH, handle_permanent.
Qed.

Lemma play_cons ev evs w : play (ev :: evs) w = play evs (handle ev w).
Proof. done. Qed.

(** A click does what it would do after [initAudio]. *)
Lemma click_after_init sound w :
  UI.run (UI.click sound) w = UI.run (UI.click sound) (UI.run initAudio w).
Proof.
  destruct (OpFacts.initAudio_once w) as (w1 & c & E & _ & _ & E1 & _).
  unfold UI.run at 3. rewrite E. cbn [snd].
  unfold UI.run, UI.click. cbv zeta.
  by rewrite (bind_ok _ _ _ _ _ E), (bind_ok _ _ _ _ _ E1).
Qed.

Lemma boot_permanent sr st rnd :
  permanent (mkContext Running 0) (Some 1%nat) (1%nat, ToNode 0)
    (UI.run initAudio (UI.boot sr st rnd)).
Proof.
  unfold permanent. destruct st; cbn.
  all: repeat split; try done; try lia.
  all: try (apply elem_of_add_edge; by left).
Qed.

Lemma permanentb_sound c an e w :
  permanentb c an e w = true -> permanent c an e w.
Proof.
  unfold permanentb. rewrite !andb_true_iff.
  intros (((((H1 & H2) & H3) & H4) & H5) & H6).
  apply bool_decide_eq_true_1 in H1, H2, H3, H5.
  apply Nat.ltb_lt in H4.
  repeat split; try done.
  all: rewrite forallb_forall in H6.
  all: apply list_elem_of_lookup_2, list_elem_of_In, H6 in H.
  all: apply andb_true_iff in H as [Hs Hl].
  all: apply negb_true_iff, bool_decide_eq_false_1 in Hs, Hl; done.
Qed.

Lemma first_gain_permanent_all sr st rnd :
  forallb (first_gain_permanent sr st rnd) Profile.sounds = true.
Proof. destruct st; vm_compute; reflexivity. Qed.

Lemma implb_elim (b c : bool) : implb (negb b) c = true -> b = false -> c = true.
Proof. by intros H ->. Qed.

Lemma first_gain sr st rnd cfg :
  cfg ∈ Profile.sounds ->
  Profile.type cfg <> "periodic" ->
  permanent (mkContext Running 0) (Some 1%nat) (2%nat, ToNode 1)
    (UI.run (UI.click cfg) (UI.boot sr st rnd)).
Proof.
  intros Hin Ht.
  pose proof (proj1 (forallb_forall _ _)
                (first_gain_permanent_all sr st rnd) cfg
                (proj1 (list_elem_of_In _ _) Hin)) as H.
  apply permanentb_sound.
  apply (implb_elim _ _ H). by apply String.eqb_neq.
Qed.

End SessionFacts.

(** X11.  Once the audio context runs, the script never replaces or
    suspends it and never replaces the analyser; and it only ever
    disconnects a node that some [SoundNode] holds as its source or as
    its modulator.  So a connection that leaves any other existing node
    stays for the rest of the session, whatever cards are clicked,
    sliders moved and callbacks run. *)
Theorem X11_connection_is_permanent (w : World) (c : Context)
    (an : option nat) (e : nat * Dest) (evs : list Session.Event) :
  Session.permanent c an e w ->
  Session.permanent c an e (Session.play evs w).
Proof. apply SessionFacts.play_permanent. Qed.

Lemma X11_connection_is_permanent_witness :
  Session.permanent (mkContext Running 0) (Some 1%nat) (1%nat, ToNode 0)
    (Session.play
       [Session.Click Profile.drone; Session.Wait 10;
        Session.Input Profile.drone 0.3; Session.Click Profile.drone;
        Session.Wait 200; Session.Click Profile.drone]
       (UI.run initAudio Scenario.page)).
Proof.
  apply X11_connection_is_permanent.
  apply SessionFacts.permanentb_sound. vm_compute. reflexivity.
Defined.

(** X12.  From the first click on, in every session, the audio context
    runs and the analyser (the mix bus) stays connected to the
    destination. *)
Theorem X12_bus_stays_wired (sr : nat) (st : CtxState) (rnd : nat -> Q)
    (sound : Profile.Config) (evs : list Session.Event) :
  let w := Session.play (Session.Click sound :: evs) (UI.boot sr st rnd) in
  audioCtx w = Some (mkContext Running 0)
  /\ analyser w = Some 1%nat
  /\ (1%nat, ToNode 0) ∈ edges w.
Proof.
  cbv zeta. rewrite SessionFacts.play_cons.
  change (Session.handle (Session.Click sound) (UI.boot sr st rnd))
    with (UI.run (UI.click sound) (UI.boot sr st rnd)).
  rewrite SessionFacts.click_after_init.
  destruct (SessionFacts.play_permanent (mkContext Running 0) (Some 1%nat)
              (1%nat, ToNode 0) evs
              (UI.run (UI.click sound)
                 (UI.run initAudio (UI.boot sr st rnd))))
    as (H1 & _ & H3 & _ & H5 & _); [|done].
  apply SessionFacts.click_permanent, SessionFacts.boot_permanent.
Qed.

(** X13.  The gain stage of a node is never taken off the mix bus: for
    every profile of the table but the periodic one, after a first click
    on its card the stage created for it (node 2) remains an input of the
    analyser for the rest of the session, also when the node has been
    stopped, torn down and forgotten. *)
Theorem X13_gain_stage_leaks (sr : nat) (st : CtxState) (rnd : nat -> Q)
    (cfg : Profile.Config) (evs : list Session.Event) :
  cfg ∈ Profile.sounds ->
  Profile.type cfg <> "periodic" ->
  2%nat ∈ UI.bus_inputs
            (Session.play (Session.Click cfg :: evs) (UI.boot sr st rnd)).
Proof.
  intros Hin Ht. rewrite SessionFacts.play_cons.
  change (Session.handle (Session.Click cfg) (UI.boot sr st rnd))
    with (UI.run (UI.click cfg) (UI.boot sr st rnd)).
  destruct (SessionFacts.play_permanent _ _ _ evs _
              (SessionFacts.first_gain sr st rnd cfg Hin Ht))
    as (_ & _ & Ha & _ & He & _).
  unfold UI.bus_inputs. rewrite Ha.
  apply list_elem_of_fmap. exists (2%nat, ToNode 1). split; [done|].
  by apply list_elem_of_filter.
Qed.

Lemma X13_gain_stage_leaks_witness :
  2%nat ∈ UI.bus_inputs
            (Session.play
               [Session.Click Profile.rain; Session.Click Profile.rain;
                Session.Wait 500; Session.Click Profile.rain]
               Scenario.page).
Proof.
  apply (X13_gain_stage_leaks (441 * 100) Suspended Scenario.rnd0
           Profile.rain).
  - apply list_elem_of_here.
  - discriminate.
Defined.


(** * No handler fails *)

Module SafetyFacts.
Import MonadFacts Session Ready.

Lemma sounds_id_inj a b :
  a ∈ Profile.sounds -> b ∈ Profile.sounds ->
  Profile.id a = Profile.id b -> a = b.
Proof.
  intros Ha Hb E. unfold Profile.sounds in Ha, Hb.
  repeat (apply elem_of_cons in Ha as [->|Ha]);
    [..|by apply elem_of_nil in Ha].
  all: repeat (apply elem_of_cons in Hb as [->|Hb]);
    [..|by apply elem_of_nil in Hb].
  all: first [reflexivity|discriminate E].
Qed.

Lemma sounds_known cfg :
  cfg ∈ Profile.sounds -> Profile.type cfg <> "periodic" ->
  Profile.type cfg ∈ known_types.
Proof.
  intros Ha Ht. unfold Profile.sounds in Ha.
  repeat (apply elem_of_cons in Ha as [->|Ha]);
    [..|by apply elem_of_nil in Ha].
  all: first [done|unfold known_types; cbn; set_solver].
Qed.

Lemma registered_objs_alter fo this w :
  (forall o, Obj.config (fo o) = Obj.config o) ->
  registered w -> registered (set_objs (alter fo this (objs w)) w).
Proof.
  intros Hfo H id this' Hs. destruct (H id this' Hs) as (o & Ho & H1 & H2).
  cbn. destruct (decide (this' = this)) as [->|Hne].
  - exists (fo o). rewrite list_lookup_alter_eq, Ho, Hfo. done.
  - exists o. by rewrite list_lookup_alter_ne.
Qed.

Lemma registered_objs_app o' w :
  registered w -> registered (set_objs (objs w ++ [o']) w).
Proof.
  intros H id this' Hs. destruct (H id this' Hs) as (o & Ho & H1 & H2).
  exists o. split; [|done]. cbn. by apply lookup_app_l_Some.
Qed.

Lemma registered_forget id w :
  registered w ->
  registered (set_activeSounds (<[id := None]> (activeSounds w)) w).
Proof.
  intros H id' this' Hs. apply (H id' this').
  unfold UI.activeSound in Hs |- *. cbn in Hs.
  destruct (decide (id = id')) as [->|Hne].
  - by rewrite lookup_insert_eq in Hs.
  - by rewrite lookup_insert_ne in Hs.
Qed.

Lemma new_ok w c cfg :
  audioCtx w = Some c ->
  SoundNode.new cfg w
  = (inr (length (objs w)),
     set_objs
       (objs w ++ [Obj.mkSoundNode cfg (length (nodes w)) None None None None
                     false])
       (set_nodes (nodes w ++ [with_gain 0.5 newGain]) w)).
Proof.
  intros Hc. unfold SoundNode.new, createGain.
  rewrite (bind_ok _ _ _ _ _ (StartFacts.alloc_ok w c _ Hc)).
  unfold updNode, bind, modify, gets, ret. cbn.
  by rewrite StartFacts.alter_app_len.
Qed.

(** Lines 277-279 of the click handler keep the registry. *)
Lemma register_sane sound :
  sound ∈ Profile.sounds ->
  preserves sane
    (bind (SoundNode.new sound) (fun this =>
       modify (fun w =>
         set_activeSounds (<[Profile.id sound := Some this]> (activeSounds w))
           w))).
Proof.
  intros Hin w (Hc & Ha & Hreg).
  rewrite (bind_ok _ _ _ _ _ (new_ok w _ sound Hc)).
  unfold modify. cbn [snd].
  split; [done|]. split; [done|].
  intros id this Hs. unfold UI.activeSound in Hs. cbn in Hs.
  destruct (decide (Profile.id sound = id)) as [<-|Hne].
  - rewrite lookup_insert_eq in Hs. injection Hs as <-.
    eexists. cbn. rewrite StartFacts.lookup_app_len. by split.
  - rewrite lookup_insert_ne in Hs by done.
    destruct (Hreg id this Hs) as (o & Ho & H1 & H2).
    exists o. split; [|done]. cbn. by apply lookup_app_l_Some.
Qed.

Lemma initAudio_sane : preserves sane initAudio.
Proof.
  intros w H. pose proof H as (Hc & _).
  by rewrite (OpFacts.initAudio_running w _ Hc eq_refl).
Qed.

Ltac unfold_handlers :=
  unfold UI.click, UI.input, UI.callback, UI.cleanup, UI.toggleActive,
    UI.receiver, SoundNode.start, SoundNode.stop, SoundNode.setVolume,
    SoundNode.teardown, SoundNode.start_finish,
    SoundNode.start_chain, SoundNode.start_cutoff_lfo,
    SoundNode.start_filter_kind, SoundNode.start_source,
    SoundNode.this_gainNode, SoundNode.this_source, SoundNode.this_filter,
    SoundNode.this_lfo, SoundNode.this_lfoGain, SoundNode.getObj,
    SoundNode.setObj, createImpulseBuffer, createPinkNoiseBuffer,
    createNoiseBuffer, setTimeout, setTargetAtTime, currentTime, stopNode,
    startNode, disconnect, connect, getNode, updNode, createAnalyser,
    createBiquadFilter, createGain, createOscillator, createBufferSource,
    alloc, getCtx.

Ltac sane_split Hin :=
  repeat lazymatch goal with
  | |- preserves _ initAudio => apply initAudio_sane
  | |- preserves _ (bind (SoundNode.new _) _) => apply (register_sane _ Hin)
  | |- preserves _ (bind _ _) => apply preserves_bind; [|intros ?]
  | |- preserves _ (ret _) => apply preserves_ret
  | |- preserves _ (throw _) => apply preserves_throw
  | |- preserves _ (gets _) => apply preserves_gets
  | |- preserves _ (deref _) => apply preserves_deref
  | |- preserves _ (try_ _) => apply preserves_try
  | |- preserves _ (modify _) => apply preserves_modify
  | |- preserves _ (if ?b then _ else _) => destruct b
  | |- preserves _ (match ?x with _ => _ end) => destruct x
  | |- preserves _ (let _ := _ in _) => cbv zeta
  end.

Ltac sane_leaf :=
  let w := fresh "w" in
  let Hc := fresh "Hc" in
  let Ha := fresh "Ha" in
  let Hreg := fresh "Hreg" in
  intros w (Hc & Ha & Hreg);
  try case_bool_decide;
  first
    [ by repeat split
    | split; [exact Hc|]; split; [exact Ha|];
      first
        [ exact Hreg
        | apply registered_objs_alter; [by intros []|exact Hreg]
        | by apply registered_forget ] ].

Lemma click_sane sound :
  sound ∈ Profile.sounds -> preserves sane (UI.click sound).
Proof. intros Hin. unfold_handlers. sane_split Hin; sane_leaf. Qed.

Lemma input_sane sound v : preserves sane (UI.input sound v).
Proof. unfold_handlers. pres_split; sane_leaf. Qed.

Lemma callback_sane cb : preserves sane (UI.callback cb).
Proof. unfold_handlers. pres_split; sane_leaf. Qed.

Lemma callbacks_sane (due : list (nat * Callback)) : forall w,
  sane w -> sane (foldl (fun w d => UI.run (UI.callback d.2) w) w due).
Proof.
  induction due as [|d due IH]; intros w H; [exact H|].
  cbn [foldl]. apply IH. by apply callback_sane.
Qed.

Lemma advance_sane ms : forall w, sane w -> sane (UI.advance ms w).
Proof.
  induction ms as [|ms IH]; intros w H; [exact H|].
  cbn [UI.advance]. apply IH. unfold UI.tick. cbv zeta.
  by apply callbacks_sane.
Qed.

(** *** Before the first click *)

Lemma dormant_init w : dormant w -> sane (UI.run initAudio w).
Proof.
  intros (Hc & Ha & Hn & He & Ho & Hs & Ht & Hcards).
  destruct (OpFacts.initAudio_once w) as (w1 & c & E & Hc1 & Hr & _ & H & _ & _ & Hs1).
  unfold UI.run. rewrite E. cbn [snd]. rewrite Hc in H. cbv zeta in H.
  destruct H as (Hd & Ha1 & _). rewrite Hn in Hd, Ha1. cbn in Hd, Ha1.
  split; [|split; [done|]].
  - rewrite Hc1. f_equal. destruct c. cbn in *. by subst.
  - intros id this H. unfold UI.activeSound in H. by rewrite Hs1, Hs in H.
Qed.

Lemma dormant_input sound v w :
  dormant w ->
  UI.input sound v w
  = (inr tt, set_sliders (<[Profile.id sound := v]> (sliders w)) w).
Proof.
  intros (Hc & Ha & Hn & He & Ho & Hs & Ht & Hcards).
  unfold UI.input. cbv zeta. unfold bind, modify, gets.
  change (UI.activeSound (Profile.id sound) (set_sliders _ w))
    with (UI.activeSound (Profile.id sound) w).
  unfold UI.activeSound. by rewrite Hs.
Qed.

Lemma dormant_advance ms w :
  dormant w -> UI.advance ms w = set_now (now w + ms) w.
Proof.
  intros (Hc & Ha & Hn & He & Ho & Hs & Ht & Hcards).
  apply advance_idle. rewrite Ht. constructor.
Qed.

(** The invariant of a session. *)
Lemma handle_inv ev w :
  on_table [ev] -> dormant w \/ sane w ->
  dormant (handle ev w) \/ sane (handle ev w).
Proof.
  intros Hev H. apply Forall_cons in Hev as [Hev _].
  destruct ev as [sound|sound v|ms]; cbn [handle].
  - right. destruct H as [H|H].
    + rewrite SessionFacts.click_after_init.
      by apply click_sane, dormant_init.
    + by apply click_sane.
  - destruct H as [H|H]; [left|right; by apply input_sane].
    unfold UI.run. by rewrite (dormant_input sound v w H).
  - destruct H as [H|H]; [left|right; by apply advance_sane].
    by rewrite (dormant_advance ms w H).
Qed.

Lemma play_inv evs : forall w,
  on_table evs -> dormant w \/ sane w ->
  dormant (play evs w) \/ sane (play evs w).
Proof.
  induction evs as [|ev evs IH]; intros w Hev H; [exact H|].
  apply Forall_cons in Hev as [Hev Hevs].
  rewrite SessionFacts.play_cons. apply IH; [done|].
  apply handle_inv; [|done]. by constructor.
Qed.

Lemma boot_dormant sr st rnd : dormant (UI.boot sr st rnd).
Proof. by repeat split. Qed.

(** *** A click returns *)

Lemma receiver_ok id w this :
  UI.activeSound id w = Some this -> UI.receiver id w = (inr this, w).
Proof. intros H. unfold UI.receiver, bind, gets. by rewrite H. Qed.

Lemma start_on w this o c a :
  objs w !! this = Some o -> audioCtx w = Some c -> analyser w = Some a ->
  Profile.type (Obj.config o) ∈ known_types ->
  exists w1 o1,
    SoundNode.start this w = (inr tt, w1)
    /\ same_page w w1
    /\ objs w1 !! this = Some o1
    /\ Obj.isPlaying o1 = true
    /\ Obj.gainNode o1 = Obj.gainNode o
    /\ Obj.config o1 = Obj.config o
    /\ (Obj.isPlaying o = true -> w1 = w)
    /\ (Obj.isPlaying o = false ->
        exists s, Obj.source o1 = Some s /\ (length (nodes w) <= s)%nat
                  /\ s ∈ UI.live_sources w1 (Obj.gainNode o)).
Proof.
  intros Ho Hc Ha Ht.
  pose proof (start_same_page w this w ltac:(by constructor)) as Hpage.
  assert (Hcfg0 : Obj.config <$> objs w !! this = Some (Obj.config o))
    by by rewrite Ho.
  pose proof (StartTotal.start_config this (Some (Obj.config o)) w Hcfg0)
    as Hcfg. cbv beta in Hcfg.
  destruct (Obj.isPlaying o) eqn:Hp.
  - exists w, o. rewrite (start_playing_noop w this o Ho Hp).
    split; [done|]. split; [by constructor|]. repeat split; try done.
  - destruct (StartTotal.start_idle w this o c a Ho Hp Hc Ha Ht)
      as (w1 & o1 & s & E & Ho1 & Hp1 & Hg1 & Hs1 & Hl & _ & Hlive & _).
    rewrite E in Hpage, Hcfg |- *. cbn [snd] in Hpage, Hcfg.
    rewrite Ho1 in Hcfg. injection Hcfg as Hcfg.
    exists w1, o1. split; [done|]. split; [exact Hpage|].
    repeat split; try done. eauto.
Qed.



Lemma stop_returns w this o c :
  objs w !! this = Some o -> audioCtx w = Some c ->
  exists w1, SoundNode.stop this w = (inr tt, w1).
Proof.
  intros Ho Hc. destruct (Obj.isPlaying o) eqn:Hp.
  - eexists. by apply stop_spec with c.
  - eexists. by apply stop_idle_noop with o.
Qed.

(** Lines 277-279: afterwards the registry holds a node for the card. *)
Lemma register_ok w sound :
  sane w -> sound ∈ Profile.sounds ->
  exists w1 this o,
    (if bool_decide (UI.activeSound (Profile.id sound) w = None) then
       bind (SoundNode.new sound) (fun this =>
         modify (fun w =>
           set_activeSounds
             (<[Profile.id sound := Some this]> (activeSounds w)) w))
     else ret tt) w = (inr tt, w1)
    /\ sane w1
    /\ UI.activeSound (Profile.id sound) w1 = Some this
    /\ objs w1 !! this = Some o
    /\ Obj.config o = sound
    /\ activeCards w1 = activeCards w
    /\ now w1 = now w /\ sliders w1 = sliders w
    /\ (length (nodes w) <= length (nodes w1))%nat
    /\ (forall this0, UI.activeSound (Profile.id sound) w = Some this0 ->
          w1 = w /\ this = this0)
    /\ (UI.activeSound (Profile.id sound) w = None ->
        Obj.isPlaying o = false).
Proof.
  intros Hs Hin. pose proof Hs as (Hc & Ha & Hreg).
  destruct (UI.activeSound (Profile.id sound) w) as [this|] eqn:E.
  - rewrite bool_decide_eq_false_2 by done.
    destruct (Hreg _ _ E) as (o & Ho & H1 & H2).
    exists w, this, o. repeat split; try done.
    + by apply sounds_id_inj.
    + congruence.
  - rewrite bool_decide_eq_true_2 by done.
    pose proof (register_sane sound Hin w Hs) as Hs1.
    rewrite (bind_ok _ _ _ _ _ (new_ok w _ sound Hc)) in Hs1 |- *.
    unfold modify in Hs1 |- *. cbn [snd] in Hs1.
    eexists _, (length (objs w)), _. split; [reflexivity|].
    split; [exact Hs1|]. split; [|split].
    + unfold UI.activeSound. cbn. by rewrite lookup_insert_eq.
    + cbn. by rewrite StartFacts.lookup_app_len.
    + repeat split; try done. cbn. rewrite length_app. lia.
Qed.

Lemma click_returns w sound :
  sane w -> sound ∈ Profile.sounds -> Profile.type sound ∈ known_types ->
  (UI.click sound w).1 = inr tt.
Proof.
  intros Hs Hin Ht. pose proof Hs as (Hc & Ha & Hreg).
  unfold UI.click. cbv zeta.
  rewrite (bind_ok _ _ _ _ _ (OpFacts.initAudio_running w _ Hc eq_refl)).
  unfold UI.toggleActive.
  rewrite (bind_ok (modify _) _ w tt _ eq_refl).
  match goal with
  | |- context [bind (gets (UI.activeSound _)) _ ?W] => set (w0 := W)
  end.
  assert (Hs0 : sane w0).
  { subst w0. case_bool_decide; by repeat split. }
  rewrite (bind_ok (gets _) _ w0 _ w0 eq_refl).
  destruct (register_ok w0 sound Hs0 Hin)
    as (w1 & this & o & E1 & Hs1 & Hr1 & Ho1 & Hcfg & Hcards & _).
  rewrite (bind_ok _ _ _ _ _ E1).
  rewrite (bind_ok (gets _) _ w1 _ w1 eq_refl).
  destruct Hs1 as (Hc1 & Ha1 & _).
  destruct (bool_decide (Profile.id sound ∈ activeCards w1)).
  - rewrite (bind_ok _ _ _ _ _ (receiver_ok _ _ _ Hr1)).
    destruct (start_on w1 this o _ _ Ho1 Hc1 Ha1)
      as (w2 & o2 & E2 & [_ _ _ Hc2' _ Hact _ _ _] & Ho2 & _);
      [by rewrite Hcfg|].
    assert (Hc2 : audioCtx w2 = Some (mkContext Running 0)) by congruence.
    rewrite (bind_ok _ _ _ _ _ E2).
    assert (Hr2 : UI.activeSound (Profile.id sound) w2 = Some this).
    { unfold UI.activeSound in Hr1 |- *. by rewrite Hact. }
    rewrite (bind_ok _ _ _ _ _ (receiver_ok _ _ _ Hr2)).
    rewrite (bind_ok (gets _) _ w2 _ w2 eq_refl).
    by rewrite (setVolume_spec w2 this o2 _ _ Ho2 Hc2).
  - rewrite (bind_ok _ _ _ _ _ (receiver_ok _ _ _ Hr1)).
    destruct (stop_returns w1 this o _ Ho1 Hc1) as (w2 & E2).
    by rewrite (bind_ok _ _ _ _ _ E2).
Qed.

Lemma click_init_eq sound w :
  UI.click sound w = UI.click sound (UI.run initAudio w).
Proof.
  destruct (OpFacts.initAudio_once w) as (w1 & c & E & _ & _ & E1 & _).
  unfold UI.run. rewrite E. cbn [snd].
  unfold UI.click. cbv zeta.
  by rewrite (bind_ok _ _ _ _ _ E), (bind_ok _ _ _ _ _ E1).
Qed.

(** [initAudio] leaves the page as it is. *)
Lemma initAudio_page w0 :
  preserves (fun w => activeCards w = activeCards w0
                      /\ sliders w = sliders w0 /\ now w = now w0
                      /\ activeSounds w = activeSounds w0
                      /\ objs w = objs w0 /\ timers w = timers w0
                      /\ (length (nodes w0) <= length (nodes w))%nat)
            initAudio.
Proof.
  unfold_engine. pres_split.
  all: intros w (H1 & H2 & H3 & H4 & H5 & H6 & H7); cbn.
  all: rewrite ?length_app, ?length_alter; repeat split; try done; lia.
Qed.

Lemma live_sources_volume w ev g g' :
  UI.live_sources (set_nodes (alter (push_event ev) g (nodes w)) w) g'
  = UI.live_sources w g'.
Proof.
  assert (Hrun : forall b,
    UI.running (set_nodes (alter (push_event ev) g (nodes w)) w) b
    = UI.running w b).
  { intros b. unfold UI.running. cbn. destruct (decide (g = b)) as [->|Hne].
    - rewrite list_lookup_alter_eq. by destruct (nodes w !! b) as [[]|].
    - by rewrite list_lookup_alter_ne. }
  unfold UI.live_sources. cbn [nodes set_nodes]. rewrite length_alter.
  apply list_filter_iff. intros a.
  unfold UI.feeds, UI.attached. rewrite Hrun. cbn. by rewrite length_alter.
Qed.

(** A click on an inactive card. *)
Lemma click_on w sound :
  sane w -> sound ∈ Profile.sounds -> Profile.type sound ∈ known_types ->
  Profile.id sound ∉ activeCards w ->
  exists w2 this o,
    UI.click sound w
    = (inr tt,
       set_nodes
         (alter (push_event (UI.sliderValue (Profile.id sound) w,
                             inject_Z (Z.of_nat (now w)) / 1000, 0.1))
                (Obj.gainNode o) (nodes w2)) w2)
    /\ Profile.id sound ∈ activeCards w2
    /\ UI.activeSound (Profile.id sound) w2 = Some this
    /\ objs w2 !! this = Some o
    /\ Obj.config o = sound /\ Obj.isPlaying o = true
    /\ (forall this0 o0,
          UI.activeSound (Profile.id sound) w = Some this0 ->
          objs w !! this0 = Some o0 -> Obj.isPlaying o0 = true ->
          nodes w2 = nodes w /\ edges w2 = edges w)
    /\ ((forall this0 o0,
           UI.activeSound (Profile.id sound) w = Some this0 ->
           objs w !! this0 = Some o0 -> Obj.isPlaying o0 = false) ->
        exists s, Obj.source o = Some s /\ (length (nodes w) <= s)%nat
                  /\ s ∈ UI.live_sources w2 (Obj.gainNode o)).
Proof.
  intros Hs Hin Ht Hoff. pose proof Hs as (Hc & Ha & Hreg).
  unfold UI.click. cbv zeta.
  rewrite (bind_ok _ _ _ _ _ (OpFacts.initAudio_running w _ Hc eq_refl)).
  unfold UI.toggleActive.
  rewrite (bind_ok (modify _) _ w tt _ eq_refl).
  rewrite (bool_decide_eq_false_2 _ Hoff).
  set (w0 := set_activeCards (activeCards w ∪ {[Profile.id sound]}) w).
  assert (Hs0 : sane w0) by by repeat split.
  rewrite (bind_ok (gets _) _ w0 _ w0 eq_refl).
  destruct (register_ok w0 sound Hs0 Hin)
    as (w1 & this & o & E1 & Hs1 & Hr1 & Ho1 & Hcfg & Hcards & Hnow & Hsl
        & Hlen & Hsome & Hnone).
  rewrite (bind_ok _ _ _ _ _ E1).
  rewrite (bind_ok (gets _) _ w1 _ w1 eq_refl).
  rewrite bool_decide_eq_true_2
    by (rewrite Hcards; cbn; apply elem_of_union; right;
        by apply elem_of_singleton).
  destruct Hs1 as (Hc1 & Ha1 & _).
  rewrite (bind_ok _ _ _ _ _ (receiver_ok _ _ _ Hr1)).
  destruct (start_on w1 this o _ _ Ho1 Hc1 Ha1)
    as (w2 & o2 & E2 & Hpage & Ho2 & Hp2 & Hg2 & Hcfg2 & Hsame & Hnew);
    [by rewrite Hcfg|].
  destruct Hpage as [_ _ Hnow2 Hc2 _ Hact2 Hcards2 Hsl2 _].
  rewrite (bind_ok _ _ _ _ _ E2).
  assert (Hr2 : UI.activeSound (Profile.id sound) w2 = Some this).
  { unfold UI.activeSound in Hr1 |- *. by rewrite Hact2. }
  rewrite (bind_ok _ _ _ _ _ (receiver_ok _ _ _ Hr2)).
  rewrite (bind_ok (gets _) _ w2 _ w2 eq_refl).
  rewrite (setVolume_spec w2 this o2 (mkContext Running 0) _ Ho2)
    by congruence.
  assert (Hv : UI.sliderValue (Profile.id sound) w2
               = UI.sliderValue (Profile.id sound) w).
  { unfold UI.sliderValue. by rewrite Hsl2, Hsl. }
  assert (Hn : now w2 = now w) by (by rewrite Hnow2, Hnow).
  rewrite Hv, Hn.
  exists w2, this, o2. split; [done|].
  split; [rewrite Hcards2, Hcards; cbn; apply elem_of_union; right;
          by apply elem_of_singleton|].
  split; [done|]. split; [done|]. split; [congruence|]. split; [done|].
  split.
  - intros this0 o0 H1 H2 H3.
    destruct (Hsome this0 H1) as [-> ->].
    assert (o = o0) as -> by (cbn in Ho1; congruence).
    rewrite (Hsame H3). by split.
  - intros Hidle.
    assert (Hp : Obj.isPlaying o = false).
    { destruct (UI.activeSound (Profile.id sound) w) as [this0|] eqn:E0.
      - destruct (Hsome this0 E0) as [-> ->]. by apply (Hidle this0 o).
      - by apply Hnone. }
    destruct (Hnew Hp) as (s & H1 & H2 & H3).
    exists s. split; [done|]. split; [cbn in Hlen; lia|]. by rewrite Hg2.
Qed.

(** A click on an active card. *)
Lemma click_off w sound :
  sane w -> sound ∈ Profile.sounds ->
  Profile.id sound ∈ activeCards w ->
  exists w2 this o,
    UI.click sound w
    = (inr tt,
       set_timers
         (timers w2 ++ [((now w + 200)%nat, Cleanup (Profile.id sound))])
         w2)
    /\ activeCards w2 = activeCards w ∖ {[Profile.id sound]}
    /\ now w2 = now w
    /\ UI.activeSound (Profile.id sound) w2 = Some this
    /\ objs w2 !! this = Some o /\ Obj.config o = sound
    /\ (forall this0 o0,
          UI.activeSound (Profile.id sound) w = Some this0 ->
          objs w !! this0 = Some o0 -> Obj.isPlaying o0 = true ->
          this = this0
          /\ w2 = stopping this0 o0
                    (set_activeCards (activeCards w ∖ {[Profile.id sound]})
                       w))
    /\ ((forall this0 o0,
           UI.activeSound (Profile.id sound) w = Some this0 ->
           objs w !! this0 = Some o0 -> Obj.isPlaying o0 = false) ->
        timers w2 = timers w /\ edges w2 = edges w).
Proof.
  intros Hs Hin Hon. pose proof Hs as (Hc & Ha & Hreg).
  unfold UI.click. cbv zeta.
  rewrite (bind_ok _ _ _ _ _ (OpFacts.initAudio_running w _ Hc eq_refl)).
  unfold UI.toggleActive.
  rewrite (bind_ok (modify _) _ w tt _ eq_refl).
  rewrite (bool_decide_eq_true_2 _ Hon).
  set (w0 := set_activeCards (activeCards w ∖ {[Profile.id sound]}) w).
  assert (Hs0 : sane w0) by by repeat split.
  rewrite (bind_ok (gets _) _ w0 _ w0 eq_refl).
  destruct (register_ok w0 sound Hs0 Hin)
    as (w1 & this & o & E1 & Hs1 & Hr1 & Ho1 & Hcfg & Hcards & Hnow & Hsl
        & Hlen & Hsome & Hnone).
  rewrite (bind_ok _ _ _ _ _ E1).
  rewrite (bind_ok (gets _) _ w1 _ w1 eq_refl).
  rewrite bool_decide_eq_false_2
    by (rewrite Hcards; cbn; rewrite elem_of_difference, elem_of_singleton;
        by intros [_ H]).
  destruct Hs1 as (Hc1 & Ha1 & _).
  rewrite (bind_ok _ _ _ _ _ (receiver_ok _ _ _ Hr1)).
  destruct (Obj.isPlaying o) eqn:Hp.
  - rewrite (bind_ok _ _ _ _ _ (stop_spec w1 this o _ Ho1 Hp Hc1)).
    exists (stopping this o w1), this, o.
    split; [unfold setTimeout, modify; cbn; by rewrite Hnow|].
    split; [done|]. split; [done|]. split; [done|]. split; [done|].
    split; [done|]. split.
    + intros this0 o0 H1 H2 H3. destruct (Hsome this0 H1) as [-> ->].
      assert (o = o0) as -> by (cbn in Ho1; congruence). done.
    + intros Hidle. exfalso.
      destruct (UI.activeSound (Profile.id sound) w) as [this0|] eqn:E0.
      * destruct (Hsome this0 E0) as [-> ->].
        specialize (Hidle this0 o eq_refl Ho1). congruence.
      * specialize (Hnone E0). congruence.
  - rewrite (bind_ok _ _ _ _ _ (stop_idle_noop w1 this o Ho1 Hp)).
    exists w1, this, o.
    split; [unfold setTimeout, modify; cbn; by rewrite Hnow|].
    split; [done|]. split; [done|]. split; [done|]. split; [done|].
    split; [done|]. split.
    + intros this0 o0 H1 H2 H3. destruct (Hsome this0 H1) as [-> ->].
      cbn in Ho1. congruence.
    + intros _.
      destruct (UI.activeSound (Profile.id sound) w) as [this0|] eqn:E0.
      * by destruct (Hsome this0 E0) as [-> ->].
      * clear Hsome Hnone. revert E1.
        rewrite bool_decide_eq_true_2 by done.
        rewrite (bind_ok _ _ _ _ _ (new_ok w0 _ sound Hc)).
        unfold modify. by intros [= <-].
Qed.

Lemma input_returns w sound v :
  dormant w \/ sane w -> (UI.input sound v w).1 = inr tt.
Proof.
  intros [H|(Hc & Ha & Hreg)]; [by rewrite (dormant_input sound v w H)|].
  destruct (UI.activeSound (Profile.id sound) w) as [this|] eqn:E.
  - destruct (Hreg _ _ E) as (o & Ho & _).
    unfold UI.input. cbv zeta. unfold bind at 1. unfold modify at 1.
    unfold bind at 1. unfold gets at 1.
    change (UI.activeSound (Profile.id sound) (set_sliders _ w))
      with (UI.activeSound (Profile.id sound) w).
    rewrite E. unfold bind at 1. unfold gets at 1.
    by erewrite (setVolume_spec _ this o).
  - unfold UI.input. cbv zeta. unfold bind, modify, gets.
    change (UI.activeSound (Profile.id sound) (set_sliders _ w))
      with (UI.activeSound (Profile.id sound) w).
    by rewrite E.
Qed.

(** The same on any page of a session. *)
Lemma click_on_session w sound :
  dormant w \/ sane w ->
  sound ∈ Profile.sounds -> Profile.type sound ∈ known_types ->
  Profile.id sound ∉ activeCards w ->
  exists w2 this o,
    UI.click sound w
    = (inr tt,
       set_nodes
         (alter (push_event (UI.sliderValue (Profile.id sound) w,
                             inject_Z (Z.of_nat (now w)) / 1000, 0.1))
                (Obj.gainNode o) (nodes w2)) w2)
    /\ Profile.id sound ∈ activeCards w2
    /\ UI.activeSound (Profile.id sound) w2 = Some this
    /\ objs w2 !! this = Some o
    /\ Obj.config o = sound /\ Obj.isPlaying o = true
    /\ (forall this0 o0,
          UI.activeSound (Profile.id sound) w = Some this0 ->
          objs w !! this0 = Some o0 -> Obj.isPlaying o0 = true ->
          nodes w2 = nodes w /\ edges w2 = edges w)
    /\ ((forall this0 o0,
           UI.activeSound (Profile.id sound) w = Some this0 ->
           objs w !! this0 = Some o0 -> Obj.isPlaying o0 = false) ->
        exists s, Obj.source o = Some s /\ (length (nodes w) <= s)%nat
                  /\ s ∈ UI.live_sources (UI.click sound w).2
                         (Obj.gainNode o)).
Proof.
  intros [Hd|Hs] Hin Ht Hoff.
  - pose proof (initAudio_page w w) as Hpage.
    assert (H0 : activeCards w = activeCards w
                 /\ sliders w = sliders w /\ now w = now w
                 /\ activeSounds w = activeSounds w
                 /\ objs w = objs w /\ timers w = timers w
                 /\ (length (nodes w) <= length (nodes w))%nat)
      by by repeat split.
    specialize (Hpage H0). cbv beta in Hpage.
    fold (UI.run initAudio w) in Hpage.
    set (w' := UI.run initAudio w) in *.
    destruct Hpage as (H1 & H2 & H3 & H4 & H5 & H6 & H7).
    pose proof Hd as (_ & _ & _ & _ & _ & Hempty & _).
    destruct (click_on w' sound (dormant_init w Hd) Hin Ht)
      as (w2 & this & o & E & Hon & Hr & Ho & Hcfg & Hp & _ & Hnew).
    { by rewrite H1. }
    assert (Hv : UI.sliderValue (Profile.id sound) w'
                 = UI.sliderValue (Profile.id sound) w).
    { unfold UI.sliderValue. by rewrite H2. }
    rewrite (click_init_eq sound w). fold w'. rewrite E.
    rewrite Hv, H3 in *.
    exists w2, this, o. repeat split; try done.
    + exfalso. unfold UI.activeSound in H. by rewrite Hempty in H.
    + exfalso. unfold UI.activeSound in H. by rewrite Hempty in H.
    + intros _. destruct Hnew as (s & Hs1 & Hs2 & Hs3).
      { intros this0 o0 Hx. unfold UI.activeSound in Hx.
        by rewrite H4, Hempty in Hx. }
      exists s. split; [done|]. split; [lia|].
      cbn [snd]. by rewrite live_sources_volume.
  - destruct (click_on w sound Hs Hin Ht Hoff)
      as (w2 & this & o & E & Hon & Hr & Ho & Hcfg & Hp & Hsame & Hnew).
    rewrite E. exists w2, this, o. repeat split; try done.
    + by apply (Hsame this0 o0).
    + by apply (Hsame this0 o0).
    + intros Hidle. destruct (Hnew Hidle) as (s & Hs1 & Hs2 & Hs3).
      exists s. split; [done|]. split; [done|].
      cbn [snd]. by rewrite live_sources_volume.
Qed.

Lemma click_off_session w sound :
  dormant w \/ sane w ->
  sound ∈ Profile.sounds ->
  Profile.id sound ∈ activeCards w ->
  exists w2 this o,
    UI.click sound w
    = (inr tt,
       set_timers
         (timers w2 ++ [((now w + 200)%nat, Cleanup (Profile.id sound))])
         w2)
    /\ activeCards w2 = activeCards w ∖ {[Profile.id sound]}
    /\ now w2 = now w
    /\ UI.activeSound (Profile.id sound) w2 = Some this
    /\ objs w2 !! this = Some o /\ Obj.config o = sound
    /\ (forall this0 o0,
          UI.activeSound (Profile.id sound) w = Some this0 ->
          objs w !! this0 = Some o0 -> Obj.isPlaying o0 = true ->
          this = this0
          /\ w2 = stopping this0 o0
                    (set_activeCards (activeCards w ∖ {[Profile.id sound]})
                       w))
    /\ ((forall this0 o0,
           UI.activeSound (Profile.id sound) w = Some this0 ->
           objs w !! this0 = Some o0 -> Obj.isPlaying o0 = false) ->
        timers w2 = timers w /\ edges w2 = edges w).
Proof.
  intros [Hd|Hs] Hin Hon.
  - destruct Hd as (_ & _ & _ & _ & _ & _ & _ & Hempty).
    rewrite Hempty in Hon. by apply not_elem_of_empty in Hon.
  - by apply click_off.
Qed.

(** *** Nothing is deleted *)

Lemma grown_objs_alter n0 m0 this cfg g fo t w :
  (forall o, Obj.config (fo o) = Obj.config o
             /\ Obj.gainNode (fo o) = Obj.gainNode o) ->
  grown n0 m0 this cfg g w ->
  grown n0 m0 this cfg g (set_objs (alter fo t (objs w)) w).
Proof.
  intros Hfo (Hn & Hm & o & Ho & Hc & Hg).
  split; [done|]. split; [cbn; by rewrite length_alter|]. cbn.
  destruct (decide (this = t)) as [->|Hne].
  - exists (fo o). rewrite list_lookup_alter_eq, Ho.
    destruct (Hfo o) as [-> ->]. done.
  - exists o. by rewrite list_lookup_alter_ne.
Qed.

Ltac grown_leaf :=
  let w := fresh "w" in
  let H := fresh "H" in
  intros w H;
  try case_bool_decide;
  first
    [ exact H
    | apply grown_objs_alter; [by intros []|exact H]
    | destruct H as (?Hn & ?Hm & ?o & ?Ho & ?Hc & ?Hg);
      split; [cbn; rewrite ?length_app, ?length_alter; lia|];
      split; [cbn; rewrite ?length_app, ?length_alter; lia|];
      eexists; split; [cbn; first [eassumption|by apply lookup_app_l_Some]|];
      by split ].

Lemma click_grown n0 m0 this cfg g sound :
  preserves (grown n0 m0 this cfg g) (UI.click sound).
Proof.
  unfold UI.click, UI.toggleActive, UI.receiver, SoundNode.new.
  unfold_engine. pres_split; grown_leaf.
Qed.

Lemma input_grown n0 m0 this cfg g sound v :
  preserves (grown n0 m0 this cfg g) (UI.input sound v).
Proof. unfold UI.input. unfold_engine. pres_split; grown_leaf. Qed.

Lemma callback_grown n0 m0 this cfg g cb :
  preserves (grown n0 m0 this cfg g) (UI.callback cb).
Proof.
  unfold UI.callback, UI.cleanup. unfold_engine. pres_split; grown_leaf.
Qed.

Lemma callbacks_grown n0 m0 this cfg g (due : list (nat * Callback)) :
  forall w,
  grown n0 m0 this cfg g w ->
  grown n0 m0 this cfg g
    (foldl (fun w d => UI.run (UI.callback d.2) w) w due).
Proof.
  induction due as [|d due IH]; intros w H; [exact H|].
  cbn [foldl]. apply IH. by apply callback_grown.
Qed.

Lemma advance_grown n0 m0 this cfg g ms : forall w,
  grown n0 m0 this cfg g w -> grown n0 m0 this cfg g (UI.advance ms w).
Proof.
  induction ms as [|ms IH]; intros w H; [exact H|].
  cbn [UI.advance]. apply IH. unfold UI.tick. cbv zeta.
  by apply callbacks_grown.
Qed.

Lemma play_grown n0 m0 this cfg g evs : forall w,
  grown n0 m0 this cfg g w -> grown n0 m0 this cfg g (play evs w).
Proof.
  induction evs as [|ev evs IH]; intros w H; [exact H|].
  rewrite SessionFacts.play_cons. apply IH.
  destruct ev as [sound|sound v|ms]; cbn [handle].
  - by apply click_grown.
  - by apply input_grown.
  - by apply advance_grown.
Qed.

End SafetyFacts.

(** X14.  In every session on the table's cards (clicks, slider moves,
    time passing, from the freshly loaded page), a click on any card but
    that of the periodic profile returns normally, and so does every move
    of a slider: no handler fails for want of a context, a receiver or a
    source. *)
Theorem X14_handlers_return (sr : nat) (st : CtxState) (rnd : nat -> Q)
    (evs : list Session.Event) (sound : Profile.Config) (v : Q) :
  Session.on_table evs ->
  sound ∈ Profile.sounds ->
  let w := Session.play evs (UI.boot sr st rnd) in
  (Profile.type sound <> "periodic" -> (UI.click sound w).1 = inr tt)
  /\ (UI.input sound v w).1 = inr tt.
Proof.
  intros Hev Hin w.
  pose proof (SafetyFacts.play_inv evs _ Hev
                (or_introl (SafetyFacts.boot_dormant sr st rnd))) as H.
  fold w in H. split.
  - intros Ht. pose proof (SafetyFacts.sounds_known sound Hin Ht) as Hk.
    destruct H as [H|H].
    + rewrite (SafetyFacts.click_init_eq sound w).
      apply SafetyFacts.click_returns; [|done..].
      by apply SafetyFacts.dormant_init.
    + by apply SafetyFacts.click_returns.
  - by apply SafetyFacts.input_returns.
Qed.

Lemma X14_handlers_return_witness :
  (UI.click Profile.ocean
     (Session.play
        [Session.Click Profile.ocean; Session.Wait 5;
         Session.Click Profile.ocean; Session.Click Profile.chime;
         Session.Wait 300]
        Scenario.page)).1 = inr tt.
Proof.
  refine (proj1 (X14_handlers_return (441 * 100) Suspended Scenario.rnd0
                   _ Profile.ocean 0.5 _ _) _).
  - repeat constructor.
  - unfold Profile.sounds. set_solver.
  - discriminate.
Defined.

(** X15.  A click on an inactive card of the table (any session, any
    profile but the periodic one) returns with the card active and a
    playing node registered for it, and makes the slider's current value
    (0.5 until the slider is moved) the target of the node's gain.  When
    the card had no node, or a node that was not playing, a new source
    runs afterwards and feeds the mix bus through the node's gain.  When
    its node was still playing (its teardown is pending), the click
    creates and connects nothing. *)
Theorem X15_activation (sr : nat) (st : CtxState) (rnd : nat -> Q)
    (evs : list Session.Event) (sound : Profile.Config) :
  Session.on_table evs ->
  sound ∈ Profile.sounds ->
  Profile.type sound <> "periodic" ->
  let w := Session.play evs (UI.boot sr st rnd) in
  Profile.id sound ∉ activeCards w ->
  exists w2 this o,
    UI.click sound w
    = (inr tt,
       set_nodes
         (alter (push_event (UI.sliderValue (Profile.id sound) w,
                             inject_Z (Z.of_nat (now w)) / 1000, 0.1))
                (Obj.gainNode o) (nodes w2)) w2)
    /\ Profile.id sound ∈ activeCards w2
    /\ UI.activeSound (Profile.id sound) w2 = Some this
    /\ objs w2 !! this = Some o
    /\ Obj.config o = sound /\ Obj.isPlaying o = true
    /\ (forall this0 o0,
          UI.activeSound (Profile.id sound) w = Some this0 ->
          objs w !! this0 = Some o0 -> Obj.isPlaying o0 = true ->
          nodes w2 = nodes w /\ edges w2 = edges w)
    /\ ((forall this0 o0,
           UI.activeSound (Profile.id sound) w = Some this0 ->
           objs w !! this0 = Some o0 -> Obj.isPlaying o0 = false) ->
        exists s, Obj.source o = Some s /\ (length (nodes w) <= s)%nat
                  /\ s ∈ UI.live_sources (UI.click sound w).2
                         (Obj.gainNode o)).
Proof.
  intros Hev Hin Ht w Hoff.
  apply SafetyFacts.click_on_session; try done.
  - apply SafetyFacts.play_inv; [done|].
    left. apply SafetyFacts.boot_dormant.
  - by apply SafetyFacts.sounds_known.
Qed.

Lemma X15_activation_witness :
  (UI.click Profile.drone Scenario.page).1 = inr tt.
Proof.
  destruct (X15_activation (441 * 100) Suspended Scenario.rnd0 []
              Profile.drone) as (w2 & this & o & E & _).
  - constructor.
  - unfold Profile.sounds. do 4 apply list_elem_of_further.
    apply list_elem_of_here.
  - discriminate.
  - apply not_elem_of_empty.
  - change (Session.play [] (UI.boot (441 * 100) Suspended Scenario.rnd0))
      with Scenario.page in E.
    by rewrite E.
Defined.

(** X16.  A click on an active card of the table returns with the card
    inactive and the clean-up scheduled 200 ms later.  When the card's
    node was playing, the click is [stop] on that node: the fade and one
    teardown 150 ms later, with every source still running and every
    connection in place.  When the node was not playing, nothing is
    scheduled but the clean-up and no connection changes. *)
Theorem X16_deactivation (sr : nat) (st : CtxState) (rnd : nat -> Q)
    (evs : list Session.Event) (sound : Profile.Config) :
  Session.on_table evs ->
  sound ∈ Profile.sounds ->
  let w := Session.play evs (UI.boot sr st rnd) in
  Profile.id sound ∈ activeCards w ->
  exists w2 this o,
    UI.click sound w
    = (inr tt,
       set_timers
         (timers w2 ++ [((now w + 200)%nat, Cleanup (Profile.id sound))])
         w2)
    /\ activeCards w2 = activeCards w ∖ {[Profile.id sound]}
    /\ now w2 = now w
    /\ UI.activeSound (Profile.id sound) w2 = Some this
    /\ objs w2 !! this = Some o /\ Obj.config o = sound
    /\ (forall this0 o0,
          UI.activeSound (Profile.id sound) w = Some this0 ->
          objs w !! this0 = Some o0 -> Obj.isPlaying o0 = true ->
          this = this0
          /\ w2 = stopping this0 o0
                    (set_activeCards (activeCards w ∖ {[Profile.id sound]})
                       w))
    /\ ((forall this0 o0,
           UI.activeSound (Profile.id sound) w = Some this0 ->
           objs w !! this0 = Some o0 -> Obj.isPlaying o0 = false) ->
        timers w2 = timers w /\ edges w2 = edges w).
Proof.
  intros Hev Hin w Hon.
  apply SafetyFacts.click_off_session; try done.
  apply SafetyFacts.play_inv; [done|].
  left. apply SafetyFacts.boot_dormant.
Qed.

Lemma X16_deactivation_witness :
  (UI.click Profile.drone
     (Session.play [Session.Click Profile.drone] Scenario.page)).1 = inr tt.
Proof.
  destruct (X16_deactivation (441 * 100) Suspended Scenario.rnd0
              [Session.Click Profile.drone] Profile.drone)
    as (w2 & this & o & E & _).
  - repeat constructor.
  - unfold Profile.sounds. do 4 apply list_elem_of_further.
    apply list_elem_of_here.
  - apply (bool_decide_unpack _). vm_compute. exact I.
  - change (UI.boot (441 * 100) Suspended Scenario.rnd0)
      with Scenario.page in E.
    by rewrite E.
Defined.

(** X21.  A [SoundNode] keeps the profile and the gain stage that its
    constructor gave it: no click, slider move or callback assigns
    [config] or [gainNode] again. *)
Theorem X21_profile_and_gain_are_fixed (w : World)
    (evs : list Session.Event) (this : nat) (o : Obj.SoundNode) :
  objs w !! this = Some o ->
  exists o', objs (Session.play evs w) !! this = Some o'
             /\ Obj.config o' = Obj.config o
             /\ Obj.gainNode o' = Obj.gainNode o.
Proof.
  intros Ho.
  apply (SafetyFacts.play_grown (length (nodes w)) (length (objs w)) this
           (Obj.config o) (Obj.gainNode o) evs w).
  split; [done|]. split; [done|]. by exists o.
Qed.

Lemma X21_profile_and_gain_are_fixed_witness :
  exists o',
    objs (Session.play
            [Session.Click Profile.drone; Session.Wait 300;
             Session.Click Profile.drone]
            (Scenario.fresh Profile.drone Scenario.page)) !! 0%nat
    = Some o'
    /\ Obj.config o' = Profile.drone /\ Obj.gainNode o' = 2%nat.
Proof.
  refine (X21_profile_and_gain_are_fixed
            (Scenario.fresh Profile.drone Scenario.page) _ 0
            (Obj.mkSoundNode Profile.drone 2 None None None None false) _).
  vm_compute. reflexivity.
Defined.

(** X22.  In every session on the table's cards the registry is sound:
    an entry of [activeSounds] that is not null refers to an existing
    [SoundNode], built for the table's profile of that id; and once there
    is an audio context it runs and the analyser exists. *)
Theorem X22_registry_is_sound (sr : nat) (st : CtxState) (rnd : nat -> Q)
    (evs : list Session.Event) :
  Session.on_table evs ->
  let w := Session.play evs (UI.boot sr st rnd) in
  Session.registered w
  /\ (audioCtx w = None
      \/ audioCtx w = Some (mkContext Running 0)
         /\ analyser w = Some 1%nat).
Proof.
  intros Hev. cbv zeta.
  destruct (SafetyFacts.play_inv evs _ Hev
              (or_introl (SafetyFacts.boot_dormant sr st rnd)))
    as [(Hc & _ & _ & _ & _ & Hs & _)|(Hc & Ha & Hreg)].
  - split; [|by left]. intros id this H.
    unfold UI.activeSound in H. by rewrite Hs in H.
  - split; [done|]. by right.
Qed.

Lemma X22_registry_is_sound_witness :
  Session.registered
    (Session.play
       [Session.Click Profile.vinyl; Session.Input Profile.vinyl 0.2;
        Session.Click Profile.vinyl; Session.Wait 250]
       (UI.boot 8 Running Scenario.rnd0)).
Proof.
  refine (proj1 (X22_registry_is_sound 8 Running Scenario.rnd0 _ _)).
  repeat constructor.
Defined.


(** * More runs of the page *)

Module RunFacts.
Import MonadFacts Runs.

Lemma side_by_side_all sr st rnd :
  forallb (side_by_side sr st rnd) (list_prod playable playable) = true.
Proof. destruct st; vm_compute; reflexivity. Qed.

Lemma forgotten_all sr st rnd k :
  forallb (forgotten sr st rnd k) Profile.sounds = true.
Proof. destruct st; vm_compute; reflexivity. Qed.

Lemma side_by_side_spec sr st rnd a b :
  side_by_side sr st rnd (a, b) = true ->
  Profile.id a <> Profile.id b ->
  let w2 := duo a b (UI.boot sr st rnd) in
  let w3 := duo_then_off a b (UI.boot sr st rnd) in
  (length <$> UI.live_graphs w2 (Profile.id a)) = Some 1%nat
  /\ (length <$> UI.live_graphs w2 (Profile.id b)) = Some 1%nat
  /\ UI.live_graphs w3 (Profile.id a) = Some []
  /\ UI.live_graphs w3 (Profile.id b) = UI.live_graphs w2 (Profile.id b)
  /\ UI.lifecycle w3 0 = Some UI.Idle
  /\ UI.lifecycle w3 1 = Some UI.Playing.
Proof.
  unfold side_by_side. cbv zeta. cbn [fst snd]. intros H Hne.
  rewrite bool_decide_eq_false_2 in H by done.
  rewrite !andb_true_iff, !bool_decide_eq_true in H. tauto.
Qed.

Lemma forgotten_spec sr st rnd k cfg :
  forgotten sr st rnd k cfg = true ->
  let w := cycle cfg (UI.boot sr st rnd) in
  let w' := UI.run (UI.click cfg) (set_now (now w + k) w) in
  UI.activeSound (Profile.id cfg) w = None
  /\ (Profile.id cfg ∉ activeCards w)
  /\ UI.lifecycle w 0 = Some UI.Idle
  /\ UI.live_sources w 2 = []
  /\ timers w = []
  /\ (Profile.type cfg <> "periodic" -> UI.bus_inputs w = [2%nat])
  /\ UI.activeSound (Profile.id cfg) w' = Some 1%nat
  /\ (Profile.type cfg <> "periodic" ->
      (length <$> UI.live_graphs w' (Profile.id cfg)) = Some 1%nat)
  /\ (Profile.type cfg <> "periodic" -> length (UI.bus_inputs w') = 2%nat).
Proof.
  unfold forgotten. cbv zeta. intros H.
  rewrite !andb_true_iff, !bool_decide_eq_true in H. tauto.
Qed.

Lemma playable_spec cfg :
  cfg ∈ playable <-> cfg ∈ Profile.sounds /\ Profile.type cfg <> "periodic".
Proof. unfold playable. rewrite list_elem_of_filter. tauto. Qed.

(** Observations do not read the clock. *)
Lemma observe_set_now t w id g this :
  UI.activeSound id (set_now t w) = UI.activeSound id w
  /\ activeCards (set_now t w) = activeCards w
  /\ UI.lifecycle (set_now t w) this = UI.lifecycle w this
  /\ UI.live_sources (set_now t w) g = UI.live_sources w g
  /\ UI.bus_inputs (set_now t w) = UI.bus_inputs w
  /\ timers (set_now t w) = timers w.
Proof. by repeat split. Qed.

End RunFacts.

(** X17.  On a freshly loaded page, for every pair of different playable
    profiles of the table: after a click on each card both play, each
    with one running source on the mix bus; switching the first off again
    silences it, once its teardown has run, and leaves the graph of the
    second as it was, still playing. *)
Theorem X17_sounds_are_independent (sr : nat) (st : CtxState)
    (rnd : nat -> Q) (a b : Profile.Config) :
  a ∈ Runs.playable -> b ∈ Runs.playable ->
  Profile.id a <> Profile.id b ->
  let w2 := Runs.duo a b (UI.boot sr st rnd) in
  let w3 := Runs.duo_then_off a b (UI.boot sr st rnd) in
  (length <$> UI.live_graphs w2 (Profile.id a)) = Some 1%nat
  /\ (length <$> UI.live_graphs w2 (Profile.id b)) = Some 1%nat
  /\ UI.live_graphs w3 (Profile.id a) = Some []
  /\ UI.live_graphs w3 (Profile.id b) = UI.live_graphs w2 (Profile.id b)
  /\ UI.lifecycle w3 0 = Some UI.Idle
  /\ UI.lifecycle w3 1 = Some UI.Playing.
Proof.
  intros Ha Hb Hne.
  apply RunFacts.side_by_side_spec; [|done].
  pose proof (RunFacts.side_by_side_all sr st rnd) as H.
  rewrite forallb_forall in H. apply H.
  apply in_prod; by apply list_elem_of_In.
Qed.

Lemma X17_sounds_are_independent_witness :
  UI.live_graphs
    (Runs.duo_then_off Profile.drone Profile.crickets
       (UI.boot 8 Running Scenario.rnd0)) "drone" = Some [].
Proof.
  refine (proj1 (proj2 (proj2 (X17_sounds_are_independent 8 Running
            Scenario.rnd0 Profile.drone Profile.crickets _ _ _)))).
  - apply RunFacts.playable_spec. split; [|discriminate].
    unfold Profile.sounds. do 4 apply list_elem_of_further.
    apply list_elem_of_here.
  - apply RunFacts.playable_spec. split; [|discriminate].
    unfold Profile.sounds. do 3 apply list_elem_of_further.
    apply list_elem_of_here.
  - discriminate.
Defined.

(** X18.  On a freshly loaded page, for every profile of the table: a
    click, a second click at once and 200 ms or more leave the card inactive, the
    node Idle with no running source on the mix bus, nothing scheduled,
    and the registry entry of the profile cleared by the clean-up; the
    node's gain stage is still an input of the mix bus.  The next click
    therefore builds a second node, which plays, next to the abandoned
    gain stage of the first. *)
Theorem X18_cycle_forgets_node (sr : nat) (st : CtxState) (rnd : nat -> Q)
    (k : nat) (cfg : Profile.Config) :
  cfg ∈ Profile.sounds ->
  let w := UI.advance k (Runs.cycle cfg (UI.boot sr st rnd)) in
  let w' := UI.run (UI.click cfg) w in
  UI.activeSound (Profile.id cfg) w = None
  /\ (Profile.id cfg ∉ activeCards w)
  /\ UI.lifecycle w 0 = Some UI.Idle
  /\ UI.live_sources w 2 = []
  /\ timers w = []
  /\ (Profile.type cfg <> "periodic" -> UI.bus_inputs w = [2%nat])
  /\ UI.activeSound (Profile.id cfg) w' = Some 1%nat
  /\ (Profile.type cfg <> "periodic" ->
      (length <$> UI.live_graphs w' (Profile.id cfg)) = Some 1%nat)
  /\ (Profile.type cfg <> "periodic" -> length (UI.bus_inputs w') = 2%nat).
Proof.
  intros Hin.
  pose proof (RunFacts.forgotten_all sr st rnd k) as H.
  rewrite forallb_forall in H.
  specialize (H cfg (proj1 (list_elem_of_In _ _) Hin)).
  apply RunFacts.forgotten_spec in H.
  destruct H as (H1 & H2 & H3 & H4 & H5 & H6 & H7 & H8 & H9).
  cbv zeta.
  assert (E : UI.advance k (Runs.cycle cfg (UI.boot sr st rnd))
              = set_now (now (Runs.cycle cfg (UI.boot sr st rnd)) + k)
                  (Runs.cycle cfg (UI.boot sr st rnd))).
  { apply MonadFacts.advance_idle. rewrite H5. constructor. }
  rewrite E.
  destruct (RunFacts.observe_set_now
              (now (Runs.cycle cfg (UI.boot sr st rnd)) + k)
              (Runs.cycle cfg (UI.boot sr st rnd)) (Profile.id cfg) 2 0)
    as (O1 & O2 & O3 & O4 & O5 & O6).
  rewrite O1, O2, O3, O4, O5, O6.
  repeat split; assumption.
Qed.

Lemma X18_cycle_forgets_node_witness :
  UI.activeSound "drone"
    (UI.advance 50 (Runs.cycle Profile.drone Scenario.page)) = None.
Proof.
  refine (proj1 (X18_cycle_forgets_node (441 * 100) Suspended Scenario.rnd0
                   50 Profile.drone _)).
  unfold Profile.sounds. do 4 apply list_elem_of_further.
  apply list_elem_of_here.
Defined.

(** * The visualizer *)

Module VisualFacts.
Import MonadFacts Session Visualizer.

Lemma outer_loop_spec t cx cy r data n k : forall i c,
  outer_loop t cx cy r data n k i c
  = mkCanvas (width c) (height c)
      (calls c ++ path t cx cy n (outer_radius r data) i k) (requests c).
Proof.
  induction k as [|k IH]; intros i c.
  - cbn. rewrite app_nil_r. by destruct c.
  - cbn [outer_loop]. cbv zeta. rewrite IH. unfold path. cbn [seq map].
    unfold vertex, outer_radius, level. cbv zeta. cbn [fst snd].
    destruct (i =? 0)%nat; cbn [call width height calls requests].
    all: by rewrite <- app_assoc.
Qed.

Lemma inner_loop_spec t cx cy r data n k : forall i c,
  inner_loop t cx cy r data n k i c
  = mkCanvas (width c) (height c)
      (calls c ++ path t cx cy n (inner_radius r data) i k) (requests c).
Proof.
  induction k as [|k IH]; intros i c.
  - cbn. rewrite app_nil_r. by destruct c.
  - cbn [inner_loop]. cbv zeta. rewrite IH. unfold path. cbn [seq map].
    unfold vertex, inner_radius, level. cbv zeta. cbn [fst snd].
    destruct (i =? 0)%nat; cbn [call width height calls requests].
    all: by rewrite <- app_assoc.
Qed.

Lemma call_mk x w h l r :
  call x (mkCanvas w h l r) = mkCanvas w h (l ++ [x]) r.
Proof. reflexivity. Qed.

Lemma draw_spec t w spectrum c :
  draw t w spectrum c
  = mkCanvas (width c) (height c)
      (calls c ++
       match analyser w with
       | None => [ClearRect 0 0 (num (width c)) (num (height c))]
       | Some a =>
           rings t c (frequencyBinCount w a)
             (byteFrequencyData spectrum (frequencyBinCount w a))
       end)
      (S (requests c)).
Proof.
  destruct c as [wd ht l r]. unfold draw, requestAnimationFrame.
  cbn [width height calls requests]. cbv zeta.
  cbn [width height calls requests].
  destruct (analyser w) as [a|]; [|apply call_mk].
  rewrite !call_mk, outer_loop_spec. cbn [width height calls requests].
  rewrite !call_mk, inner_loop_spec. cbn [width height calls requests].
  rewrite !call_mk.
  unfold rings, baseRadius. cbv zeta. cbn [width height]. f_equal.
  rewrite <- !app_assoc. cbn [app]. reflexivity.
Qed.

(** *** The analyser keeps its FFT size *)

Lemma initAudio_tuned c a n : preserves (tuned c a n) initAudio.
Proof.
  intros w H. pose proof H as (Hc & Hs & _).
  by rewrite (OpFacts.initAudio_running w c Hc Hs).
Qed.

Ltac tuned_split :=
  repeat lazymatch goal with
  | |- preserves _ initAudio => apply initAudio_tuned
  | |- preserves _ (bind _ _) => apply preserves_bind; [|intros ?]
  | |- preserves _ (ret _) => apply preserves_ret
  | |- preserves _ (throw _) => apply preserves_throw
  | |- preserves _ (gets _) => apply preserves_gets
  | |- preserves _ (deref _) => apply preserves_deref
  | |- preserves _ (try_ _) => apply preserves_try
  | |- preserves _ (modify _) => apply preserves_modify
  | |- preserves _ (if ?b then _ else _) => destruct b
  | |- preserves _ (match ?x with _ => _ end) => destruct x
  | |- preserves _ (let _ := _ in _) => cbv zeta
  end.

Ltac tuned_leaf :=
  let w := fresh "w" in
  let Hc := fresh "Hc" in
  let Hs := fresh "Hs" in
  let Ha := fresh "Ha" in
  let x := fresh "x" in
  let Hx := fresh "Hx" in
  let Hf := fresh "Hf" in
  intros w (Hc & Hs & Ha & x & Hx & Hf);
  try case_bool_decide;
  (split; [exact Hc|]); (split; [exact Hs|]); (split; [exact Ha|]);
  cbn;
  first
    [ by exists x
    | exists x; split; [by apply lookup_app_l_Some|exact Hf]
    | match goal with
      | |- exists _, alter ?g ?i _ !! ?a = _ /\ _ =>
          destruct (decide (a = i)) as [->|];
          [ exists (g x); rewrite list_lookup_alter_eq, Hx;
            split; [reflexivity|exact Hf]
          | exists x; rewrite list_lookup_alter_ne by done; by split ]
      end ].

Ltac unfold_all :=
  unfold UI.click, UI.input, UI.callback, UI.cleanup, UI.toggleActive,
    UI.receiver, SoundNode.start, SoundNode.stop, SoundNode.setVolume,
    SoundNode.teardown, SoundNode.new, SoundNode.start_finish,
    SoundNode.start_chain, SoundNode.start_cutoff_lfo,
    SoundNode.start_filter_kind, SoundNode.start_source,
    SoundNode.this_gainNode, SoundNode.this_source, SoundNode.this_filter,
    SoundNode.this_lfo, SoundNode.this_lfoGain, SoundNode.getObj,
    SoundNode.setObj, createImpulseBuffer, createPinkNoiseBuffer,
    createNoiseBuffer, setTimeout, setTargetAtTime, currentTime, stopNode,
    startNode, disconnect, connect, getNode, updNode, createAnalyser,
    createBiquadFilter, createGain, createOscillator, createBufferSource,
    alloc, getCtx.

Lemma click_tuned c a n sound : preserves (tuned c a n) (UI.click sound).
Proof. unfold_all. tuned_split; tuned_leaf. Qed.

Lemma input_tuned c a n sound v :
  preserves (tuned c a n) (UI.input sound v).
Proof. unfold_all. tuned_split; tuned_leaf. Qed.

Lemma callback_tuned c a n cb : preserves (tuned c a n) (UI.callback cb).
Proof. unfold_all. tuned_split; tuned_leaf. Qed.

Lemma callbacks_tuned c a n (due : list (nat * Callback)) : forall w,
  tuned c a n w ->
  tuned c a n (foldl (fun w d => UI.run (UI.callback d.2) w) w due).
Proof.
  induction due as [|d due IH]; intros w H; [exact H|].
  cbn [foldl]. apply IH. by apply callback_tuned.
Qed.

Lemma advance_tuned c a n ms : forall w,
  tuned c a n w -> tuned c a n (UI.advance ms w).
Proof.
  induction ms as [|ms IH]; intros w H; [exact H|].
  cbn [UI.advance]. apply IH. unfold UI.tick. cbv zeta.
  by apply callbacks_tuned.
Qed.

Lemma handle_tuned c a n ev w :
  tuned c a n w -> tuned c a n (Session.handle ev w).
Proof.
  intros H. destruct ev as [sound|sound v|ms]; cbn [Session.handle].
  - by apply click_tuned.
  - by apply input_tuned.
  - by apply advance_tuned.
Qed.

(** *** The page and its canvas *)

Lemma show_cons t ev evs s :
  Visualizer.play t (ev :: evs) s
  = Visualizer.play t evs (Visualizer.handle t ev s).
Proof. reflexivity. Qed.

Lemma dormant_handle ev w :
  match ev with Click _ => False | _ => True end ->
  dormant w -> dormant (Session.handle ev w).
Proof.
  intros Hev H. destruct ev as [sound|sound v|ms]; [done| |].
  - cbn [Session.handle]. unfold UI.run.
    rewrite (SafetyFacts.dormant_input sound v w H).
    destruct H as (? & ? & ? & ? & ? & ? & ? & ?). by repeat split.
  - cbn [Session.handle]. rewrite (SafetyFacts.dormant_advance ms w H).
    destruct H as (? & ? & ? & ? & ? & ? & ? & ?). by repeat split.
Qed.

Lemma first_click_tuned sound w :
  dormant w ->
  tuned (mkContext Running 0) 1 128 (UI.run (UI.click sound) w).
Proof.
  intros (Hc & Ha & Hn & _).
  rewrite SessionFacts.click_after_init. apply click_tuned.
  destruct (OpFacts.initAudio_once w)
    as (w1 & c & E & Hc1 & Hr & _ & H & _).
  unfold UI.run. rewrite E. cbn [snd]. rewrite Hc in H. cbv zeta in H.
  destruct H as (Hd & Ha1 & Hn1 & _). rewrite Hn in Hd, Ha1, Hn1.
  cbn in Hd, Ha1, Hn1.
  split; [|split; [done|split; [done|]]].
  - rewrite Hc1. f_equal. destruct c. cbn in *. by subst.
  - rewrite Hn1. by eexists.
Qed.

(** The state of the page and its canvas: one frame is requested; the
    audio engine is absent until a card is clicked, and from then on the
    analyser is node 1 with 128 bins. *)
Lemma play_state t evs : forall (b : bool) s,
  requests s.2 = 1%nat ->
  (if b then tuned (mkContext Running 0) 1 128 s.1 else dormant s.1) ->
  let s' := Visualizer.play t evs s in
  requests s'.2 = 1%nat
  /\ (if b || clicked evs then tuned (mkContext Running 0) 1 128 s'.1
      else dormant s'.1).
Proof.
  induction evs as [|ev evs IH]; intros b s Hr Hw.
  - cbn. by rewrite orb_false_r.
  - cbv zeta. rewrite show_cons.
    destruct ev as [e|sp|iw ih].
    + destruct e as [sound|sound v|ms].
      * replace (b || clicked (Page (Click sound) :: evs))
          with (true || clicked evs) by (by destruct b).
        apply (IH true); [exact Hr|]. cbn [Visualizer.handle fst].
        destruct b; [by apply handle_tuned|by apply first_click_tuned].
      * change (clicked (Page (Input sound v) :: evs)) with (clicked evs).
        apply (IH b); [exact Hr|]. cbn [Visualizer.handle fst].
        destruct b; [by apply handle_tuned|by apply dormant_handle].
      * change (clicked (Page (Wait ms) :: evs)) with (clicked evs).
        apply (IH b); [exact Hr|]. cbn [Visualizer.handle fst].
        destruct b; [by apply handle_tuned|by apply dormant_handle].
    + change (clicked (Frame sp :: evs)) with (clicked evs).
      apply (IH b); [|exact Hw]. cbn [Visualizer.handle snd].
      unfold frame. rewrite Hr. by rewrite draw_spec.
    + change (clicked (Resize iw ih :: evs)) with (clicked evs).
      apply (IH b); [exact Hr|exact Hw].
Qed.

Lemma load_state t sr st rnd iw ih :
  requests (load t sr st rnd iw ih).2 = 1%nat
  /\ dormant (load t sr st rnd iw ih).1.
Proof.
  split; [|apply SafetyFacts.boot_dormant].
  unfold load. cbv zeta. cbn [snd]. unfold setupVisualizer.
  by rewrite draw_spec.
Qed.

Lemma tuned_bins c a n w : tuned c a n w -> frequencyBinCount w a = n.
Proof.
  intros (_ & _ & _ & x & Hx & Hf). unfold frequencyBinCount.
  rewrite Hx, Hf. by rewrite Nat.mul_comm, Nat.div_mul.
Qed.

(** *** The vertices of a frame *)

Lemma path_length t cx cy n radius i k :
  length (path t cx cy n radius i k) = k.
Proof. unfold path. by rewrite length_map, length_seq. Qed.

Lemma path_lookup t cx cy n radius k i :
  (i < k)%nat ->
  path t cx cy n radius 0 k !! i
  = Some ((if (i =? 0)%nat then MoveTo else LineTo)
            (vertex t cx cy n i (radius i)).1
            (vertex t cx cy n i (radius i)).2).
Proof.
  intros Hi. unfold path. rewrite list_lookup_fmap, lookup_seq_lt by done.
  cbn. by destruct i.
Qed.

Lemma rings_outer t c n data i :
  (i < n)%nat ->
  rings t c n data !! (2 + i)%nat
  = Some ((if (i =? 0)%nat then MoveTo else LineTo)
            (vertex t (num (width c) / 2) (num (height c) / 2) n i
               (outer_radius (baseRadius c) data i)).1
            (vertex t (num (width c) / 2) (num (height c) / 2) n i
               (outer_radius (baseRadius c) data i)).2).
Proof.
  intros Hi. unfold rings. cbv zeta.
  rewrite lookup_app_r by (cbn [length]; lia). cbn [length].
  replace (2 + i - 2)%nat with i by lia.
  rewrite lookup_app_l by (by rewrite path_length).
  by apply path_lookup.
Qed.

Lemma rings_inner t c n data i :
  (i < n)%nat ->
  rings t c n data !! (2 + n + 7 + i)%nat
  = Some ((if (i =? 0)%nat then MoveTo else LineTo)
            (vertex t (num (width c) / 2) (num (height c) / 2) n i
               (inner_radius (baseRadius c) data i)).1
            (vertex t (num (width c) / 2) (num (height c) / 2) n i
               (inner_radius (baseRadius c) data i)).2).
Proof.
  intros Hi. unfold rings. cbv zeta.
  rewrite lookup_app_r by (cbn [length]; lia). cbn [length].
  rewrite lookup_app_r by (rewrite path_length; lia).
  rewrite path_length.
  rewrite lookup_app_r by (cbn [length]; lia). cbn [length].
  replace (2 + n + 7 + i - 2 - n - 7)%nat with i by lia.
  rewrite lookup_app_l by (by rewrite path_length).
  by apply path_lookup.
Qed.

Lemma byte_range spectrum n i :
  (0 <= default 0 (byteFrequencyData spectrum n !! i) <= 255)%Z.
Proof.
  unfold byteFrequencyData. rewrite list_lookup_fmap.
  destruct (take n _ !! i) as [b|]; cbn; [|lia].
  pose proof (Byte.to_N_bounded b). lia.
Qed.

Lemma inject_range v : (0 <= v <= 255)%Z -> 0 <= inject_Z v <= 255.
Proof.
  intros [H0 H1]. rewrite Zle_Qle in H0, H1. by split.
Qed.

Lemma level_range spectrum n i :
  0 <= level (byteFrequencyData spectrum n) i <= 1.
Proof.
  unfold level.
  pose proof (inject_range _ (byte_range spectrum n i)) as [Hq0 Hq1].
  set (v := default 0%Z _) in *.
  unfold Qdiv. change (/ 255) with (1 # 255).
  set (u := inject_Z v * (1 # 255)).
  assert (0 <= u <= 1) as [Hu0 Hu1] by (unfold u; lra).
  change (u ^ 2) with (u * u). nra.
Qed.

Lemma level_full spectrum n i :
  (i < n)%nat -> spectrum !! i = Some Byte.xff ->
  level (byteFrequencyData spectrum n) i == 1.
Proof.
  intros Hi Hb. unfold level, byteFrequencyData.
  rewrite list_lookup_fmap, lookup_take_lt by done.
  rewrite (lookup_app_l_Some _ _ _ _ Hb). reflexivity.
Qed.

Lemma min_le_l a b : min a b <= a.
Proof.
  unfold min. destruct (Qle_bool a b) eqn:E; [lra|].
  destruct (Qlt_le_dec b a) as [H|H]; [lra|].
  apply Qle_bool_iff in H. congruence.
Qed.

Lemma min_le_r a b : min a b <= b.
Proof.
  unfold min. destruct (Qle_bool a b) eqn:E; [|lra].
  by apply Qle_bool_iff.
Qed.

Lemma num_lt a b : (a < b)%nat -> num a < num b.
Proof. intros H. unfold num. rewrite <- Zlt_Qlt. lia. Qed.

Lemma clamp_range q : -1 <= clamp q <= 1.
Proof.
  unfold clamp. destruct (Qle_bool q (-1)) eqn:E1; [split; lra|].
  destruct (Qle_bool 1 q) eqn:E2; [split; lra|].
  assert (~ q <= -1) by (rewrite <- Qle_bool_iff; congruence).
  assert (~ 1 <= q) by (rewrite <- Qle_bool_iff; congruence).
  split; lra.
Qed.

Lemma coarse_trig_range x :
  -1 <= cos coarse_trig x <= 1 /\ -1 <= sin coarse_trig x <= 1.
Proof. split; apply clamp_range. Qed.

(** A radius scaled by a cosine or a sine stays within the radius. *)
Lemma scaled_within centre cs radius bound :
  -1 <= cs <= 1 -> - bound <= radius <= bound ->
  Qabs (centre + cs * radius - centre) <= bound.
Proof.
  intros [H1 H2] [H3 H4]. apply Qabs_Qle_condition. split; nra.
Qed.

Lemma baseRadius_nonneg c : 0 <= baseRadius c.
Proof.
  unfold baseRadius.
  assert (Hn : forall n, 0 <= num n / 2).
  { intros n. unfold num, Qdiv. change (/ 2) with (1 # 2).
    assert (0 <= inject_Z (Z.of_nat n))
      by (change 0 with (inject_Z 0); rewrite <- Zle_Qle; lia).
    lra. }
  pose proof (Hn (width c)). pose proof (Hn (height c)).
  unfold min. destruct (Qle_bool _ _); lra.
Qed.

End VisualFacts.

(** X23 (setupVisualizer, draw).  The animation never stops and never
    doubles: after the page has loaded, and whatever clicks, slider moves,
    waits, resizes and frames follow, exactly one call of [draw] is
    requested. *)
Theorem X23_one_frame_pending (t : Visualizer.Trig) (sr : nat)
    (st : CtxState) (rnd : nat -> Q) (iw ih : nat)
    (evs : list Visualizer.Event) :
  Visualizer.requests
    (Visualizer.play t evs (Visualizer.load t sr st rnd iw ih)).2 = 1%nat.
Proof.
  destruct (VisualFacts.load_state t sr st rnd iw ih) as [Hr Hd].
  exact (proj1 (VisualFacts.play_state t evs false _ Hr Hd)).
Qed.

(** X24 (draw).  A frame leaves the size of the canvas alone, requests
    the next frame and clears the canvas; without an analyser it does
    nothing else.  With an analyser of [n] bins it then strokes two closed
    paths of [n] vertices each, the first vertex of a path by [moveTo] and
    the others by [lineTo], and ends by resetting [shadowBlur]: [2 * n + 16]
    calls in all. *)
Theorem X24_frame (t : Visualizer.Trig) (w : World)
    (spectrum : list Byte.byte) (c : Visualizer.Canvas) :
  let c' := Visualizer.draw t w spectrum c in
  Visualizer.width c' = Visualizer.width c
  /\ Visualizer.height c' = Visualizer.height c
  /\ Visualizer.requests c' = S (Visualizer.requests c)
  /\ match analyser w with
     | None =>
         Visualizer.calls c'
         = Visualizer.calls c
           ++ [Visualizer.ClearRect 0 0 (Visualizer.num (Visualizer.width c))
                 (Visualizer.num (Visualizer.height c))]
     | Some a =>
         let n := Visualizer.frequencyBinCount w a in
         let data := Visualizer.byteFrequencyData spectrum n in
         Visualizer.calls c'
         = Visualizer.calls c ++ Visualizer.rings t c n data
         /\ length data = n
         /\ length (Visualizer.rings t c n data) = (2 * n + 16)%nat
     end.
Proof.
  cbv zeta. rewrite VisualFacts.draw_spec.
  cbn [Visualizer.width Visualizer.height Visualizer.requests
       Visualizer.calls].
  repeat split. destruct (analyser w) as [a|]; [|done].
  split; [done|]. split.
  - unfold Visualizer.byteFrequencyData.
    rewrite length_map, length_take, length_app, length_replicate. lia.
  - unfold Visualizer.rings. cbv zeta.
    rewrite !length_app, !VisualFacts.path_length. cbn. lia.
Qed.

(** X25 (draw, initAudio).  In a session that starts with the page load,
    a frame drawn before the first click on a card only clears the
    canvas; a frame drawn after it strokes the two rings with 128 vertices
    each, from the first 128 bytes of the spectrum. *)
Theorem X25_frames_follow_audio (t : Visualizer.Trig) (sr : nat)
    (st : CtxState) (rnd : nat -> Q) (iw ih : nat)
    (evs : list Visualizer.Event) (spectrum : list Byte.byte) :
  let s := Visualizer.play t evs (Visualizer.load t sr st rnd iw ih) in
  let s' := Visualizer.handle t (Visualizer.Frame spectrum) s in
  s'.1 = s.1
  /\ Visualizer.calls s'.2
     = Visualizer.calls s.2
       ++ (if Visualizer.clicked evs
           then Visualizer.rings t s.2 128
                  (Visualizer.byteFrequencyData spectrum 128)
           else [Visualizer.ClearRect 0 0
                   (Visualizer.num (Visualizer.width s.2))
                   (Visualizer.num (Visualizer.height s.2))]).
Proof.
  cbv zeta. split; [done|].
  destruct (VisualFacts.load_state t sr st rnd iw ih) as [Hr Hd].
  destruct (VisualFacts.play_state t evs false _ Hr Hd) as [Hr' Hw].
  cbn [orb] in Hw.
  set (s := Visualizer.play t evs _) in *.
  cbn [Visualizer.handle snd fst]. unfold Visualizer.frame. rewrite Hr'.
  rewrite VisualFacts.draw_spec.
  cbn [Visualizer.width Visualizer.height Visualizer.requests
       Visualizer.calls].
  destruct (Visualizer.clicked evs).
  - pose proof Hw as (_ & _ & Ha & _). rewrite Ha.
    by rewrite (VisualFacts.tuned_bins _ _ _ _ Hw).
  - destruct Hw as (_ & Ha & _). by rewrite Ha.
Qed.

(** X26 (draw).  When [Math.cos] and [Math.sin] take their values in
    [-1, 1]: vertex [i] of the outer ring is the point of angle
    [i / n] of a turn at distance [baseRadius + v^2 * 150] from the centre
    of the canvas, vertex [i] of the inner ring the point of the same
    angle at distance [baseRadius - v^2 * 100], where [v] in [0, 1] is byte
    [i] of the spectrum over 255; each coordinate of an outer vertex is
    within [baseRadius + 150] of the centre, each coordinate of an inner
    vertex within [baseRadius + 100].  The inner distance is negative, the
    vertex then lying across the centre, when the byte is 255 and the
    canvas is less than 500 wide. *)
Theorem X26_ring_geometry (t : Visualizer.Trig) (w : World) (a : nat)
    (spectrum : list Byte.byte) (c : Visualizer.Canvas) (i : nat)
    (Htrig : forall x, -1 <= Visualizer.cos t x <= 1
                       /\ -1 <= Visualizer.sin t x <= 1)
    (Ha : analyser w = Some a)
    (Hi : (i < Visualizer.frequencyBinCount w a)%nat) :
  let n := Visualizer.frequencyBinCount w a in
  let centerX := Visualizer.num (Visualizer.width c) / 2 in
  let centerY := Visualizer.num (Visualizer.height c) / 2 in
  let r := Visualizer.baseRadius c in
  let v := inject_Z (default 0%Z (Visualizer.byteFrequencyData spectrum n !! i))
           / 255 in
  let rad := Visualizer.num i / Visualizer.num n * 2 * Visualizer.PI t in
  let drawn := Visualizer.calls (Visualizer.draw t w spectrum c) in
  let k := length (Visualizer.calls c) in
  let to := if (i =? 0)%nat then Visualizer.MoveTo else Visualizer.LineTo in
  0 <= v <= 1
  /\ (exists x y, drawn !! (k + (2 + i))%nat = Some (to x y)
        /\ x == centerX + Visualizer.cos t rad * (r + v ^ 2 * 150)
        /\ y == centerY + Visualizer.sin t rad * (r + v ^ 2 * 150)
        /\ Qabs (x - centerX) <= r + 150
        /\ Qabs (y - centerY) <= r + 150)
  /\ (exists x y, drawn !! (k + (2 + n + 7 + i))%nat = Some (to x y)
        /\ x == centerX + Visualizer.cos t rad * (r - v ^ 2 * 100)
        /\ y == centerY + Visualizer.sin t rad * (r - v ^ 2 * 100)
        /\ Qabs (x - centerX) <= r + 100
        /\ Qabs (y - centerY) <= r + 100)
  /\ (spectrum !! i = Some Byte.xff ->
      (Visualizer.width c < 500)%nat -> r - v ^ 2 * 100 < 0).
Proof.
  cbv zeta. rewrite VisualFacts.draw_spec, Ha. cbn [Visualizer.calls].
  set (n := Visualizer.frequencyBinCount w a) in *.
  set (data := Visualizer.byteFrequencyData spectrum n).
  pose proof (VisualFacts.level_range spectrum n i) as Hl.
  fold data in Hl. unfold Visualizer.level in Hl.
  set (v := inject_Z (default 0%Z (data !! i)) / 255) in *.
  pose proof (VisualFacts.baseRadius_nonneg c) as Hr.
  set (r := Visualizer.baseRadius c) in *.
  set (rad := Visualizer.num i / Visualizer.num n * 2 * Visualizer.PI t).
  destruct (Htrig rad) as [Hcos Hsin].
  split; [|split; [|split]].
  - pose proof (VisualFacts.inject_range _
                  (VisualFacts.byte_range spectrum n i)) as [H0 H1].
    fold data in H0, H1. unfold v.
    set (z := default 0%Z (data !! i)) in *.
    unfold Qdiv. change (/ 255) with (1 # 255). lra.
  - eexists _, _. split; [|split; [reflexivity|split; [reflexivity|]]].
    + rewrite lookup_app_r by lia.
      replace (length (Visualizer.calls c) + (2 + i)
               - length (Visualizer.calls c))%nat with (2 + i)%nat by lia.
      by apply VisualFacts.rings_outer.
    + unfold Visualizer.vertex. cbv zeta. cbn [fst snd].
      fold rad. unfold Visualizer.outer_radius, Visualizer.level.
      fold v r.
      split.
      * apply VisualFacts.scaled_within; [done|lra].
      * apply VisualFacts.scaled_within; [done|lra].
  - eexists _, _. split; [|split; [reflexivity|split; [reflexivity|]]].
    + rewrite lookup_app_r by lia.
      replace (length (Visualizer.calls c) + (2 + n + 7 + i)
               - length (Visualizer.calls c))%nat
        with (2 + n + 7 + i)%nat by lia.
      by apply VisualFacts.rings_inner.
    + unfold Visualizer.vertex. cbv zeta. cbn [fst snd].
      fold rad. unfold Visualizer.inner_radius, Visualizer.level.
      fold v r.
      split.
      * apply VisualFacts.scaled_within; [done|lra].
      * apply VisualFacts.scaled_within; [done|lra].
  - intros Hb Hw.
    pose proof (VisualFacts.level_full spectrum n i Hi Hb) as H1.
    fold data in H1. unfold Visualizer.level in H1. fold v in H1.
    rewrite H1. unfold r, Visualizer.baseRadius.
    pose proof (VisualFacts.min_le_l
                  (Visualizer.num (Visualizer.width c) / 2)
                  (Visualizer.num (Visualizer.height c) / 2)) as Hm.
    pose proof (VisualFacts.num_lt _ _ Hw) as Hn.
    change (Visualizer.num 500) with 500 in Hn.
    unfold Qdiv in *. change (/ 2) with (1 # 2) in *. lra.
Qed.

Lemma X26_ring_geometry_witness :
  let t := Visualizer.coarse_trig in
  let w := UI.run initAudio Scenario.page in
  let c := Visualizer.blank in
  let spectrum := [Byte.xff; Byte.xff] in
  let n := Visualizer.frequencyBinCount w 1 in
  let centerX := Visualizer.num (Visualizer.width c) / 2 in
  let centerY := Visualizer.num (Visualizer.height c) / 2 in
  let r := Visualizer.baseRadius c in
  let v := inject_Z (default 0%Z
                       (Visualizer.byteFrequencyData spectrum n !! 1%nat))
           / 255 in
  let rad := Visualizer.num 1 / Visualizer.num n * 2 * Visualizer.PI t in
  exists x y,
    Visualizer.calls (Visualizer.draw t w spectrum c)
      !! (length (Visualizer.calls c) + (2 + 1))%nat
    = Some (Visualizer.LineTo x y)
    /\ x == centerX + Visualizer.cos t rad * (r + v ^ 2 * 150)
    /\ y == centerY + Visualizer.sin t rad * (r + v ^ 2 * 150)
    /\ Qabs (x - centerX) <= r + 150
    /\ Qabs (y - centerY) <= r + 150.
Proof.
  cbv zeta.
  assert (Ha : analyser (UI.run initAudio Scenario.page) = Some 1%nat)
    by (vm_compute; reflexivity).
  assert (Hi : (1 < Visualizer.frequencyBinCount
                      (UI.run initAudio Scenario.page) 1)%nat)
    by (vm_compute; lia).
  exact (proj1 (proj2 (X26_ring_geometry Visualizer.coarse_trig
                         (UI.run initAudio Scenario.page) 1
                         [Byte.xff; Byte.xff] Visualizer.blank 1
                         VisualFacts.coarse_trig_range Ha Hi))).
Defined.

(** * The wait after [stop] *)

Module SettleFacts.
Import MonadFacts Settle.

Lemma sourced_true w x :
  sourced w x = true <->
  exists k o, objs w !! k = Some o
              /\ (Obj.source o = Some x \/ Obj.lfo o = Some x).
Proof.
  unfold sourced. rewrite existsb_exists. split.
  - intros (o & Hin & H). apply list_elem_of_In, list_elem_of_lookup in Hin.
    destruct Hin as [k Hk]. exists k, o. split; [done|].
    apply orb_true_iff in H as [H|H]; apply bool_decide_eq_true in H; auto.
  - intros (k & o & Hk & H). exists o. split.
    + apply list_elem_of_In, list_elem_of_lookup. eauto.
    + apply orb_true_iff.
      destruct H as [H|H]; [left|right]; by apply bool_decide_eq_true.
Qed.

Lemma sourced_false w x k o :
  sourced w x = false -> objs w !! k = Some o ->
  Obj.source o <> Some x /\ Obj.lfo o <> Some x.
Proof.
  intros H Hk. split; intros E.
  all: assert (sourced w x = true) by (apply sourced_true; eauto).
  all: congruence.
Qed.

(** [sourced] looks at the sources and modulators only. *)
Lemma sourced_ext w w' x :
  Obj.with_isPlaying false <$> objs w = Obj.with_isPlaying false <$> objs w' ->
  sourced w x = sourced w' x.
Proof.
  intros E. unfold sourced.
  transitivity (existsb (fun o => bool_decide (Obj.source o = Some x)
                                  || bool_decide (Obj.lfo o = Some x))
                        (Obj.with_isPlaying false <$> objs w)).
  - generalize (objs w). induction l as [|o l IH]; [done|].
    cbn. by rewrite IH.
  - rewrite E. generalize (objs w'). induction l as [|o l IH]; [done|].
    cbn. by rewrite IH.
Qed.

(** *** Exceptional exits *)

Lemma keeps_exn_bind {A B} (I : World -> Prop) (m : M A) (k : A -> M B) :
  preserves I m -> (forall a, keeps_exn I (k a)) -> keeps_exn I (bind m k).
Proof.
  intros Hm Hk w Hw. unfold bind. specialize (Hm w Hw).
  destruct (m w) as [[e|a] w1]; [done|]. by apply Hk.
Qed.

Lemma keeps_exn_modify (I : World -> Prop) f : keeps_exn I (modify f).
Proof. by intros w Hw. Qed.

Lemma keeps_exn_ret {A} (I : World -> Prop) (a : A) : keeps_exn I (ret a).
Proof. by intros w Hw. Qed.

Lemma keeps_exn_throw {A} (I : World -> Prop) e :
  keeps_exn I (throw e : M A).
Proof. by intros w Hw. Qed.

Ltac idle_leaf :=
  let w := fresh "w" in
  let o := fresh "o" in
  let Ho := fresh "Ho" in
  let Hp := fresh "Hp" in
  intros w (o & Ho & Hp);
  try case_bool_decide;
  first
    [ by exists o
    | eexists; split;
      [cbn; rewrite list_lookup_alter_eq, Ho; reflexivity|exact Hp] ].

Ltac exn_split :=
  repeat lazymatch goal with
  | |- keeps_exn _ (bind _ _) =>
      apply keeps_exn_bind; [pres_split; idle_leaf|intros ?]
  | |- keeps_exn _ (modify _) => apply keeps_exn_modify
  | |- keeps_exn _ (ret _) => apply keeps_exn_ret
  | |- keeps_exn _ (throw _) => apply keeps_exn_throw
  | |- keeps_exn _ (if ?b then _ else _) => destruct b
  | |- keeps_exn _ (match ?x with _ => _ end) => destruct x
  | |- keeps_exn _ (let _ := _ in _) => cbv zeta
  end.

(** [start] sets [isPlaying] with its last statement: a [start] that
    throws leaves the node as idle as it found it. *)
Lemma start_throws_idle this : keeps_exn (idle this) (SoundNode.start this).
Proof. unfold_engine. exn_split. Qed.

(** *** The callbacks *)

Lemma teardown_missing w this :
  objs w !! this = None -> UI.run (SoundNode.teardown this) w = w.
Proof.
  intros H. unfold UI.run, SoundNode.teardown, SoundNode.getObj.
  unfold bind at 1. unfold bind at 1. unfold gets at 1. by rewrite H.
Qed.

Lemma teardown_run w this o :
  objs w !! this = Some o ->
  UI.run (SoundNode.teardown this) w = torn_down this o w.
Proof. intros H. unfold UI.run. by rewrite (teardown_spec w this o H). Qed.

Lemma cleanup_run id w :
  exists s, UI.run (UI.cleanup id) w = set_activeSounds s w.
Proof.
  unfold UI.run, UI.cleanup, modify. cbn [snd].
  case_bool_decide; eexists; [|reflexivity].
  instantiate (1 := activeSounds w). by destruct w.
Qed.

(** A callback leaves the clock and the timers alone. *)
Lemma callback_clock cb w :
  timers (UI.run (UI.callback cb) w) = timers w
  /\ now (UI.run (UI.callback cb) w) = now w.
Proof.
  destruct cb as [this|id]; cbn [UI.callback].
  - destruct (objs w !! this) as [o|] eqn:Ho.
    + rewrite (teardown_run w this o Ho).
      destruct (LifecycleFacts.torn_down_facts w this o Ho)
        as (_ & _ & _ & _ & _ & Ht).
      split; [exact Ht|]. unfold torn_down. cbv zeta. cbn.
      by destruct (Obj.lfo o), (Obj.source o).
    + by rewrite teardown_missing.
  - destruct (cleanup_run id w) as [s ->]. done.
Qed.

Lemma running_torn_down w this o x :
  UI.running w x = false -> UI.running (torn_down this o w) x = false.
Proof.
  intros H. destruct (UI.running (torn_down this o w) x) eqn:E; [|done].
  unfold torn_down in E. cbv zeta in E.
  change (UI.running (silence (Obj.lfo o) (silence (Obj.source o) w)) x
          = true) in E.
  do 2 apply running_silence_mono in E. congruence.
Qed.

Lemma disconnected_torn_down w this o x :
  disconnected w x -> disconnected (torn_down this o w) x.
Proof.
  intros H. unfold torn_down. cbv zeta.
  change (disconnected (silence (Obj.lfo o) (silence (Obj.source o) w)) x).
  by do 2 apply disconnected_silence_mono.
Qed.

Lemma torn_down_objs w this o :
  objs (torn_down this o w)
  = alter (Obj.with_isPlaying false) this (objs w).
Proof. unfold torn_down. cbv zeta. cbn. by rewrite !silence_objs. Qed.

Lemma callback_idle this cb : preserves (idle this) (UI.callback cb).
Proof.
  intros w (o & Ho & Hp). destruct cb as [k|id]; cbn [UI.callback].
  - change ((SoundNode.teardown k w).2) with (UI.run (SoundNode.teardown k) w).
    destruct (objs w !! k) as [o'|] eqn:Hk.
    + rewrite (teardown_run w k o' Hk). unfold idle.
      rewrite torn_down_objs.
      destruct (decide (this = k)) as [->|Hne].
      * rewrite list_lookup_alter_eq, Ho. by eexists.
      * rewrite list_lookup_alter_ne by done. by exists o.
    + rewrite teardown_missing by done. by exists o.
  - change ((UI.cleanup id w).2) with (UI.run (UI.cleanup id) w).
    destruct (cleanup_run id w) as [s ->]. by exists o.
Qed.

Lemma callback_settled this cb : preserves (settled this) (UI.callback cb).
Proof.
  intros w (o & Ho & Hp & Hq). destruct cb as [k|id]; cbn [UI.callback].
  - change ((SoundNode.teardown k w).2) with (UI.run (SoundNode.teardown k) w).
    destruct (objs w !! k) as [o'|] eqn:Hk.
    + rewrite (teardown_run w k o' Hk). unfold settled.
      rewrite torn_down_objs.
      assert (Hx : forall x, Obj.source o = Some x \/ Obj.lfo o = Some x ->
                UI.running (torn_down k o' w) x = false
                /\ disconnected (torn_down k o' w) x).
      { intros x Hx. destruct (Hq x Hx).
        split; [by apply running_torn_down|by apply disconnected_torn_down]. }
      destruct (decide (this = k)) as [->|Hne].
      * rewrite list_lookup_alter_eq, Ho. eexists. split; [done|].
        split; [done|]. exact Hx.
      * rewrite list_lookup_alter_ne by done. by exists o.
    + rewrite teardown_missing by done. by exists o.
  - change ((UI.cleanup id w).2) with (UI.run (UI.cleanup id) w).
    destruct (cleanup_run id w) as [s ->]. by exists o.
Qed.

(** The teardown of [this] puts the node at rest. *)
Lemma teardown_settles this w :
  idle this w \/ (exists o, objs w !! this = Some o) ->
  settled this (UI.run (SoundNode.teardown this) w).
Proof.
  intros H. assert (exists o, objs w !! this = Some o) as [o Ho].
  { destruct H as [(o & Ho & _)|H]; eauto. }
  rewrite (teardown_run w this o Ho).
  destruct (LifecycleFacts.torn_down_facts w this o Ho)
    as (Ho' & Hs & Hl & _).
  eexists. split; [exact Ho'|]. split; [done|].
  intros x [Hx|Hx]; [by apply Hs|by apply Hl].
Qed.

Lemma fmap_alter_idle (l : list Obj.SoundNode) k :
  Obj.with_isPlaying false <$> alter (Obj.with_isPlaying false) k l
  = Obj.with_isPlaying false <$> l.
Proof.
  apply list_eq. intros i. rewrite !list_lookup_fmap.
  destruct (decide (i = k)) as [->|Hne].
  - rewrite list_lookup_alter_eq. by destruct (l !! k).
  - by rewrite list_lookup_alter_ne.
Qed.

Lemma callback_waiting w1 cb : preserves (waiting w1) (UI.callback cb).
Proof.
  intros w (Ho & Ha & He). destruct cb as [k|id]; cbn [UI.callback].
  - change ((SoundNode.teardown k w).2) with (UI.run (SoundNode.teardown k) w).
    destruct (objs w !! k) as [o'|] eqn:Hk.
    + rewrite (teardown_run w k o' Hk).
      destruct (LifecycleFacts.torn_down_facts w k o' Hk)
        as (_ & _ & _ & Hkeep & Han & _).
      split; [|split].
      * by rewrite torn_down_objs, fmap_alter_idle.
      * by rewrite Han.
      * intros e Hin Hsrc. apply Hkeep; [by apply He|..].
        all: rewrite <- (sourced_ext w w1 e.1 Ho) in Hsrc.
        all: destruct (sourced_false w e.1 k o' Hsrc Hk); congruence.
    + by rewrite teardown_missing.
  - change ((UI.cleanup id w).2) with (UI.run (UI.cleanup id) w).
    destruct (cleanup_run id w) as [s ->]. done.
Qed.

(** *** Time *)

Section Advance.
Context (I : World -> Prop).
Hypothesis I_callback : forall cb, preserves I (UI.callback cb).
Hypothesis I_clock : forall w t ts, I w -> I (set_timers ts (set_now t w)).

Lemma callbacks_keep (due : list (nat * Callback)) : forall w,
  I w -> I (foldl (fun w e => UI.run (UI.callback e.2) w) w due).
Proof.
  induction due as [|e due IH]; intros w H; [exact H|].
  cbn [foldl]. apply IH. by apply I_callback.
Qed.

Lemma tick_keep w : I w -> I (UI.tick w).
Proof.
  intros H. unfold UI.tick. cbv zeta. apply callbacks_keep.
  by apply I_clock.
Qed.

Lemma advance_keep ms : forall w, I w -> I (UI.advance ms w).
Proof.
  induction ms as [|ms IH]; intros w H; [exact H|].
  cbn [UI.advance]. apply IH. by apply tick_keep.
Qed.

End Advance.

Lemma callbacks_clock (due : list (nat * Callback)) : forall w,
  timers (foldl (fun w e => UI.run (UI.callback e.2) w) w due) = timers w
  /\ now (foldl (fun w e => UI.run (UI.callback e.2) w) w due) = now w.
Proof.
  induction due as [|e due IH]; intros w; [done|].
  cbn [foldl]. destruct (IH (UI.run (UI.callback e.2) w)) as [-> ->].
  apply callback_clock.
Qed.

Section Fires.
Context (J G : World -> Prop) (cb : Callback).
Hypothesis J_callback : forall cb', preserves J (UI.callback cb').
Hypothesis J_clock : forall w t ts, J w -> J (set_timers ts (set_now t w)).
Hypothesis G_callback : forall cb', preserves G (UI.callback cb').
Hypothesis G_clock : forall w t ts, G w -> G (set_timers ts (set_now t w)).
Hypothesis fires : forall w, J w -> G (UI.run (UI.callback cb) w).

Lemma callbacks_fire (due : list (nat * Callback)) : forall w,
  J w -> G w \/ (exists t, (t, cb) ∈ due) ->
  G (foldl (fun w e => UI.run (UI.callback e.2) w) w due).
Proof.
  induction due as [|e due IH]; intros w HJ H.
  - destruct H as [H|[t H]]; [exact H|]. by apply elem_of_nil in H.
  - cbn [foldl]. apply IH; [by apply J_callback|].
    destruct H as [H|[t H]]; [left; by apply G_callback|].
    apply elem_of_cons in H as [<-|H]; [left; by apply fires|right; eauto].
Qed.

(** A callback that is due within the next [k] milliseconds has run when
    they have passed. *)
Lemma advance_fires k : forall w t,
  J w -> (now w < t <= now w + k)%nat -> (t, cb) ∈ timers w ->
  G (UI.advance k w).
Proof.
  induction k as [|k IH]; intros w t HJ Ht Hin; [lia|].
  cbn [UI.advance].
  set (w0 := set_timers (filter (fun e : nat * Callback => ¬ e.1 ≤ S (now w))
                                (timers w))
               (set_now (S (now w)) w)).
  assert (HJ0 : J w0) by (by apply J_clock).
  destruct (decide (t <= S (now w))%nat) as [Hdue|Hlater].
  - apply (advance_keep G G_callback G_clock).
    unfold UI.tick. cbv zeta. fold w0. apply callbacks_fire; [done|].
    right. exists t. apply list_elem_of_filter. by split.
  - assert (Htick : UI.tick w
        = foldl (fun w e => UI.run (UI.callback e.2) w) w0
            (filter (fun e : nat * Callback => e.1 ≤ S (now w)) (timers w)))
      by reflexivity.
    destruct (callbacks_clock
                (filter (fun e : nat * Callback => e.1 ≤ S (now w)) (timers w))
                w0) as [Htm Hnow].
    rewrite <- Htick in Htm, Hnow.
    apply (IH (UI.tick w) t).
    + by apply (tick_keep J J_callback J_clock).
    + rewrite Hnow. cbn. lia.
    + rewrite Htm. cbn. apply list_elem_of_filter. by split.
Qed.

End Fires.

End SettleFacts.

(** C3, as amended.  [start], then [stop], then 150 ms, whatever other
    callbacks are pending: the node is Idle (after a [start] that threw,
    [stop] finds the node idle and does nothing).  [start] returns for the
    four synthesis types it knows; when it has returned, the source and
    the modulator of the node are stopped and have no outgoing connection,
    the object is otherwise as [start] left it, and every connection that
    leaves neither a source nor a modulator is still there.  So are, when
    the sources and modulators of the page are nodes that existed before,
    all connections of the nodes that this [start] created other than its
    source and its modulator: the filter and the coupling gains.  The
    node's own gain stage stays an input of the mix bus. *)
Theorem C3_stop_then_teardown (w : World) (this : nat)
    (o : Obj.SoundNode) (c : Context) :
  objs w !! this = Some o ->
  Obj.isPlaying o = false ->
  audioCtx w = Some c ->
  (Obj.gainNode o < length (nodes w))%nat ->
  Settle.sourced w (Obj.gainNode o) = false ->
  let w1 := UI.run (SoundNode.start this) w in
  let w3 := UI.advance 150 (UI.run (SoundNode.stop this) w1) in
  UI.lifecycle w3 this = Some UI.Idle
  /\ (Profile.type (Obj.config o) ∈ Ready.known_types ->
      is_Some (analyser w) -> (SoundNode.start this w).1 = inr tt)
  /\ ((SoundNode.start this w).1 = inr tt ->
      exists o1 s,
        objs w1 !! this = Some o1
        /\ Obj.source o1 = Some s
        /\ objs w3 !! this = Some (Obj.with_isPlaying false o1)
        /\ UI.running w3 s = false /\ disconnected w3 s
        /\ (forall l, Obj.lfo o1 = Some l ->
              UI.running w3 l = false /\ disconnected w3 l)
        /\ (forall e, e ∈ edges w1 -> Settle.sourced w1 e.1 = false ->
              e ∈ edges w3)
        /\ ((forall k ok x, objs w !! k = Some ok ->
               Obj.source ok = Some x \/ Obj.lfo ok = Some x ->
               (x < length (nodes w))%nat) ->
            forall e, e ∈ edges w1 -> (length (nodes w) <= e.1)%nat ->
              e.1 <> s -> Obj.lfo o1 <> Some e.1 -> e ∈ edges w3)
        /\ Obj.gainNode o1 ∈ UI.bus_inputs w3).
Proof.
  intros Ho Hidle Hc Hg Hsrc w1 w3.
  assert (Hknown : Profile.type (Obj.config o) ∈ Ready.known_types ->
                   is_Some (analyser w) -> (SoundNode.start this w).1 = inr tt).
  { intros Ht [a Ha].
    destruct (StartTotal.start_idle w this o c a Ho Hidle Hc Ha Ht)
      as (w' & _ & _ & E & _). by rewrite E. }
  assert (Hclk_idle : forall w' t ts,
            Settle.idle this w' -> Settle.idle this (set_timers ts (set_now t w')))
    by (intros w' t ts H; exact H).
  destruct (SoundNode.start this w) as [[e|[]] w1'] eqn:Hstart.
  - (* [start] threw *)
    pose proof (SettleFacts.start_throws_idle this w
                  (ex_intro _ o (conj Ho Hidle))) as H1.
    rewrite Hstart in H1.
    assert (E1 : w1 = w1') by (subst w1; unfold UI.run; by rewrite Hstart).
    destruct H1 as (o1 & Ho1 & Hp1).
    assert (E2 : UI.run (SoundNode.stop this) w1 = w1').
    { rewrite E1. unfold UI.run.
      by rewrite (MonadFacts.stop_idle_noop w1' this o1 Ho1 Hp1). }
    subst w3. rewrite E2.
    destruct (SettleFacts.advance_keep (Settle.idle this)
                (SettleFacts.callback_idle this) Hclk_idle 150 w1'
                (ex_intro _ o1 (conj Ho1 Hp1))) as (o3 & Ho3 & Hp3).
    split; [|split; [exact Hknown|done]].
    unfold UI.lifecycle. by rewrite Ho3, Hp3.
  - (* [start] returned *)
    assert (E1 : w1 = w1') by (subst w1; unfold UI.run; by rewrite Hstart).
    destruct (SettleFacts.sourced_false w _ this o Hsrc Ho) as [Hsg Hlg].
    pose proof (MonadFacts.start_same_page w this w
                  (ltac:(by constructor))) as Hpage.
    pose proof (MonadFacts.start_apart this (Obj.gainNode o)
                  (length (nodes w)) Hg w
                  (conj (le_n _) (ex_intro _ o (conj Ho
                     (conj eq_refl (conj Hsg Hlg)))))) as Hapart.
    rewrite Hstart in Hpage, Hapart. cbn [snd] in Hpage, Hapart.
    destruct Hpage as [_ _ _ Hc1 Ha1 _ _ _ Ht1].
    destruct Hapart as (_ & o1 & Ho1 & Hg1 & Hs1 & Hl1).
    pose proof Hstart as Hinv.
    apply MonadFacts.start_inv in Hinv as (o' & Ho' & [[Hp _]|[_ H]]);
      [congruence|].
    destruct H as (wa & wb & out & _ & _ & Hfin).
    apply MonadFacts.start_finish_inv in Hfin
      as (o2 & s & n & a & Ho2 & Hs2 & Ha2 & _ & _ & _ & Hobjs & _ & Hedge & _
          & _ & _ & Ha & _).
    assert (Ho1' : o1 = Obj.with_isPlaying true o2).
    { rewrite Hobjs, list_lookup_alter_eq, Ho2 in Ho1. by injection Ho1. }
    (* the gain stage is still no source *)
    assert (Hsrc1 : Settle.sourced w1' (Obj.gainNode o1) = false).
    { destruct (Settle.sourced w1' (Obj.gainNode o1)) eqn:E; [|done].
      apply SettleFacts.sourced_true in E as (k & ok & Hk & Hx).
      destruct (decide (k = this)) as [->|Hne].
      - assert (ok = o1) as -> by congruence.
        destruct Hx; congruence.
      - pose proof (OpFacts.start_other this k (objs w !! k) Hne w eq_refl)
          as Hsame.
        rewrite Hstart in Hsame. cbn [snd] in Hsame.
        rewrite Hk in Hsame. symmetry in Hsame.
        assert (Settle.sourced w (Obj.gainNode o1) = true)
          by (apply SettleFacts.sourced_true; eauto).
        rewrite Hg1 in H. congruence. }
    (* [stop] *)
    assert (Hp1 : Obj.isPlaying o1 = true) by (by rewrite Ho1').
    assert (Hc1' : audioCtx w1' = Some c) by congruence.
    assert (E2 : UI.run (SoundNode.stop this) w1 = stopping this o1 w1').
    { rewrite E1. unfold UI.run.
      by rewrite (MonadFacts.stop_spec w1' this o1 c Ho1 Hp1 Hc1'). }
    set (w2 := stopping this o1 w1') in *.
    assert (Hwait2 : Settle.waiting w1' w2) by (by split).
    assert (Hclk_wait : forall w' t ts,
              Settle.waiting w1' w' ->
              Settle.waiting w1' (set_timers ts (set_now t w')))
      by (intros w' t ts H; exact H).
    assert (Hclk_set : forall w' t ts,
              Settle.settled this w' ->
              Settle.settled this (set_timers ts (set_now t w')))
      by (intros w' t ts H; exact H).
    assert (Hfires : forall w', Settle.waiting w1' w' ->
              Settle.settled this (UI.run (UI.callback (Teardown this)) w')).
    { intros w' (Hob & _). apply SettleFacts.teardown_settles. right.
      assert (Hl : (Obj.with_isPlaying false <$> objs w') !! this
                   = Some (Obj.with_isPlaying false o1))
        by (by rewrite Hob, list_lookup_fmap, Ho1).
      rewrite list_lookup_fmap in Hl.
      destruct (objs w' !! this) as [x|]; [eauto|done]. }
    assert (Hset3 : Settle.settled this w3).
    { subst w3. rewrite E2.
      apply (SettleFacts.advance_fires (Settle.waiting w1')
               (Settle.settled this) (Teardown this)
               (SettleFacts.callback_waiting w1') Hclk_wait
               (SettleFacts.callback_settled this) Hclk_set Hfires
               150 w2 (now w1' + 150)%nat Hwait2).
      - cbn. lia.
      - cbn. apply elem_of_app. right. apply list_elem_of_here. }
    assert (Hwait3 : Settle.waiting w1' w3).
    { subst w3. rewrite E2.
      by apply (SettleFacts.advance_keep (Settle.waiting w1')
                  (SettleFacts.callback_waiting w1') Hclk_wait). }
    destruct Hset3 as (o3 & Ho3 & Hp3 & Hq3).
    destruct Hwait3 as (Hob3 & Han3 & Hed3).
    assert (Eo3 : o3 = Obj.with_isPlaying false o1).
    { assert (Hl : (Obj.with_isPlaying false <$> objs w3) !! this
                   = Some (Obj.with_isPlaying false o1))
        by (by rewrite Hob3, list_lookup_fmap, Ho1).
      rewrite list_lookup_fmap, Ho3 in Hl.
      change (Some (Obj.with_isPlaying false o3)
              = Some (Obj.with_isPlaying false o1)) in Hl.
      assert (Hl' : Obj.with_isPlaying false o3 = Obj.with_isPlaying false o1)
        by congruence.
      rewrite <- Hl'. destruct o3. cbn in Hp3. by subst. }
    assert (Hs1' : Obj.source o1 = Some s) by (by rewrite Ho1').
    split; [|split; [exact Hknown|]].
    + unfold UI.lifecycle. by rewrite Ho3, Hp3.
    + intros _. exists o1, s. rewrite E1.
      split; [exact Ho1|]. split; [exact Hs1'|].
      split; [by rewrite Ho3, Eo3|].
      assert (Hs3 : Obj.source o3 = Some s) by (by rewrite Eo3).
      destruct (Hq3 s (or_introl Hs3)) as [Hr Hd].
      split; [exact Hr|]. split; [exact Hd|].
      split; [|split; [|split]].
      * intros l Hl. apply Hq3. right. by rewrite Eo3.
      * exact Hed3.
      * intros Hwf e0 He0 Hfresh Hns Hnl. apply Hed3; [done|].
        destruct (Settle.sourced w1' e0.1) eqn:E; [|done]. exfalso.
        apply SettleFacts.sourced_true in E as (k & ok & Hk & Hx).
        destruct (decide (k = this)) as [->|Hne].
        -- assert (ok = o1) as -> by congruence.
           destruct Hx; congruence.
        -- pose proof (OpFacts.start_other this k (objs w !! k) Hne w eq_refl)
             as Hsame.
           rewrite Hstart in Hsame. cbn [snd] in Hsame.
           rewrite Hk in Hsame. symmetry in Hsame.
           pose proof (Hwf k ok e0.1 Hsame Hx). lia.
      * unfold UI.bus_inputs. rewrite Han3, Ha, Ha2.
        apply list_elem_of_fmap. exists (Obj.gainNode o1, ToNode a).
        split; [done|]. apply list_elem_of_filter. split; [done|].
        apply Hed3; [|exact Hsrc1].
        rewrite Ho1'. exact Hedge.
Qed.

Lemma C3_stop_then_teardown_witness :
  let w := set_timers [(100%nat, Teardown 0)]
             (Scenario.fresh Profile.ocean (UI.boot 2 Running Scenario.rnd0)) in
  let w3 := UI.advance 150 (UI.run (SoundNode.stop 0)
                              (UI.run (SoundNode.start 0) w)) in
  UI.lifecycle w3 0 = Some UI.Idle
  /\ (4%nat, ToNode 2) ∈ edges w3
  /\ (6%nat, ToParam 4 "frequency") ∈ edges w3.
Proof.
  cbv zeta.
  set (w := set_timers [(100%nat, Teardown 0)]
              (Scenario.fresh Profile.ocean (UI.boot 2 Running Scenario.rnd0))).
  set (o := Obj.mkSoundNode Profile.ocean 2 None None None None false).
  assert (H1 : objs w !! 0%nat = Some o) by (vm_compute; reflexivity).
  assert (H3 : audioCtx w = Some (mkContext Running 0))
    by (vm_compute; reflexivity).
  assert (H4 : (Obj.gainNode o < length (nodes w))%nat)
    by (apply Nat.ltb_lt; vm_compute; reflexivity).
  assert (H5 : Settle.sourced w (Obj.gainNode o) = false)
    by (vm_compute; reflexivity).
  assert (H6 : (SoundNode.start 0 w).1 = inr tt) by (vm_compute; reflexivity).
  destruct (C3_stop_then_teardown w 0 o (mkContext Running 0)
              H1 eq_refl H3 H4 H5) as (HA & _ & HB).
  destruct (HB H6) as (o1 & s & _ & _ & _ & _ & _ & _ & Hed & _ & _).
  split; [exact HA|].
  split; apply Hed; first [apply (bool_decide_unpack _); vm_compute; exact I
                          |vm_compute; reflexivity].
Defined.

